(** * Renderer.cpp: a shallow embedding of the per-pixel ray tracing pipeline

    The development follows [src/source/Renderer.cpp]:

    - [F32]: the C++ [float] type as IEEE-754 binary32, computed with the
      Standard Library's [SpecFloat] operations at precision 24;
    - machine integers ([int], [uint32_t], [uint8_t]) as [Z] with wrap-around
      and undefined behaviour written out;
    - the types declared in headers outside the translation unit
      ([Vector3], [ColorRGB], [Ray], [HitRecord], [Camera]) as records, and
      the operations of those headers as an interface ([MathLib],
      [LightUtils], [Scene], [Material]);
    - [Renderer::RenderPixel] in a small monad that logs every call made to
      a collaborator and fails on undefined behaviour;
    - [Renderer::Render] with its three execution strategies, the concurrent
      ones under an arbitrary scheduler;
    - [Renderer::CycleLightingMode]. *)

From Stdlib Require Import ZArith Bool List Lia.
From Stdlib Require Import Floats.SpecFloat.
From stdpp Require Import base tactics option list numbers strings.

Local Open Scope Z_scope.

(** ** Machine integers *)

Definition INT_MIN : Z := - 2 ^ 31.
Definition INT_MAX : Z := 2 ^ 31 - 1.
Definition UINT32_MOD : Z := 2 ^ 32.

(** Conversion of an integer value to [uint32_t]: reduction modulo 2^32. *)
Definition to_uint32 (z : Z) : Z := z mod UINT32_MOD.

(** Conversion of a [uint32_t] value to [int]: the value congruent modulo 2^32. *)
Definition uint32_to_int (z : Z) : Z :=
  if z <=? INT_MAX then z else z - UINT32_MOD.

(** The result of a signed [int] operation: overflow is undefined behaviour. *)
Definition int_result (z : Z) : option Z :=
  if (INT_MIN <=? z) && (z <=? INT_MAX) then Some z else None.

(** The conversion of an [int] to [bool]: every value but zero is
    [true]. *)
Definition int_to_bool (z : Z) : bool := negb (z =? 0).

(** ** binary32 floating point *)

Module F32.

Definition prec : Z := 24.
Definition emax : Z := 128.

Definition float : Type := spec_float.

Definition add : float -> float -> float := SFadd prec emax.
Definition sub : float -> float -> float := SFsub prec emax.
Definition mul : float -> float -> float := SFmul prec emax.
Definition div : float -> float -> float := SFdiv prec emax.
Definition sqrt : float -> float := SFsqrt prec emax.
Definition opp : float -> float := SFopp.
Definition ltb : float -> float -> bool := SFltb.

(** Integer to [float] conversion, round to nearest even. *)
Definition of_int (z : Z) : float := binary_normalize prec emax z 0 false.

Definition zero : float := S754_zero false.
Definition one : float := Eval cbv in of_int 1.
Definition two : float := Eval cbv in of_int 2.
Definition c255 : float := Eval cbv in of_int 255.
(** The literal [0.5f]. *)
Definition half : float := Eval cbv in binary_normalize prec emax 1 (-1) false.
(** The literal [0.01f]: the binary32 value nearest to 1/100. *)
Definition c0_01 : float := S754_finite false 10737418 (-30).

(** [std::max(a, b)] is [(a < b) ? b : a]. *)
Definition max (a b : float) : float := if ltb a b then b else a.

(** Truncation toward zero of a finite value; NaN and the infinities have
    no integer value. *)
Definition trunc (f : float) : option Z :=
  match f with
  | S754_zero _ => Some 0
  | S754_finite s m e =>
      Some (cond_Zopp s
              (match e with
               | Z0 => Zpos m
               | Zpos p => Zpos m * 2 ^ Zpos p
               | Zneg p => Zpos m / 2 ^ Zpos p
               end))
  | S754_infinity _ | S754_nan => None
  end.

(** [static_cast<uint8_t>(f)]: the truncated value; undefined behaviour
    when it is not representable in [uint8_t]. *)
Definition to_uint8 (f : float) : option Z :=
  match trunc f with
  | Some z => if (0 <=? z) && (z <=? 255) then Some z else None
  | None => None
  end.

End F32.

Abbreviation float := F32.float.

(** ** Types of the project headers *)

Module Vector3.
(** Modelled from the spec: [Vector3] is declared outside the translation
    unit; a "3-component floating point" value, built at line 133 from three
    scalars. *)
Record Vector3 : Type := mk { x : float; y : float; z : float }.
End Vector3.
Abbreviation Vector3 := Vector3.Vector3.

Module ColorRGB.
(** Modelled from the spec: [ColorRGB] is declared outside the translation
    unit; "a 3-channel float color value" with the channels r, g, b read at
    lines 198-200. *)
Record ColorRGB : Type := mk { r : float; g : float; b : float }.

(** Modelled from the spec: the value of [ColorRGB{ }], "the zero color". *)
Definition zero : ColorRGB := mk F32.zero F32.zero F32.zero.

(** Modelled from the spec: [ColorRGB::operator+=], channel by channel. *)
Definition add (c d : ColorRGB) : ColorRGB :=
  mk (F32.add (r c) (r d)) (F32.add (g c) (g d)) (F32.add (b c) (b d)).

(** Modelled from the spec: [ColorRGB * ColorRGB], the "componentwise
    product". *)
Definition mul (c d : ColorRGB) : ColorRGB :=
  mk (F32.mul (r c) (r d)) (F32.mul (g c) (g d)) (F32.mul (b c) (b d)).

(** Modelled from the spec: [ColorRGB * float], the "scalar multiplies all
    channels". *)
Definition scale (c : ColorRGB) (s : float) : ColorRGB :=
  mk (F32.mul (r c) s) (F32.mul (g c) s) (F32.mul (b c) s).

(** Modelled from the spec: [ColorRGB::MaxToOne], "if any channel exceeds
    1, all channels are divided by the maximum channel". *)
Definition MaxToOne (c : ColorRGB) : ColorRGB :=
  let maxValue := F32.max (r c) (F32.max (g c) (b c)) in
  if F32.ltb F32.one maxValue
  then mk (F32.div (r c) maxValue) (F32.div (g c) maxValue)
          (F32.div (b c) maxValue)
  else c.
End ColorRGB.
Abbreviation ColorRGB := ColorRGB.ColorRGB.

Module Ray.
(** Modelled from the spec: [Ray] is declared outside the translation unit;
    "origin, direction, and a valid parametric interval [min,max]". *)
Record Ray : Type := mk {
  origin : Vector3;
  direction : Vector3;
  min : float;
  max : float
}.
End Ray.
Abbreviation Ray := Ray.Ray.

Module HitRecord.
(** Modelled from the spec: [HitRecord] is declared outside the translation
    unit; "a boolean hit flag, hit point (origin), surface normal, material
    index, and hit distance". *)
Record HitRecord : Type := mk {
  origin : Vector3;
  normal : Vector3;
  t : float;
  didHit : bool;
  materialIndex : nat
}.
End HitRecord.
Abbreviation HitRecord := HitRecord.HitRecord.

(** [enum class LightingMode] with the four values switched on at lines
    172-188 and 213-229. *)
Inductive LightingMode : Type :=
  | ObservedArea
  | Radiance
  | BRDF
  | Combined.

(** ** Interfaces of the headers and collaborators

    [Math.h], [Matrix.h] and the [Vector3] operators are not part of the
    translation unit. Their operations are an interface; every theorem
    below holds for each implementation of it. *)
Class MathLib : Type := {
  Matrix : Type;
  (** [Matrix::TransformVector] *)
  TransformVector : Matrix -> Vector3 -> Vector3;
  (** [Vector3::Dot] *)
  Dot : Vector3 -> Vector3 -> float;
  (** [Vector3::Normalize]: the returned length and the vector left in
      place *)
  Normalize : Vector3 -> float * Vector3;
  (** [Vector3::Normalized]: the normalized copy *)
  Normalized : Vector3 -> Vector3;
  (** [Vector3 + Vector3], [Vector3 - Vector3], [float * Vector3] *)
  Vector3_add : Vector3 -> Vector3 -> Vector3;
  Vector3_sub : Vector3 -> Vector3 -> Vector3;
  Vector3_scale : float -> Vector3 -> Vector3;
  (** the values of [Vector3{}], [Ray{}] and [HitRecord{}] *)
  Vector3_default : Vector3;
  Ray_default : Ray;
  HitRecord_default : HitRecord;
  (** [TO_RADIANS] and [tan] on [float] *)
  TO_RADIANS : float;
  tan : float -> float
}.

(** The camera of [Camera.h]: the three members read by the renderer and
    the per-frame update of the camera-to-world transform. *)
Class CameraLib `{MathLib} : Type := {
  Camera : Type;
  Camera_origin : Camera -> Vector3;
  Camera_fovAngle : Camera -> float;
  Camera_cameraToWorld : Camera -> Matrix;
  CalculateCameraToWorld : Camera -> Camera
}.

(** The [LightUtils] namespace of [Utils.h]. *)
Class LightUtils : Type := {
  Light : Type;
  GetDirectionToLight : Light -> Vector3 -> Vector3;
  GetRadiance : Light -> Vector3 -> ColorRGB
}.

(** [SDL_MapRGB] for the pixel format of the window surface. *)
Class SDL : Type := {
  SDL_MapRGB : Z -> Z -> Z -> Z
}.

(** A material is an object with a virtual [Shade] method. *)
Record Material : Type := mkMaterial {
  Shade : HitRecord -> Vector3 -> Vector3 -> ColorRGB
}.

(** The renderer object: the members read or written by the translation
    unit. [m_pBufferPixels] is the pixel array of the window surface. *)
Record Renderer : Type := mkRenderer {
  m_Width : Z;
  m_Height : Z;
  m_pBufferPixels : list Z;
  m_CurrentLightingMode : LightingMode;
  m_ShadowsEnabled : bool
}.

(** ** Renderer::CycleLightingMode (lines 211-232) *)

Definition CycleLightingMode (this : Renderer) : Renderer :=
  match m_CurrentLightingMode this with
  | ObservedArea =>
      mkRenderer (m_Width this) (m_Height this) (m_pBufferPixels this)
                 Radiance (m_ShadowsEnabled this)
  | Radiance =>
      mkRenderer (m_Width this) (m_Height this) (m_pBufferPixels this)
                 BRDF (m_ShadowsEnabled this)
  | BRDF =>
      mkRenderer (m_Width this) (m_Height this) (m_pBufferPixels this)
                 Combined (m_ShadowsEnabled this)
  | Combined =>
      mkRenderer (m_Width this) (m_Height this) (m_pBufferPixels this)
                 ObservedArea (m_ShadowsEnabled this)
  end.

(** ** The scene, the call log and the monad of RenderPixel *)

(** One entry of the log: a call to the scene, to [LightUtils] or to a
    material, with its arguments. *)
Inductive Call (Light : Type) : Type :=
  | Call_GetClosestHit (viewRay : Ray)
  | Call_GetDirectionToLight (light : Light) (point : Vector3)
  | Call_DoesHit (shadowRay : Ray)
  | Call_GetRadiance (light : Light) (point : Vector3)
  | Call_Shade (index : nat) (hitRecord : HitRecord) (l v : Vector3).

Arguments Call_GetClosestHit {Light} viewRay.
Arguments Call_GetDirectionToLight {Light} light point.
Arguments Call_DoesHit {Light} shadowRay.
Arguments Call_GetRadiance {Light} light point.
Arguments Call_Shade {Light} index hitRecord l v.

Section Pipeline.

Context `{CameraLib} `{LightUtils} `{SDL}.

(** The scene object behind [pScene]: the accessors and the two virtual
    queries used by the renderer. [GetClosestHit] receives the record to
    fill in (line 143). *)
Record Scene : Type := mkScene {
  GetCamera : Camera;
  GetMaterials : list Material;
  GetLights : list Light;
  GetClosestHit : Ray -> HitRecord -> HitRecord;
  DoesHit : Ray -> bool
}.

(** A computation returns a value and the calls it made, in order, or is
    undefined behaviour ([None]). *)
Definition M (A : Type) : Type := option (A * list (Call Light)).

Definition ret {A : Type} (a : A) : M A := Some (a, []).

Definition bind {A B : Type} (m : M A) (f : A -> M B) : M B :=
  match m with
  | None => None
  | Some (a, calls1) =>
      match f a with
      | None => None
      | Some (b, calls2) => Some (b, calls1 ++ calls2)
      end
  end.

(** A call to a collaborator: its result, logged. *)
Definition call {A : Type} (c : Call Light) (a : A) : M A := Some (a, [c]).

(** A partial operation: [None] is undefined behaviour. *)
Definition defined {A : Type} (o : option A) : M A :=
  match o with
  | Some a => ret a
  | None => None
  end.

Notation "'let*' x := m 'in' k" := (bind m (fun x => k))
  (at level 10, x name, m at level 100, k at level 200).

(** The local variables of RenderPixel that live across the iterations of
    the light loop (lines 139, 148, 151). *)
Record LoopState : Type := mkLoopState {
  shadowRay : Ray;
  shadowDir : Vector3;
  finalColor : ColorRGB
}.

(** Lines 156-158: normalise [shadowDir] in place, keep the returned length
    as the upper bound of the shadow ray, and aim the ray from the hit
    point. *)
Definition aimShadowRay (closestHit : HitRecord) (toLight : Vector3)
    (st : LoopState) : LoopState :=
  let length := fst (Normalize toLight) in
  let shadowDir' := snd (Normalize toLight) in
  let min' := Ray.min (shadowRay st) in
  mkLoopState
    (Ray.mk (Vector3_add (HitRecord.origin closestHit)
                         (Vector3_scale min' shadowDir'))
            shadowDir' min' length)
    shadowDir'
    (finalColor st).

(** Lines 172-188: the switch on the lighting mode. *)
Definition accumulate (mode : LightingMode) (closestHit : HitRecord)
    (shadowDir' : Vector3) (E BRDFrgb finalColor' : ColorRGB) : ColorRGB :=
  match mode with
  | ObservedArea =>
      ColorRGB.add finalColor'
        (ColorRGB.scale (ColorRGB.mk F32.one F32.one F32.one)
                        (Dot (HitRecord.normal closestHit) shadowDir'))
  | Radiance => ColorRGB.add finalColor' E
  | BRDF => ColorRGB.add finalColor' BRDFrgb
  | Combined =>
      ColorRGB.add finalColor'
        (ColorRGB.scale (ColorRGB.mul E BRDFrgb)
                        (Dot (HitRecord.normal closestHit) shadowDir'))
  end.

(** [materials[i]]: indexing past the end is undefined behaviour. *)
Definition materials_at (materials : list Material) (i : nat) : M Material :=
  defined (materials !! i).

(** Lines 155-188: the body of the light loop for one light. The two
    [continue] statements return the state without touching the color. *)
Definition lightIteration (this : Renderer) (pScene : Scene) (viewRay : Ray)
    (closestHit : HitRecord) (materials : list Material)
    (light : Light) (st : LoopState) : M LoopState :=
  let* toLight := call (Call_GetDirectionToLight light (HitRecord.origin closestHit))
                  (GetDirectionToLight light (HitRecord.origin closestHit)) in
  let st := aimShadowRay closestHit toLight st in
  let v := Vector3_sub (HitRecord.origin closestHit) (Ray.direction viewRay) in
  if F32.ltb (Dot (HitRecord.normal closestHit) (shadowDir st)) (F32.of_int 0)
  then ret st
  else
    let* occluded := call (Call_DoesHit (shadowRay st)) (DoesHit pScene (shadowRay st)) in
    if occluded && m_ShadowsEnabled this
    then ret st
    else
      let* E := call (Call_GetRadiance light (HitRecord.origin closestHit))
                (GetRadiance light (HitRecord.origin closestHit)) in
      let* material := materials_at materials (HitRecord.materialIndex closestHit) in
      let* BRDFrgb := call (Call_Shade (HitRecord.materialIndex closestHit) closestHit
                         (Normalized (shadowDir st))
                         (Normalized (Ray.direction viewRay)))
                      (Shade material closestHit
                         (Normalized (shadowDir st))
                         (Normalized (Ray.direction viewRay))) in
      ret (mkLoopState (shadowRay st) (shadowDir st)
             (accumulate (m_CurrentLightingMode this) closestHit (shadowDir st)
                         E BRDFrgb (finalColor st))).

(** Lines 153-189: [for (size_t i = 0; i < lights.size(); ++i)]. *)
Fixpoint lightLoop (this : Renderer) (pScene : Scene) (viewRay : Ray)
    (closestHit : HitRecord) (materials : list Material)
    (lights : list Light) (st : LoopState) : M LoopState :=
  match lights with
  | [] => ret st
  | light :: rest =>
      let* st' := lightIteration this pScene viewRay closestHit materials light st in
      lightLoop this pScene viewRay closestHit materials rest st'
  end.

(** Lines 148-151: the state on entry to the light loop. *)
Definition loopEntry : LoopState :=
  mkLoopState
    (Ray.mk (Ray.origin Ray_default) (Ray.direction Ray_default)
            F32.c0_01 (Ray.max Ray_default))
    Vector3_default
    ColorRGB.zero.

(** Lines 122-123: the pixel coordinates. [m_Width] is converted to
    [uint32_t] for the unsigned modulo and division (by zero: undefined
    behaviour) and the results are converted to [int]. *)
Definition pixel_px (this : Renderer) (pixelIndex : Z) : option Z :=
  if to_uint32 (m_Width this) =? 0 then None
  else Some (uint32_to_int (pixelIndex mod to_uint32 (m_Width this))).

Definition pixel_py (this : Renderer) (pixelIndex : Z) : option Z :=
  if to_uint32 (m_Width this) =? 0 then None
  else Some (uint32_to_int (pixelIndex / to_uint32 (m_Width this))).

(** Line 197: the index [px + (py * m_Width)], in [int] arithmetic. *)
Definition pixel_offset (this : Renderer) (px py : Z) : option Z :=
  match int_result (py * m_Width this) with
  | Some row => int_result (px + row)
  | None => None
  end.

(** Lines 125-137: the view ray through the centre of pixel (px, py). *)
Definition viewRayOf (this : Renderer) (px py : Z) (fov aspectRatio : float)
    (camera : Camera) : Ray :=
  let rx := F32.add (F32.of_int px) F32.half in
  let ry := F32.add (F32.of_int py) F32.half in
  let x := F32.mul
             (F32.mul
                (F32.sub (F32.mul (F32.of_int 2)
                                  (F32.div rx (F32.of_int (m_Width this))))
                         (F32.of_int 1))
                aspectRatio)
             fov in
  let y := F32.mul
             (F32.sub (F32.of_int 1)
                      (F32.mul (F32.of_int 2)
                               (F32.div ry (F32.of_int (m_Height this)))))
             fov in
  let cameraSpaceDir := Vector3.mk x y (F32.of_int 1) in
  let rayDirection :=
    Normalized (TransformVector (Camera_cameraToWorld camera) cameraSpaceDir) in
  Ray.mk (Camera_origin camera) rayDirection
         (Ray.min Ray_default) (Ray.max Ray_default).

(** [m_pBufferPixels[offset] = value]: a write outside the array is
    undefined behaviour. *)
Definition store (buffer : list Z) (offset value : Z) : option (list Z) :=
  if (0 <=? offset) && (offset <? Z.of_nat (length buffer))
  then Some (<[Z.to_nat offset := value]> buffer)
  else None.

(** Lines 139-190: the color of the pixel before tone mapping. *)
Definition shadePixel (this : Renderer) (pScene : Scene) (viewRay : Ray)
    (lights : list Light) (materials : list Material) : M ColorRGB :=
  let* closestHit := call (Call_GetClosestHit viewRay)
                     (GetClosestHit pScene viewRay HitRecord_default) in
  if HitRecord.didHit closestHit
  then
    let* st := lightLoop this pScene viewRay closestHit materials lights loopEntry in
    ret (finalColor st)
  else ret ColorRGB.zero.

(** Renderer::RenderPixel (lines 120-203). The method is [const]: the
    returned renderer differs from [this] in the pixel array only. *)
Definition RenderPixel (this : Renderer) (pScene : Scene) (pixelIndex : Z)
    (fov aspectRatio : float) (camera : Camera) (lights : list Light)
    (materials : list Material) : M Renderer :=
  let* px := defined (pixel_px this pixelIndex) in
  let* py := defined (pixel_py this pixelIndex) in
  let viewRay := viewRayOf this px py fov aspectRatio camera in
  let* finalColor := shadePixel this pScene viewRay lights materials in
  let finalColor := ColorRGB.MaxToOne finalColor in
  let* offset := defined (pixel_offset this px py) in
  let* r8 := defined (F32.to_uint8 (F32.mul (ColorRGB.r finalColor) (F32.of_int 255))) in
  let* g8 := defined (F32.to_uint8 (F32.mul (ColorRGB.g finalColor) (F32.of_int 255))) in
  let* b8 := defined (F32.to_uint8 (F32.mul (ColorRGB.b finalColor) (F32.of_int 255))) in
  let* buffer := defined (store (m_pBufferPixels this) offset (SDL_MapRGB r8 g8 b8)) in
  ret (mkRenderer (m_Width this) (m_Height this) buffer
                  (m_CurrentLightingMode this) (m_ShadowsEnabled this)).

End Pipeline.

(** ** Renderer::Render (lines 35-118) *)

(** The three alternatives of the preprocessor selection at lines 53, 94
    and 103. *)
Inductive ExecutionStrategy : Type :=
  | ASYNC
  | PARALLEL_FOR
  | NoThreading.

(** What the frame takes from its environment: the value returned by
    [std::thread::hardware_concurrency()] and the choices of the scheduler,
    one per call of RenderPixel made by a concurrent strategy. *)
Record Env : Type := mkEnv {
  hardware_concurrency : Z;
  scheduler : list nat
}.

(** Lines 76-80: the pixel indices rendered by one task, in order. *)
Definition taskIndices (currPixelIndex taskSize : Z) : list Z :=
  let pixelIndexEnd := to_uint32 (currPixelIndex + taskSize) in
  seqZ currPixelIndex (pixelIndexEnd - currPixelIndex).

(** Lines 64-85: the loop over the cores, with [cores] iterations left. *)
Fixpoint asyncTasks (cores : nat)
    (numPixelsPerTask numUnassignedPixels currPixelIndex : Z) : list (list Z) :=
  match cores with
  | O => []
  | S cores' =>
      let taskSize :=
        if 0 <? numUnassignedPixels
        then to_uint32 (numPixelsPerTask + 1) else numPixelsPerTask in
      let numUnassignedPixels' :=
        if 0 <? numUnassignedPixels
        then to_uint32 (numUnassignedPixels - 1) else numUnassignedPixels in
      taskIndices currPixelIndex taskSize
        :: asyncTasks cores' numPixelsPerTask numUnassignedPixels'
                      (to_uint32 (currPixelIndex + taskSize))
  end.

(** Lines 58-62: the partition of the index range; a division by zero
    cores is undefined behaviour. *)
Definition asyncPartition (numCores numPixels : Z) : option (list (list Z)) :=
  if numCores =? 0 then None
  else Some (asyncTasks (Z.to_nat numCores) (numPixels / numCores)
                        (numPixels mod numCores) 0).

(** Lines 98-100: [parallel_for] hands every index of [0, numPixels) to the
    body on its own; the body takes it as [int] and passes it on as
    [uint32_t]. *)
Definition parallelForTasks (numPixels : Z) : list (list Z) :=
  map (fun i => [to_uint32 (uint32_to_int i)]) (seqZ 0 numPixels).

(** The number of tasks that have calls left to make. *)
Fixpoint runningTasks (tasks : list (list Z)) : nat :=
  match tasks with
  | [] => O
  | [] :: rest => runningTasks rest
  | (_ :: _) :: rest => S (runningTasks rest)
  end.

(** The [n]-th running task makes its next call of RenderPixel. *)
Fixpoint advance (n : nat) (tasks : list (list Z)) : option (Z * list (list Z)) :=
  match tasks with
  | [] => None
  | [] :: rest =>
      match advance n rest with
      | Some (i, rest') => Some (i, [] :: rest')
      | None => None
      end
  | (i :: task) :: rest =>
      match n with
      | O => Some (i, task :: rest)
      | S n' =>
          match advance n' rest with
          | Some (j, rest') => Some (j, (i :: task) :: rest')
          | None => None
          end
      end
  end.

(** The order in which concurrent tasks call RenderPixel under the given
    scheduler choices: every step picks one of the running tasks. The
    tasks are joined (lines 89-92) when none is running. *)
Fixpoint interleave (choices : list nat) (steps : nat) (tasks : list (list Z))
    : list Z :=
  match steps with
  | O => []
  | S steps' =>
      let n := (hd O choices mod runningTasks tasks)%nat in
      match advance n tasks with
      | Some (i, tasks') => i :: interleave (tl choices) steps' tasks'
      | None => []
      end
  end.

Definition joinAll (choices : list nat) (tasks : list (list Z)) : list Z :=
  interleave choices (length (concat tasks)) tasks.

(** The sequence of pixel indices RenderPixel is called with. *)
Definition schedule (strategy : ExecutionStrategy) (env : Env) (numPixels : Z)
    : option (list Z) :=
  match strategy with
  | ASYNC =>
      match asyncPartition (hardware_concurrency env) numPixels with
      | Some tasks => Some (joinAll (scheduler env) tasks)
      | None => None
      end
  | PARALLEL_FOR => Some (joinAll (scheduler env) (parallelForTasks numPixels))
  | NoThreading => Some (seqZ 0 numPixels)
  end.

Section Frame.

Context `{CameraLib} `{LightUtils} `{SDL}.

(** Line 50: [m_Width * m_Height] in [int] arithmetic, converted to
    [uint32_t]. *)
Definition numPixelsOf (this : Renderer) : option Z :=
  match int_result (m_Width this * m_Height this) with
  | Some n => Some (to_uint32 n)
  | None => None
  end.

(** The calls of RenderPixel made by a frame, one after the other. *)
Fixpoint renderPixels (pScene : Scene) (fov aspectRatio : float)
    (camera : Camera) (lights : list Light) (materials : list Material)
    (indices : list Z) (this : Renderer) : M Renderer :=
  match indices with
  | [] => ret this
  | pixelIndex :: rest =>
      bind (RenderPixel this pScene pixelIndex fov aspectRatio camera lights
                        materials)
           (renderPixels pScene fov aspectRatio camera lights materials rest)
  end.

(** Renderer::Render: the renderer and the scene after the frame. The
    closing [SDL_UpdateWindowSurface] presents the surface and changes no
    member. *)
Definition Render (strategy : ExecutionStrategy) (env : Env) (this : Renderer)
    (pScene : Scene) : option (Renderer * Scene) :=
  let camera := CalculateCameraToWorld (GetCamera pScene) in
  let pScene :=
    mkScene camera (GetMaterials pScene) (GetLights pScene)
            (GetClosestHit pScene) (DoesHit pScene) in
  let fovAngle := F32.mul (Camera_fovAngle camera) TO_RADIANS in
  let fov := tan (F32.div fovAngle F32.two) in
  let aspectRatio :=
    F32.div (F32.of_int (m_Width this)) (F32.of_int (m_Height this)) in
  let materials := GetMaterials pScene in
  let lights := GetLights pScene in
  match numPixelsOf this with
  | None => None
  | Some numPixels =>
      match schedule strategy env numPixels with
      | None => None
      | Some indices =>
          match renderPixels pScene fov aspectRatio camera lights materials
                             indices this with
          | Some (this', _) => Some (this', pScene)
          | None => None
          end
      end
  end.

(** Renderer::SaveBufferToImage (lines 206-209) is [const]: the renderer is
    left as it is. [SDL_SaveBMP] writes the surface to the file it is
    given and returns an [int], which the [return] statement converts to
    the [bool] result. *)
Definition SaveBufferToImage (SDL_SaveBMP : list Z -> string -> Z)
    (this : Renderer) : bool * Renderer :=
  (int_to_bool (SDL_SaveBMP (m_pBufferPixels this) "RayTracing_Buffer.bmp"),
   this).

End Frame.

(** ** A sample implementation of the interfaces

    The textbook formulas for the header operations and a small scene of
    horizontal planes lit by point lights. The theorems do not depend on
    it; it is what the embedding is run on. *)

Module Sample.

(** Modelled from the spec: [Vector3::Dot], the "dot product". *)
Definition Dot (a b : Vector3) : float :=
  F32.add (F32.add (F32.mul (Vector3.x a) (Vector3.x b))
                   (F32.mul (Vector3.y a) (Vector3.y b)))
          (F32.mul (Vector3.z a) (Vector3.z b)).

(** Modelled from the spec: [Vector3::Normalize], which "returns length,
    mutates in place". *)
Definition Normalize (v : Vector3) : float * Vector3 :=
  let m := F32.sqrt (Dot v v) in
  (m, Vector3.mk (F32.div (Vector3.x v) m) (F32.div (Vector3.y v) m)
                 (F32.div (Vector3.z v) m)).

(** Modelled from the spec: [Vector3::Normalized], which "returns a new
    normalized copy". *)
Definition Normalized (v : Vector3) : Vector3 := snd (Normalize v).

(** Modelled from the spec: the "addition/scaling" of [Vector3], the
    difference and the unary minus. *)
Definition add (a b : Vector3) : Vector3 :=
  Vector3.mk (F32.add (Vector3.x a) (Vector3.x b))
             (F32.add (Vector3.y a) (Vector3.y b))
             (F32.add (Vector3.z a) (Vector3.z b)).

Definition sub (a b : Vector3) : Vector3 :=
  Vector3.mk (F32.sub (Vector3.x a) (Vector3.x b))
             (F32.sub (Vector3.y a) (Vector3.y b))
             (F32.sub (Vector3.z a) (Vector3.z b)).

Definition scale (s : float) (a : Vector3) : Vector3 :=
  Vector3.mk (F32.mul s (Vector3.x a)) (F32.mul s (Vector3.y a))
             (F32.mul s (Vector3.z a)).

Definition neg (a : Vector3) : Vector3 :=
  Vector3.mk (F32.opp (Vector3.x a)) (F32.opp (Vector3.y a))
             (F32.opp (Vector3.z a)).

Definition vec (x y z : Z) : Vector3 :=
  Vector3.mk (F32.of_int x) (F32.of_int y) (F32.of_int z).

(** A matrix as its three axes; [TransformVector] ignores the
    translation. *)
Definition Axes : Type := Vector3 * Vector3 * Vector3.

Definition TransformVector (m : Axes) (v : Vector3) : Vector3 :=
  let '(xAxis, yAxis, zAxis) := m in
  add (add (scale (Vector3.x v) xAxis) (scale (Vector3.y v) yAxis))
      (scale (Vector3.z v) zAxis).

(** Modelled from the spec: a primary ray has "min=0 (implicit) and
    max=infinity (implicit default)"; a fresh hit record has the hit flag
    off. *)
Definition Ray_default : Ray :=
  Ray.mk (vec 0 0 0) (vec 0 0 0) F32.zero (S754_infinity false).

Definition HitRecord_default : HitRecord :=
  HitRecord.mk (vec 0 0 0) (vec 0 0 0) (S754_infinity false) false 0.

(** pi/180 in binary32. *)
Definition TO_RADIANS : float := S754_finite false 9370165 (-29).

(** The tangent of a finite angle, as the quotient of its sine and cosine
    rounded to the nearest binary32 value. Sine and cosine are the sums of
    the first forty terms of their Taylor series, in fixed point with 100
    fractional bits. *)
Definition fractionBits : Z := 100.

Definition toFixed (a : float) : option Z :=
  match a with
  | S754_zero _ => Some 0
  | S754_finite s m e => Some (cond_Zopp s (Z.shiftl (Z.pos m) (e + fractionBits)))
  | _ => None
  end.

(** The sum [acc] of a series after [n] more terms: the term after [term],
    whose power of the angle is [k], is [- term * x^2 / ((k + 1) (k + 2))]. *)
Fixpoint taylor (n : nat) (x2 k term acc : Z) : Z :=
  match n with
  | O => acc
  | S n =>
      let term := - (Z.shiftr (term * x2) fractionBits) / ((k + 1) * (k + 2)) in
      taylor n x2 (k + 2) term (acc + term)
  end.

Definition tan (a : float) : float :=
  match toFixed a with
  | Some x =>
      let x2 := Z.shiftr (x * x) fractionBits in
      let sine := taylor 40 x2 1 x x in
      let cosine := taylor 40 x2 0 (2 ^ fractionBits) (2 ^ fractionBits) in
      match a with
      | S754_zero _ => a
      | _ => binary_normalize F32.prec F32.emax
               (Z.shiftl sine 60 / cosine) (-60) false
      end
  | None => S754_nan
  end.

Definition math : MathLib :=
  Build_MathLib Axes TransformVector Dot Normalize Normalized add sub scale
                (vec 0 0 0) Ray_default HitRecord_default TO_RADIANS tan.

Record PinholeCamera : Type := mkCamera {
  origin : Vector3;
  fovAngle : float;
  cameraToWorld : Axes
}.

(** The sample camera does not turn: its axes are the world axes. *)
Definition CalculateCameraToWorld (c : PinholeCamera) : PinholeCamera :=
  mkCamera (origin c) (fovAngle c) (vec 1 0 0, vec 0 1 0, vec 0 0 1).

Definition camera : @CameraLib math :=
  @Build_CameraLib math PinholeCamera origin fovAngle cameraToWorld
                   CalculateCameraToWorld.

(** A point light: the direction to it is the difference of the positions,
    its radiance the color scaled by intensity over squared distance. *)
Record PointLight : Type := mkLight {
  Light_origin : Vector3;
  Light_color : ColorRGB;
  Light_intensity : float
}.

Definition GetDirectionToLight (light : PointLight) (point : Vector3) : Vector3 :=
  sub (Light_origin light) point.

Definition GetRadiance (light : PointLight) (point : Vector3) : ColorRGB :=
  let d := GetDirectionToLight light point in
  ColorRGB.scale (Light_color light) (F32.div (Light_intensity light) (Dot d d)).

Definition lightUtils : LightUtils :=
  Build_LightUtils PointLight GetDirectionToLight GetRadiance.

(** Pixels in the layout 0xAARRGGBB. *)
Definition sdl : SDL :=
  Build_SDL (fun r g b => 255 * 2 ^ 24 + r * 2 ^ 16 + g * 2 ^ 8 + b).

(** A horizontal plane: its height, the side its normal points to, and
    its material. *)
Record Plane : Type := mkPlane {
  Plane_height : float;
  Plane_faceUp : bool;
  Plane_material : nat
}.

(** The ray parameter at which the ray meets the plane, when it lies
    strictly inside the interval of the ray. *)
Definition hitPlane (p : Plane) (ray : Ray) : option float :=
  let dy := Vector3.y (Ray.direction ray) in
  let t := F32.div (F32.sub (Plane_height p) (Vector3.y (Ray.origin ray))) dy in
  if F32.ltb (Ray.min ray) t && F32.ltb t (Ray.max ray) then Some t else None.

Definition closestOf (ray : Ray) (p : Plane) (hit : HitRecord) : HitRecord :=
  match hitPlane p ray with
  | Some t =>
      if F32.ltb t (HitRecord.t hit)
      then HitRecord.mk (add (Ray.origin ray) (scale t (Ray.direction ray)))
                        (if Plane_faceUp p then vec 0 1 0 else vec 0 (-1) 0)
                        t true (Plane_material p)
      else hit
  | None => hit
  end.

Definition GetClosestHit (planes : list Plane) (ray : Ray) (hit : HitRecord)
    : HitRecord :=
  fold_left (fun h p => closestOf ray p h) planes hit.

Definition DoesHit (planes : list Plane) (ray : Ray) : bool :=
  existsb (fun p => match hitPlane p ray with Some _ => true | None => false end)
          planes.

(** A material that reflects the same color in all directions. *)
Definition matte (c : ColorRGB) : Material := mkMaterial (fun _ _ _ => c).

Definition grey : ColorRGB := ColorRGB.mk F32.half F32.half F32.half.
Definition white : ColorRGB := ColorRGB.mk F32.one F32.one F32.one.

(** A floor at height -1 facing up and, optionally, a ceiling at height 1
    facing down; one light between them and one above the ceiling. *)
Definition floor : Plane := mkPlane (F32.of_int (-1)) true 0.
Definition ceiling : Plane := mkPlane (F32.of_int 1) false 0.

Definition lamp : PointLight := mkLight (vec 0 0 3) white (F32.of_int 4).
Definition sun : PointLight := mkLight (vec 0 5 3) white (F32.of_int 50).

Definition scene (planes : list Plane) (lights : list PointLight)
    : @Scene math camera lightUtils :=
  @mkScene math camera lightUtils
           (mkCamera (vec 0 0 0) (F32.of_int 90)
                     (vec 1 0 0, vec 0 1 0, vec 0 0 1))
           [matte grey] lights (GetClosestHit planes) (DoesHit planes).

(** A surface point whose normal is (s, s, 0), with s the binary32 value
    nearest to the square root of 1/2, and a light almost in its tangent
    plane: the direction from the point to the light is
    (1.9073486328125, -1.90734875202179, 0). *)
Definition grazingHit : HitRecord :=
  HitRecord.mk (vec 0 0 0)
               (Vector3.mk (S754_finite false 11863283 (-24))
                           (S754_finite false 11863283 (-24)) F32.zero)
               F32.one true 0.

Definition grazingLight : PointLight :=
  mkLight (Vector3.mk (S754_finite false 16000000 (-23))
                      (S754_finite true 16000001 (-23)) F32.zero)
          white (F32.of_int 4).

(** A 4 by 2 window with a cleared surface. *)
Definition renderer (mode : LightingMode) (shadows : bool) : Renderer :=
  mkRenderer 4 2 (replicate 8 0) mode shadows.

(** The view ray through pixel (px, py) of that window, for the camera of
    [scene], a field-of-view tangent of 1 and the aspect ratio 2. *)
Definition pixelRay (px py : Z) : Ray :=
  @viewRayOf math camera (renderer Combined true) px py F32.one F32.two
             (mkCamera (vec 0 0 0) (F32.of_int 90)
                       (vec 1 0 0, vec 0 1 0, vec 0 0 1)).

(** What that ray hits first among the planes. *)
Definition hitOf (planes : list Plane) (px py : Z) : HitRecord :=
  GetClosestHit planes (pixelRay px py) HitRecord_default.

(** The light loop for the floor point seen through pixel (1, 1), run on
    the lamp alone: the state it ends in and the calls it makes. *)
Definition lampLoop : option (LoopState * list (Call PointLight)) :=
  @lightLoop math camera lightUtils (renderer Combined true)
             (scene [floor; ceiling] [lamp; sun]) (pixelRay 1 1)
             (hitOf [floor; ceiling] 1 1) [matte grey] [lamp]
             (@loopEntry math).

Definition afterLamp : LoopState :=
  Eval vm_compute in
    match lampLoop with
    | Some (st, _) => st
    | None => @loopEntry math
    end.

Definition lampCalls : list (Call PointLight) :=
  Eval vm_compute in
    match lampLoop with
    | Some (_, calls) => calls
    | None => []
    end.

(** A call of RenderPixel in the ObservedArea mode, for pixel 5 of the
    window and the scene of both planes and both lights: the renderer it
    returns and its log. *)
Definition observedRun : option (Renderer * list (Call PointLight)) :=
  @RenderPixel math camera lightUtils sdl (renderer ObservedArea true)
               (scene [floor; ceiling] [lamp; sun]) 5 F32.one F32.two
               (mkCamera (vec 0 0 0) (F32.of_int 90)
                         (vec 1 0 0, vec 0 1 0, vec 0 0 1))
               [lamp; sun] [matte grey].

Definition observedRenderer : Renderer :=
  Eval vm_compute in
    match observedRun with
    | Some (this', _) => this'
    | None => renderer ObservedArea true
    end.

Definition observedCalls : list (Call PointLight) :=
  Eval vm_compute in
    match observedRun with
    | Some (_, calls) => calls
    | None => []
    end.

(** The pixel array after a frame of that scene in the Combined mode,
    with shadows. *)
Definition frameBuffer : list Z :=
  [4279045389; 4284637794; 4284637794; 4279045389;
   4279045389; 4284637794; 4284637794; 4279045389].

End Sample.

(** ** Views used by the statements *)

Section Views.

Context `{CameraLib} `{LightUtils} `{SDL}.

(** The renderer with its [m_ShadowsEnabled] member set to [enabled]. *)
Definition withShadows (this : Renderer) (enabled : bool) : Renderer :=
  mkRenderer (m_Width this) (m_Height this) (m_pBufferPixels this)
             (m_CurrentLightingMode this) enabled.

(** The renderer with its [m_CurrentLightingMode] member set to [mode]. *)
Definition withMode (this : Renderer) (mode : LightingMode) : Renderer :=
  mkRenderer (m_Width this) (m_Height this) (m_pBufferPixels this)
             mode (m_ShadowsEnabled this).

(** The renderer with another pixel array. *)
Definition withBuffer (this : Renderer) (buffer : list Z) : Renderer :=
  mkRenderer (m_Width this) (m_Height this) buffer
             (m_CurrentLightingMode this) (m_ShadowsEnabled this).

(** The scene with other answers to the any-hit query. *)
Definition withDoesHit (pScene : Scene) (answers : Ray -> bool) : Scene :=
  mkScene (GetCamera pScene) (GetMaterials pScene) (GetLights pScene)
          (GetClosestHit pScene) answers.

(** The normalised direction from the hit point to the light: the value of
    [shadowDir] after line 156. *)
Definition directionTo (closestHit : HitRecord) (light : Light) : Vector3 :=
  snd (Normalize (GetDirectionToLight light (HitRecord.origin closestHit))).

(** The test of line 162 fails: the light is not behind the surface. *)
Definition frontFacing (closestHit : HitRecord) (light : Light) : bool :=
  negb (F32.ltb (Dot (HitRecord.normal closestHit) (directionTo closestHit light))
                (F32.of_int 0)).

(** The shadow ray of lines 148-158 for a light. *)
Definition shadowRayTo (closestHit : HitRecord) (light : Light) : Ray :=
  Ray.mk (Vector3_add (HitRecord.origin closestHit)
                      (Vector3_scale F32.c0_01 (directionTo closestHit light)))
         (directionTo closestHit light)
         F32.c0_01
         (fst (Normalize (GetDirectionToLight light (HitRecord.origin closestHit)))).

(** The view rays of the closest-hit queries of a log, in order. *)
Fixpoint closestHitCalls (calls : list (Call Light)) : list Ray :=
  match calls with
  | [] => []
  | Call_GetClosestHit viewRay :: rest => viewRay :: closestHitCalls rest
  | _ :: rest => closestHitCalls rest
  end.

(** The any-hit queries of a log, in order. *)
Fixpoint doesHitCalls (calls : list (Call Light)) : list Ray :=
  match calls with
  | [] => []
  | Call_DoesHit shadowRay :: rest => shadowRay :: doesHitCalls rest
  | _ :: rest => doesHitCalls rest
  end.

(** The direction arguments of the material evaluations of a log. *)
Fixpoint shadeCalls (calls : list (Call Light)) : list (Vector3 * Vector3) :=
  match calls with
  | [] => []
  | Call_Shade _ _ l v :: rest => (l, v) :: shadeCalls rest
  | _ :: rest => shadeCalls rest
  end.

(** The color a computation ends with. *)
Definition colorAfter (m : M LoopState) : option ColorRGB :=
  match m with
  | Some (st, _) => Some (finalColor st)
  | None => None
  end.

(** What a call of RenderPixel stores: the offset and the mapped pixel. It
    is read off RenderPixel, without the pixel array. *)
Definition pixelWrite (this : Renderer) (pScene : Scene) (fov aspectRatio : float)
    (camera : Camera) (lights : list Light) (materials : list Material)
    (pixelIndex : Z) : option (Z * Z) :=
  match pixel_px this pixelIndex, pixel_py this pixelIndex with
  | Some px, Some py =>
      match shadePixel this pScene (viewRayOf this px py fov aspectRatio camera)
                       lights materials with
      | Some (color, _) =>
          let finalColor := ColorRGB.MaxToOne color in
          match pixel_offset this px py,
                F32.to_uint8 (F32.mul (ColorRGB.r finalColor) (F32.of_int 255)),
                F32.to_uint8 (F32.mul (ColorRGB.g finalColor) (F32.of_int 255)),
                F32.to_uint8 (F32.mul (ColorRGB.b finalColor) (F32.of_int 255))
          with
          | Some offset, Some r8, Some g8, Some b8 =>
              Some (offset, SDL_MapRGB r8 g8 b8)
          | _, _, _, _ => None
          end
      | None => None
      end
  | _, _ => None
  end.

(** A sequence of stores into the pixel array; an undefined write makes
    the whole sequence undefined. *)
Fixpoint applyWrites (writes : list (option (Z * Z))) (buffer : list Z)
    : option (list Z) :=
  match writes with
  | [] => Some buffer
  | None :: _ => None
  | Some (offset, value) :: rest =>
      match store buffer offset value with
      | Some buffer' => applyWrites rest buffer'
      | None => None
      end
  end.

(** The offsets of the defined writes of a sequence. *)
Definition offsets (writes : list (option (Z * Z))) : list Z :=
  omap (fun write => option_map fst write) writes.

(** The window has a positive size that fits [int], and the surface has
    one pixel per index. *)
Definition validFrame (this : Renderer) : Prop :=
  0 < m_Width this /\ 0 < m_Height this /\
  m_Width this * m_Height this <= INT_MAX /\
  Z.of_nat (length (m_pBufferPixels this)) = m_Width this * m_Height this.

(** The tests of lines 162 and 165 let the light through: it is not
    culled, and it is not skipped by the shadow test. *)
Definition contributes (this : Renderer) (pScene : Scene)
    (closestHit : HitRecord) (light : Light) : bool :=
  frontFacing closestHit light
  && negb (DoesHit pScene (shadowRayTo closestHit light)
           && m_ShadowsEnabled this).

(** What lines 168-188 make of the color for a light that is let
    through. *)
Definition contribution (this : Renderer) (viewRay : Ray)
    (closestHit : HitRecord) (material : Material) (light : Light)
    (color : ColorRGB) : ColorRGB :=
  accumulate (m_CurrentLightingMode this) closestHit
             (directionTo closestHit light)
             (GetRadiance light (HitRecord.origin closestHit))
             (Shade material closestHit
                    (Normalized (directionTo closestHit light))
                    (Normalized (Ray.direction viewRay)))
             color.

(** The calls one iteration of the light loop makes, in order. *)
Definition iterationCalls (this : Renderer) (pScene : Scene) (viewRay : Ray)
    (closestHit : HitRecord) (light : Light) : list (Call Light) :=
  Call_GetDirectionToLight light (HitRecord.origin closestHit)
  :: (if frontFacing closestHit light
      then Call_DoesHit (shadowRayTo closestHit light)
           :: (if contributes this pScene closestHit light
               then [Call_GetRadiance light (HitRecord.origin closestHit);
                     Call_Shade (HitRecord.materialIndex closestHit) closestHit
                                (Normalized (directionTo closestHit light))
                                (Normalized (Ray.direction viewRay))]
               else [])
      else []).

(** The arguments [Render] passes to every call of RenderPixel (lines
    39-48): the scene with its camera updated, the tangent of half the
    field of view, and the aspect ratio. *)
Definition frameScene (pScene : Scene) : Scene :=
  mkScene (CalculateCameraToWorld (GetCamera pScene)) (GetMaterials pScene)
          (GetLights pScene) (GetClosestHit pScene) (DoesHit pScene).

Definition frameFov (pScene : Scene) : float :=
  tan (F32.div (F32.mul (Camera_fovAngle (CalculateCameraToWorld
                                            (GetCamera pScene)))
                        TO_RADIANS)
               F32.two).

Definition frameAspectRatio (this : Renderer) : float :=
  F32.div (F32.of_int (m_Width this)) (F32.of_int (m_Height this)).

(** The pixel a frame stores at an index. *)
Definition framePixel (this : Renderer) (pScene : Scene) (pixelIndex : Z)
    : option (Z * Z) :=
  pixelWrite this (frameScene pScene) (frameFov pScene) (frameAspectRatio this)
             (CalculateCameraToWorld (GetCamera pScene))
             (GetLights pScene) (GetMaterials pScene) pixelIndex.

(** The three channels of a color are the same value. *)
Definition isGrey (color : ColorRGB) : Prop :=
  ColorRGB.r color = ColorRGB.g color /\ ColorRGB.g color = ColorRGB.b color.

End Views.

(** ** Properties *)

Section Properties.

Context `{CameraLib} `{LightUtils} `{SDL}.

(** *** The monad *)

Lemma bind_Some {A B : Type} (m : M A) (f : A -> M B) (b : B) (calls : list (Call Light)) :
  bind m f = Some (b, calls) <->
  exists a calls1 calls2,
    m = Some (a, calls1) /\ f a = Some (b, calls2) /\ calls = calls1 ++ calls2.
Proof.
  unfold bind. split.
  - destruct m as [[a calls1]|]; [|discriminate].
    destruct (f a) as [[b' calls2]|] eqn:Hf; [|discriminate].
    intros [= <- <-]. exists a, calls1, calls2. auto.
  - intros (a & calls1 & calls2 & -> & Hf & ->). now rewrite Hf.
Qed.

Lemma bind_None {A B : Type} (m : M A) (f : A -> M B) :
  bind m f = None <->
  m = None \/ exists a calls1, m = Some (a, calls1) /\ f a = None.
Proof.
  unfold bind. split.
  - destruct m as [[a calls1]|]; [|auto].
    destruct (f a) as [[b' calls2]|] eqn:Hf; [discriminate|].
    intros _. right. eauto.
  - intros [-> | (a & calls1 & -> & ->)]; reflexivity.
Qed.

Lemma bind_ret_l {A B : Type} (a : A) (f : A -> M B) : bind (ret a) f = f a.
Proof. unfold bind, ret. destruct (f a) as [[b calls]|]; reflexivity. Qed.

Lemma bind_Some_l {A B : Type} (a : A) (calls : list (Call Light)) (f : A -> M B) :
  bind (Some (a, calls)) f
  = match f a with
    | Some (b, calls') => Some (b, calls ++ calls')
    | None => None
    end.
Proof. reflexivity. Qed.

Lemma defined_Some {A : Type} (o : option A) (a : A) (calls : list (Call Light)) :
  defined o = Some (a, calls) <-> o = Some a /\ calls = [].
Proof.
  unfold defined, ret. destruct o; split.
  - intros [= -> <-]. auto.
  - intros [[= ->] ->]. reflexivity.
  - discriminate.
  - intros [[=] _].
Qed.

(** *** RenderPixel writes the pixel array and nothing else *)

Lemma RenderPixel_frame this pScene pixelIndex fov aspectRatio camera lights
    materials this' calls :
  RenderPixel this pScene pixelIndex fov aspectRatio camera lights materials
    = Some (this', calls) ->
  this' = withBuffer this (m_pBufferPixels this').
Proof.
  unfold RenderPixel. intros Hrun.
  repeat (apply bind_Some in Hrun; destruct Hrun as (? & ? & ? & _ & Hrun & _)).
  unfold ret in Hrun. injection Hrun as <- _. reflexivity.
Qed.

Lemma renderPixels_frame pScene fov aspectRatio camera lights materials indices :
  forall this this' calls,
    renderPixels pScene fov aspectRatio camera lights materials indices this
      = Some (this', calls) ->
    this' = withBuffer this (m_pBufferPixels this').
Proof.
  induction indices as [|pixelIndex rest IH]; intros this this' calls Hrun.
  - injection Hrun as <- _. now destruct this.
  - cbn [renderPixels] in Hrun. apply bind_Some in Hrun.
    destruct Hrun as (mid & calls1 & calls2 & Hpixel & Hrest & _).
    apply RenderPixel_frame in Hpixel. apply IH in Hrest.
    rewrite Hrest, Hpixel. reflexivity.
Qed.

(** *** The lighting mode *)

(** C9: CycleLightingMode steps ObservedArea, Radiance, BRDF, Combined and
    back to ObservedArea; four applications restore the starting mode and
    fewer do not; it changes no other member; and RenderPixel, Render and
    SaveBufferToImage leave the mode as it is. *)
Theorem CycleLightingMode_cycle (this : Renderer) :
  (forall mode,
      m_CurrentLightingMode (CycleLightingMode (withMode this mode)) =
      match mode with
      | ObservedArea => Radiance
      | Radiance => BRDF
      | BRDF => Combined
      | Combined => ObservedArea
      end) /\
  CycleLightingMode (CycleLightingMode (CycleLightingMode
    (CycleLightingMode this))) = this /\
  CycleLightingMode this <> this /\
  CycleLightingMode (CycleLightingMode this) <> this /\
  CycleLightingMode (CycleLightingMode (CycleLightingMode this)) <> this /\
  withMode (CycleLightingMode this) (m_CurrentLightingMode this) = this /\
  (forall pScene pixelIndex fov aspectRatio camera lights materials this' calls,
      RenderPixel this pScene pixelIndex fov aspectRatio camera lights
                  materials = Some (this', calls) ->
      m_CurrentLightingMode this' = m_CurrentLightingMode this) /\
  (forall strategy env pScene this' pScene',
      Render strategy env this pScene = Some (this', pScene') ->
      m_CurrentLightingMode this' = m_CurrentLightingMode this) /\
  (forall SDL_SaveBMP, snd (SaveBufferToImage SDL_SaveBMP this) = this).
Proof.
  destruct this as [w h buffer mode shadows].
  split; [intros []; reflexivity|].
  split; [destruct mode; reflexivity|].
  split; [destruct mode; discriminate|].
  split; [destruct mode; discriminate|].
  split; [destruct mode; discriminate|].
  split; [destruct mode; reflexivity|].
  split; [|split].
  - intros * Hrun. apply RenderPixel_frame in Hrun. now rewrite Hrun.
  - intros * Hrun. unfold Render in Hrun.
    destruct (numPixelsOf _); [|discriminate].
    destruct (schedule _ _ _); [|discriminate].
    destruct (renderPixels _ _ _ _ _ _ _ _) as [[r calls]|] eqn:Hpixels;
      [|discriminate].
    injection Hrun as <- _.
    apply renderPixels_frame in Hpixels. now rewrite Hpixels.
  - reflexivity.
Qed.

(** *** One iteration of the light loop *)

Lemma aimShadowRay_shadowDir closestHit light st :
  shadowDir (aimShadowRay closestHit
               (GetDirectionToLight light (HitRecord.origin closestHit)) st)
  = directionTo closestHit light.
Proof. reflexivity. Qed.

Lemma aimShadowRay_finalColor closestHit toLight st :
  finalColor (aimShadowRay closestHit toLight st) = finalColor st.
Proof. reflexivity. Qed.

Lemma aimShadowRay_min closestHit toLight st :
  Ray.min (shadowRay (aimShadowRay closestHit toLight st))
  = Ray.min (shadowRay st).
Proof. reflexivity. Qed.

Lemma aimShadowRay_shadowRay closestHit light st :
  Ray.min (shadowRay st) = F32.c0_01 ->
  shadowRay (aimShadowRay closestHit
               (GetDirectionToLight light (HitRecord.origin closestHit)) st)
  = shadowRayTo closestHit light.
Proof. intros Hmin. unfold aimShadowRay, shadowRayTo. cbn. now rewrite Hmin. Qed.

(** The state on entry matters through the lower bound of the shadow ray
    and the color only: lines 155-158 overwrite the rest. *)
Lemma aimShadowRay_ext closestHit toLight st1 st2 :
  Ray.min (shadowRay st1) = Ray.min (shadowRay st2) ->
  finalColor st1 = finalColor st2 ->
  aimShadowRay closestHit toLight st1 = aimShadowRay closestHit toLight st2.
Proof. intros Hmin Hcolor. unfold aimShadowRay. now rewrite Hmin, Hcolor. Qed.

Lemma lightIteration_ext this pScene viewRay closestHit materials light st1 st2 :
  Ray.min (shadowRay st1) = Ray.min (shadowRay st2) ->
  finalColor st1 = finalColor st2 ->
  lightIteration this pScene viewRay closestHit materials light st1
  = lightIteration this pScene viewRay closestHit materials light st2.
Proof.
  intros Hmin Hcolor. unfold lightIteration, bind, call.
  now rewrite (aimShadowRay_ext closestHit _ st1 st2 Hmin Hcolor).
Qed.

(** Line 163: the first [continue]. *)
Lemma lightIteration_culled this pScene viewRay closestHit materials light st :
  frontFacing closestHit light = false ->
  lightIteration this pScene viewRay closestHit materials light st
  = Some (aimShadowRay closestHit
            (GetDirectionToLight light (HitRecord.origin closestHit)) st,
          [Call_GetDirectionToLight light (HitRecord.origin closestHit)]).
Proof.
  unfold frontFacing. intros Hback%negb_false_iff.
  unfold lightIteration, bind, call.
  rewrite aimShadowRay_shadowDir, Hback. reflexivity.
Qed.

(** Line 166: the second [continue]. *)
Lemma lightIteration_shadowed this pScene viewRay closestHit materials light st :
  let st' := aimShadowRay closestHit
               (GetDirectionToLight light (HitRecord.origin closestHit)) st in
  frontFacing closestHit light = true ->
  DoesHit pScene (shadowRay st') && m_ShadowsEnabled this = true ->
  lightIteration this pScene viewRay closestHit materials light st
  = Some (st', [Call_GetDirectionToLight light (HitRecord.origin closestHit);
                Call_DoesHit (shadowRay st')]).
Proof.
  intros st'. unfold frontFacing. intros Hfront%negb_true_iff Hskip.
  unfold lightIteration, bind, call.
  rewrite aimShadowRay_shadowDir, Hfront. fold st'. rewrite Hskip. reflexivity.
Qed.

(** Lines 168-188: the light is evaluated and accumulated. *)
Lemma lightIteration_lit this pScene viewRay closestHit materials light st material :
  let st' := aimShadowRay closestHit
               (GetDirectionToLight light (HitRecord.origin closestHit)) st in
  let l := Normalized (directionTo closestHit light) in
  let v := Normalized (Ray.direction viewRay) in
  frontFacing closestHit light = true ->
  DoesHit pScene (shadowRay st') && m_ShadowsEnabled this = false ->
  materials !! HitRecord.materialIndex closestHit = Some material ->
  lightIteration this pScene viewRay closestHit materials light st
  = Some (mkLoopState (shadowRay st') (directionTo closestHit light)
            (accumulate (m_CurrentLightingMode this) closestHit
               (directionTo closestHit light)
               (GetRadiance light (HitRecord.origin closestHit))
               (Shade material closestHit l v)
               (finalColor st)),
          [Call_GetDirectionToLight light (HitRecord.origin closestHit);
           Call_DoesHit (shadowRay st');
           Call_GetRadiance light (HitRecord.origin closestHit);
           Call_Shade (HitRecord.materialIndex closestHit) closestHit l v]).
Proof.
  intros st' l v. unfold frontFacing. intros Hfront%negb_true_iff Hlit Hmat.
  unfold lightIteration, bind, call, materials_at, defined, ret.
  rewrite aimShadowRay_shadowDir, Hfront. fold st'. rewrite Hlit, Hmat.
  reflexivity.
Qed.

(** [materials[closestHit.materialIndex]] past the end of the vector. *)
Lemma lightIteration_undefined this pScene viewRay closestHit materials light st :
  let st' := aimShadowRay closestHit
               (GetDirectionToLight light (HitRecord.origin closestHit)) st in
  frontFacing closestHit light = true ->
  DoesHit pScene (shadowRay st') && m_ShadowsEnabled this = false ->
  materials !! HitRecord.materialIndex closestHit = None ->
  lightIteration this pScene viewRay closestHit materials light st = None.
Proof.
  intros st'. unfold frontFacing. intros Hfront%negb_true_iff Hlit Hmat.
  unfold lightIteration, bind, call, materials_at, defined, ret.
  rewrite aimShadowRay_shadowDir, Hfront. fold st'. rewrite Hlit, Hmat.
  reflexivity.
Qed.

(** An iteration keeps the lower bound of the shadow ray (line 149 is the
    only assignment to it). *)
Lemma lightIteration_min this pScene viewRay closestHit materials light st st' calls :
  lightIteration this pScene viewRay closestHit materials light st
    = Some (st', calls) ->
  Ray.min (shadowRay st') = Ray.min (shadowRay st).
Proof.
  destruct (frontFacing closestHit light) eqn:Hfront.
  - destruct (DoesHit pScene
                (shadowRay (aimShadowRay closestHit
                   (GetDirectionToLight light (HitRecord.origin closestHit)) st))
              && m_ShadowsEnabled this) eqn:Hskip.
    + rewrite lightIteration_shadowed by assumption. now intros [= <- _].
    + destruct (materials !! HitRecord.materialIndex closestHit) eqn:Hmat.
      * erewrite lightIteration_lit by eassumption. now intros [= <- _].
      * rewrite lightIteration_undefined by assumption. discriminate.
  - rewrite lightIteration_culled by assumption. now intros [= <- _].
Qed.

Lemma lightLoop_app this pScene viewRay closestHit materials before after st :
  lightLoop this pScene viewRay closestHit materials (before ++ after) st
  = bind (lightLoop this pScene viewRay closestHit materials before st)
         (lightLoop this pScene viewRay closestHit materials after).
Proof.
  revert st. induction before as [|light before IH]; intros st.
  - cbn [app lightLoop]. now rewrite bind_ret_l.
  - cbn [app lightLoop].
    destruct (lightIteration this pScene viewRay closestHit materials light st)
      as [[st' calls]|]; [|reflexivity].
    unfold bind at 1 3. rewrite IH. unfold bind.
    destruct (lightLoop _ _ _ _ _ before st') as [[st'' calls']|]; [|reflexivity].
    destruct (lightLoop _ _ _ _ _ after st'') as [[st3 calls3]|]; [|reflexivity].
    now rewrite app_assoc.
Qed.

Lemma lightLoop_min this pScene viewRay closestHit materials lights :
  forall st st' calls,
    lightLoop this pScene viewRay closestHit materials lights st
      = Some (st', calls) ->
    Ray.min (shadowRay st') = Ray.min (shadowRay st).
Proof.
  induction lights as [|light rest IH]; intros st st' calls Hrun.
  - now injection Hrun as <- _.
  - cbn [lightLoop] in Hrun. apply bind_Some in Hrun.
    destruct Hrun as (mid & calls1 & calls2 & Hiter & Hrest & _).
    apply lightIteration_min in Hiter. apply IH in Hrest. congruence.
Qed.

(** *** The calls made by the light loop *)

Lemma doesHitCalls_app calls1 calls2 :
  doesHitCalls (calls1 ++ calls2) = doesHitCalls calls1 ++ doesHitCalls calls2.
Proof.
  induction calls1 as [|[] calls1 IH]; cbn; rewrite ?IH; reflexivity.
Qed.

Lemma shadeCalls_app calls1 calls2 :
  shadeCalls (calls1 ++ calls2) = shadeCalls calls1 ++ shadeCalls calls2.
Proof.
  induction calls1 as [|[] calls1 IH]; cbn; rewrite ?IH; reflexivity.
Qed.

(** The three ways through an iteration that returns. *)
Lemma lightIteration_cases this pScene viewRay closestHit materials light st st' calls :
  lightIteration this pScene viewRay closestHit materials light st
    = Some (st', calls) ->
  let aimed := aimShadowRay closestHit
                 (GetDirectionToLight light (HitRecord.origin closestHit)) st in
  (frontFacing closestHit light = false /\
   calls = [Call_GetDirectionToLight light (HitRecord.origin closestHit)]) \/
  (frontFacing closestHit light = true /\
   calls = [Call_GetDirectionToLight light (HitRecord.origin closestHit);
            Call_DoesHit (shadowRay aimed)]) \/
  (frontFacing closestHit light = true /\
   calls = [Call_GetDirectionToLight light (HitRecord.origin closestHit);
            Call_DoesHit (shadowRay aimed);
            Call_GetRadiance light (HitRecord.origin closestHit);
            Call_Shade (HitRecord.materialIndex closestHit) closestHit
              (Normalized (directionTo closestHit light))
              (Normalized (Ray.direction viewRay))]).
Proof.
  intros Hrun aimed. destruct (frontFacing closestHit light) eqn:Hfront.
  - destruct (DoesHit pScene (shadowRay aimed) && m_ShadowsEnabled this) eqn:Hskip.
    + rewrite lightIteration_shadowed in Hrun by assumption.
      injection Hrun as _ <-. auto.
    + destruct (materials !! HitRecord.materialIndex closestHit) eqn:Hmat.
      * erewrite lightIteration_lit in Hrun by eassumption.
        injection Hrun as _ <-. auto.
      * rewrite lightIteration_undefined in Hrun by assumption. discriminate.
  - rewrite lightIteration_culled in Hrun by assumption.
    injection Hrun as _ <-. auto.
Qed.

(** The any-hit query is made once for every light that is not culled, with
    the shadow ray of that light. *)
Lemma lightLoop_doesHitCalls this pScene viewRay closestHit materials lights :
  forall st st' calls,
    Ray.min (shadowRay st) = F32.c0_01 ->
    lightLoop this pScene viewRay closestHit materials lights st
      = Some (st', calls) ->
    doesHitCalls calls
    = map (shadowRayTo closestHit)
          (List.filter (frontFacing closestHit) lights).
Proof.
  induction lights as [|light rest IH]; intros st st' calls Hmin Hrun.
  - now injection Hrun as _ <-.
  - cbn [lightLoop] in Hrun. apply bind_Some in Hrun.
    destruct Hrun as (mid & calls1 & calls2 & Hiter & Hrest & ->).
    rewrite doesHitCalls_app.
    assert (Hmid : Ray.min (shadowRay mid) = F32.c0_01)
      by (apply lightIteration_min in Hiter; congruence).
    rewrite (IH _ _ _ Hmid Hrest). cbn [List.filter].
    apply lightIteration_cases in Hiter.
    rewrite (aimShadowRay_shadowRay _ _ _ Hmin) in Hiter.
    destruct Hiter as [[-> ->] | [[-> ->] | [-> ->]]]; reflexivity.
Qed.

(** Every evaluation of a material in the loop receives the normalised
    direction to one of the lights and the normalised direction of the view
    ray. *)
Lemma lightLoop_shadeCalls this pScene viewRay closestHit materials lights :
  forall st st' calls,
    lightLoop this pScene viewRay closestHit materials lights st
      = Some (st', calls) ->
    Forall (fun lv =>
              (exists light, In light lights /\
                 fst lv = Normalized (directionTo closestHit light)) /\
              snd lv = Normalized (Ray.direction viewRay))
           (shadeCalls calls).
Proof.
  induction lights as [|light rest IH]; intros st st' calls Hrun.
  - injection Hrun as _ <-. constructor.
  - cbn [lightLoop] in Hrun. apply bind_Some in Hrun.
    destruct Hrun as (mid & calls1 & calls2 & Hiter & Hrest & ->).
    rewrite shadeCalls_app. apply Forall_app. split.
    + apply lightIteration_cases in Hiter.
      destruct Hiter as [[_ ->] | [[_ ->] | [_ ->]]]; cbn; constructor;
        [|constructor].
      cbn. split; [|reflexivity]. exists light. split; [now left|reflexivity].
    + apply IH in Hrest. revert Hrest. apply List.Forall_impl.
      intros lv [(light' & Hin & Hl) Hv]. split; [|assumption].
      exists light'. split; [now right|assumption].
Qed.

(** *** The structure of a pixel *)

Lemma shadePixel_miss this pScene viewRay lights materials :
  HitRecord.didHit (GetClosestHit pScene viewRay HitRecord_default) = false ->
  shadePixel this pScene viewRay lights materials
  = Some (ColorRGB.zero, [Call_GetClosestHit viewRay]).
Proof. intros Hmiss. unfold shadePixel, bind, call. now rewrite Hmiss. Qed.

Lemma shadePixel_hit this pScene viewRay lights materials :
  HitRecord.didHit (GetClosestHit pScene viewRay HitRecord_default) = true ->
  shadePixel this pScene viewRay lights materials
  = match lightLoop this pScene viewRay
            (GetClosestHit pScene viewRay HitRecord_default)
            materials lights loopEntry with
    | Some (st, calls) => Some (finalColor st, Call_GetClosestHit viewRay :: calls)
    | None => None
    end.
Proof.
  intros Hhit. unfold shadePixel, bind, call, ret. rewrite Hhit.
  destruct (lightLoop _ _ _ _ _ _ _) as [[st calls]|]; [|reflexivity].
  now rewrite app_nil_r.
Qed.

Lemma RenderPixel_inv this pScene pixelIndex fov aspectRatio camera lights
    materials this' calls :
  RenderPixel this pScene pixelIndex fov aspectRatio camera lights materials
    = Some (this', calls) ->
  exists px py color offset r8 g8 b8 buffer,
    pixel_px this pixelIndex = Some px /\
    pixel_py this pixelIndex = Some py /\
    shadePixel this pScene (viewRayOf this px py fov aspectRatio camera)
               lights materials = Some (color, calls) /\
    pixel_offset this px py = Some offset /\
    F32.to_uint8 (F32.mul (ColorRGB.r (ColorRGB.MaxToOne color)) (F32.of_int 255))
      = Some r8 /\
    F32.to_uint8 (F32.mul (ColorRGB.g (ColorRGB.MaxToOne color)) (F32.of_int 255))
      = Some g8 /\
    F32.to_uint8 (F32.mul (ColorRGB.b (ColorRGB.MaxToOne color)) (F32.of_int 255))
      = Some b8 /\
    store (m_pBufferPixels this) offset (SDL_MapRGB r8 g8 b8) = Some buffer /\
    this' = withBuffer this buffer.
Proof.
  unfold RenderPixel. intros Hrun.
  apply bind_Some in Hrun. destruct Hrun as (px & ? & ? & [Hpx ->]%defined_Some & Hrun & ->).
  apply bind_Some in Hrun. destruct Hrun as (py & ? & ? & [Hpy ->]%defined_Some & Hrun & ->).
  apply bind_Some in Hrun. destruct Hrun as (color & calls1 & ? & Hshade & Hrun & ->).
  apply bind_Some in Hrun. destruct Hrun as (offset & ? & ? & [Hoff ->]%defined_Some & Hrun & ->).
  apply bind_Some in Hrun. destruct Hrun as (r8 & ? & ? & [Hr ->]%defined_Some & Hrun & ->).
  apply bind_Some in Hrun. destruct Hrun as (g8 & ? & ? & [Hg ->]%defined_Some & Hrun & ->).
  apply bind_Some in Hrun. destruct Hrun as (b8 & ? & ? & [Hb ->]%defined_Some & Hrun & ->).
  apply bind_Some in Hrun. destruct Hrun as (buffer & ? & ? & [Hstore ->]%defined_Some & Hrun & ->).
  injection Hrun as <- <-. cbn [app]. rewrite app_nil_r.
  exists px, py, color, offset, r8, g8, b8, buffer. auto 10.
Qed.

(** *** The material evaluation *)

(** C1 (as the code has it): a light that passes the culling test of line
    162 and the shadow test of line 165 has the material's Shade invoked
    exactly once, with the normalised light direction and the normalised
    direction of the view ray, which is not negated; and every Shade call
    of a rendered pixel carries the normalised direction to one of the
    lights and the normalised direction of that pixel's view ray. *)
Theorem Shade_direction_arguments this pScene viewRay closestHit materials
    light st material :
  frontFacing closestHit light = true ->
  DoesHit pScene
    (shadowRay (aimShadowRay closestHit
                  (GetDirectionToLight light (HitRecord.origin closestHit)) st))
    && m_ShadowsEnabled this = false ->
  materials !! HitRecord.materialIndex closestHit = Some material ->
  (exists st' calls,
      lightIteration this pScene viewRay closestHit materials light st
        = Some (st', calls) /\
      shadeCalls calls
      = [(Normalized (directionTo closestHit light),
          Normalized (Ray.direction viewRay))] /\
      In (Call_Shade (HitRecord.materialIndex closestHit) closestHit
            (Normalized (directionTo closestHit light))
            (Normalized (Ray.direction viewRay))) calls) /\
  (forall pixelIndex fov aspectRatio camera lights px py this' calls,
      pixel_px this pixelIndex = Some px ->
      pixel_py this pixelIndex = Some py ->
      RenderPixel this pScene pixelIndex fov aspectRatio camera lights materials
        = Some (this', calls) ->
      let pixelRay := viewRayOf this px py fov aspectRatio camera in
      Forall (fun lv =>
                (exists light', In light' lights /\
                   fst lv = Normalized
                              (directionTo
                                 (GetClosestHit pScene pixelRay HitRecord_default)
                                 light')) /\
                snd lv = Normalized (Ray.direction pixelRay))
             (shadeCalls calls)).
Proof.
  intros Hfront Hlit Hmat. split.
  - eexists _, _. split; [eapply lightIteration_lit; eassumption|].
    split; [reflexivity|]. cbn. auto.
  - intros * Hpx Hpy Hrun pixelRay.
    apply RenderPixel_inv in Hrun.
    destruct Hrun as (px' & py' & color & offset & r8 & g8 & b8 & buffer
                      & Hpx' & Hpy' & Hshade & _).
    assert (px' = px) as -> by congruence.
    assert (py' = py) as -> by congruence.
    fold pixelRay in Hshade.
    destruct (HitRecord.didHit (GetClosestHit pScene pixelRay HitRecord_default))
      eqn:Hhit.
    + rewrite shadePixel_hit in Hshade by assumption.
      destruct (lightLoop _ _ _ _ _ _ _) as [[st' calls']|] eqn:Hloop;
        [|discriminate].
      injection Hshade as _ <-. cbn [shadeCalls].
      eapply lightLoop_shadeCalls. eassumption.
    + rewrite shadePixel_miss in Hshade by assumption.
      injection Hshade as _ <-. constructor.
Qed.

(** A light that is evaluated has no Shade call with another view
    argument. *)
Lemma lightIteration_shade_view this pScene viewRay closestHit materials light
    st material v :
  frontFacing closestHit light = true ->
  DoesHit pScene
    (shadowRay (aimShadowRay closestHit
                  (GetDirectionToLight light (HitRecord.origin closestHit)) st))
    && m_ShadowsEnabled this = false ->
  materials !! HitRecord.materialIndex closestHit = Some material ->
  Normalized (Ray.direction viewRay) <> v ->
  ~ (exists st' calls,
        lightIteration this pScene viewRay closestHit materials light st
          = Some (st', calls) /\
        shadeCalls calls = [(Normalized (directionTo closestHit light), v)]).
Proof.
  intros Hfront Hlit Hmat Hne (st' & calls & Hrun & Hcalls).
  erewrite lightIteration_lit in Hrun by eassumption.
  injection Hrun as _ <-. cbn [shadeCalls] in Hcalls.
  injection Hcalls as Hview. contradiction.
Qed.

(** *** Culling of lights behind the surface *)

Lemma colorAfter_bind_ext (m : M LoopState) (f g : LoopState -> M LoopState) :
  (forall st, colorAfter (f st) = colorAfter (g st)) ->
  colorAfter (bind m f) = colorAfter (bind m g).
Proof.
  intros Hfg. destruct m as [[st calls]|]; [|reflexivity]. unfold bind.
  specialize (Hfg st).
  destruct (f st) as [[st1 calls1]|], (g st) as [[st2 calls2]|]; cbn in *;
    congruence.
Qed.

Lemma lightLoop_skip_culled this pScene viewRay closestHit materials light after st :
  frontFacing closestHit light = false ->
  colorAfter (lightLoop this pScene viewRay closestHit materials
                        (light :: after) st)
  = colorAfter (lightLoop this pScene viewRay closestHit materials after st).
Proof.
  intros Hback. cbn [lightLoop].
  rewrite lightIteration_culled by assumption.
  set (aimed := aimShadowRay closestHit _ st).
  rewrite bind_Some_l.
  destruct after as [|next after].
  - reflexivity.
  - cbn [lightLoop].
    rewrite (lightIteration_ext _ _ _ _ _ next aimed st) by reflexivity.
    destruct (bind _ _) as [[st1 calls1]|]; reflexivity.
Qed.

(** The test of line 162 passed, the shadow test passed and the material
    present: the iteration does not end at the first [continue]. *)
Lemma lightIteration_not_skipped this pScene viewRay closestHit materials light
    st material :
  frontFacing closestHit light = true ->
  DoesHit pScene
          (shadowRay (aimShadowRay closestHit
                        (GetDirectionToLight light (HitRecord.origin closestHit))
                        st))
    && m_ShadowsEnabled this = false ->
  materials !! HitRecord.materialIndex closestHit = Some material ->
  ~ (exists st',
        lightIteration this pScene viewRay closestHit materials light st
        = Some (st', [Call_GetDirectionToLight light
                        (HitRecord.origin closestHit)]) /\
        finalColor st' = finalColor st).
Proof.
  intros Hfront Hlit Hmat (st' & Hrun & _).
  rewrite (lightIteration_lit _ _ _ _ _ _ _ _ Hfront Hlit Hmat) in Hrun.
  discriminate Hrun.
Qed.

(** C3, for the direction the code tests: line 156 normalizes [shadowDir]
    in place, so the dot product of line 162 is that of the surface normal
    and the normalized direction to the light. When it is negative, the
    iteration for that light ends at the first [continue]: it makes no
    any-hit query, no radiance query and no Shade call, and leaves the
    color as it was, whatever the lighting mode and the shadow setting; the
    pixel color of the whole loop is the one obtained without that
    light. *)
Theorem backface_light_contributes_nothing this pScene viewRay closestHit
    materials light :
  F32.ltb (Dot (HitRecord.normal closestHit) (directionTo closestHit light))
          (F32.of_int 0) = true ->
  forall mode shadows,
    let this' := withShadows (withMode this mode) shadows in
    (forall st,
        exists st',
          lightIteration this' pScene viewRay closestHit materials light st
          = Some (st', [Call_GetDirectionToLight light
                          (HitRecord.origin closestHit)]) /\
          finalColor st' = finalColor st) /\
    (forall before after st,
        colorAfter (lightLoop this' pScene viewRay closestHit materials
                              (before ++ light :: after) st)
        = colorAfter (lightLoop this' pScene viewRay closestHit materials
                                (before ++ after) st)).
Proof.
  intros Hneg mode shadows this'.
  assert (Hback : frontFacing closestHit light = false)
    by (unfold frontFacing; now rewrite Hneg).
  split.
  - intros st. eexists. split; [now apply lightIteration_culled|reflexivity].
  - intros before after st. rewrite !lightLoop_app.
    apply colorAfter_bind_ext. intros st0.
    now apply lightLoop_skip_culled.
Qed.

(** *** The shadow test *)

(** C4: for a light that is not culled and whose shadow ray the any-hit
    query reports as blocked: with shadows enabled the iteration ends at
    the second [continue] and the color is unchanged; with shadows disabled
    the same light is evaluated and accumulated according to the lighting
    mode. *)
Theorem shadow_test_gates_contribution this pScene viewRay closestHit materials
    light st material :
  let aimed := aimShadowRay closestHit
                 (GetDirectionToLight light (HitRecord.origin closestHit)) st in
  frontFacing closestHit light = true ->
  DoesHit pScene (shadowRay aimed) = true ->
  materials !! HitRecord.materialIndex closestHit = Some material ->
  lightIteration (withShadows this true) pScene viewRay closestHit materials
                 light st
  = Some (aimed, [Call_GetDirectionToLight light (HitRecord.origin closestHit);
                  Call_DoesHit (shadowRay aimed)]) /\
  finalColor aimed = finalColor st /\
  exists calls,
    lightIteration (withShadows this false) pScene viewRay closestHit materials
                   light st
    = Some (mkLoopState (shadowRay aimed) (shadowDir aimed)
              (accumulate (m_CurrentLightingMode this) closestHit
                 (directionTo closestHit light)
                 (GetRadiance light (HitRecord.origin closestHit))
                 (Shade material closestHit
                    (Normalized (directionTo closestHit light))
                    (Normalized (Ray.direction viewRay)))
                 (finalColor st)),
            calls) /\
    doesHitCalls calls = [shadowRay aimed].
Proof.
  intros aimed Hfront Hocc Hmat. split; [|split].
  - apply lightIteration_shadowed; [assumption|].
    fold aimed. now rewrite Hocc.
  - reflexivity.
  - eexists. split.
    + erewrite lightIteration_lit;
        [reflexivity|assumption|apply andb_false_r|eassumption].
    + reflexivity.
Qed.

(** *** The Combined lighting mode *)

(** C5: in the Combined mode a light that is neither culled nor skipped by
    the shadow test adds to the color the componentwise product of the
    radiance E and the Shade result, scaled by the dot product of the
    surface normal and the normalised light direction. *)
Theorem Combined_adds_E_BRDF_cosTheta this pScene viewRay closestHit materials
    light st material :
  let aimed := aimShadowRay closestHit
                 (GetDirectionToLight light (HitRecord.origin closestHit)) st in
  let E := GetRadiance light (HitRecord.origin closestHit) in
  let BRDFrgb := Shade material closestHit
                   (Normalized (directionTo closestHit light))
                   (Normalized (Ray.direction viewRay)) in
  let cosTheta := Dot (HitRecord.normal closestHit)
                      (directionTo closestHit light) in
  m_CurrentLightingMode this = Combined ->
  frontFacing closestHit light = true ->
  DoesHit pScene (shadowRay aimed) && m_ShadowsEnabled this = false ->
  materials !! HitRecord.materialIndex closestHit = Some material ->
  exists st' calls,
    lightIteration this pScene viewRay closestHit materials light st
      = Some (st', calls) /\
    finalColor st'
    = ColorRGB.add (finalColor st)
                   (ColorRGB.scale (ColorRGB.mul E BRDFrgb) cosTheta) /\
    ColorRGB.r (finalColor st')
    = F32.add (ColorRGB.r (finalColor st))
              (F32.mul (F32.mul (ColorRGB.r E) (ColorRGB.r BRDFrgb)) cosTheta) /\
    ColorRGB.g (finalColor st')
    = F32.add (ColorRGB.g (finalColor st))
              (F32.mul (F32.mul (ColorRGB.g E) (ColorRGB.g BRDFrgb)) cosTheta) /\
    ColorRGB.b (finalColor st')
    = F32.add (ColorRGB.b (finalColor st))
              (F32.mul (F32.mul (ColorRGB.b E) (ColorRGB.b BRDFrgb)) cosTheta).
Proof.
  intros aimed E BRDFrgb cosTheta Hmode Hfront Hlit Hmat.
  eexists _, _. split; [eapply lightIteration_lit; eassumption|].
  rewrite Hmode. cbn. auto.
Qed.

(** *** The shadow ray *)

(** C6: in every iteration the light loop reaches, the shadow ray built for
    the light has the lower bound 0.01f, the length returned by Normalize
    as its upper bound, the normalised direction to the light as its
    direction, and the hit point moved by the lower bound times that
    direction as its origin; the surface normal takes no part in it. The
    any-hit queries of the loop are made with exactly these rays. *)
Theorem shadow_ray_construction this pScene viewRay closestHit materials
    before light st calls :
  lightLoop this pScene viewRay closestHit materials before loopEntry
    = Some (st, calls) ->
  let toLight := GetDirectionToLight light (HitRecord.origin closestHit) in
  let ray := shadowRay (aimShadowRay closestHit toLight st) in
  Ray.min ray = F32.c0_01 /\
  F32.c0_01 = F32.div (F32.of_int 1) (F32.of_int 100) /\
  Ray.max ray = fst (Normalize toLight) /\
  Ray.direction ray = snd (Normalize toLight) /\
  Ray.origin ray
  = Vector3_add (HitRecord.origin closestHit)
                (Vector3_scale (Ray.min ray) (Ray.direction ray)) /\
  (forall normal',
      shadowRay (aimShadowRay
                   (HitRecord.mk (HitRecord.origin closestHit) normal'
                      (HitRecord.t closestHit) (HitRecord.didHit closestHit)
                      (HitRecord.materialIndex closestHit))
                   toLight st)
      = ray) /\
  (forall st' calls',
      lightIteration this pScene viewRay closestHit materials light st
        = Some (st', calls') ->
      shadowRay st' = ray /\
      (frontFacing closestHit light = true -> doesHitCalls calls' = [ray])).
Proof.
  intros Hreach toLight ray.
  assert (Hmin : Ray.min (shadowRay st) = F32.c0_01)
    by (apply lightLoop_min in Hreach; exact Hreach).
  split; [exact Hmin|].
  split; [vm_compute; reflexivity|].
  split; [reflexivity|]. split; [reflexivity|]. split; [reflexivity|].
  split; [reflexivity|].
  intros st' calls' Hiter. split.
  - destruct (frontFacing closestHit light) eqn:Hfront.
    + destruct (DoesHit pScene ray && m_ShadowsEnabled this) eqn:Hskip.
      * rewrite lightIteration_shadowed in Hiter by assumption.
        now injection Hiter as <- _.
      * destruct (materials !! HitRecord.materialIndex closestHit) eqn:Hmat.
        -- erewrite lightIteration_lit in Hiter by eassumption.
           now injection Hiter as <- _.
        -- rewrite lightIteration_undefined in Hiter by assumption.
           discriminate.
    + rewrite lightIteration_culled in Hiter by assumption.
      now injection Hiter as <- _.
  - intros Hfront. apply lightIteration_cases in Hiter.
    destruct Hiter as [[Hback _] | [[_ ->] | [_ ->]]];
      [congruence|reflexivity|reflexivity].
Qed.

(** *** Pixel coordinates *)

Lemma to_uint32_small z : 0 <= z < UINT32_MOD -> to_uint32 z = z.
Proof. intros Hz. unfold to_uint32. now apply Z.mod_small. Qed.

Lemma uint32_to_int_small z : z <= INT_MAX -> uint32_to_int z = z.
Proof.
  intros Hz. unfold uint32_to_int.
  destruct (Z.leb_spec z INT_MAX); [reflexivity|lia].
Qed.

Lemma int_result_small z : INT_MIN <= z <= INT_MAX -> int_result z = Some z.
Proof.
  intros Hz. unfold int_result.
  destruct (Z.leb_spec INT_MIN z), (Z.leb_spec z INT_MAX); cbn; [reflexivity|lia..].
Qed.

Lemma pixel_coordinates this pixelIndex :
  0 < m_Width this <= INT_MAX ->
  0 <= pixelIndex <= INT_MAX ->
  pixel_px this pixelIndex = Some (pixelIndex mod m_Width this) /\
  pixel_py this pixelIndex = Some (pixelIndex / m_Width this) /\
  pixel_offset this (pixelIndex mod m_Width this) (pixelIndex / m_Width this)
  = Some pixelIndex.
Proof.
  intros Hw Hi. unfold pixel_px, pixel_py, pixel_offset.
  assert (HM : INT_MAX < UINT32_MOD) by (vm_compute; reflexivity).
  assert (Hm : INT_MIN <= 0) by (vm_compute; discriminate).
  rewrite to_uint32_small by lia.
  destruct (Z.eqb_spec (m_Width this) 0); [lia|].
  assert (Hmod : 0 <= pixelIndex mod m_Width this < m_Width this)
    by (apply Z.mod_pos_bound; lia).
  assert (Hdiv : 0 <= pixelIndex / m_Width this) by (apply Z.div_pos; lia).
  assert (Hsplit : pixelIndex
                   = m_Width this * (pixelIndex / m_Width this)
                     + pixelIndex mod m_Width this)
    by (apply Z.div_mod; lia).
  assert (Hrow : 0 <= pixelIndex / m_Width this * m_Width this <= pixelIndex)
    by nia.
  assert (Hq : pixelIndex / m_Width this <= pixelIndex) by nia.
  rewrite !uint32_to_int_small by lia.
  rewrite int_result_small by lia.
  rewrite int_result_small by lia.
  repeat split. f_equal. lia.
Qed.

Lemma store_Some buffer offset value :
  0 <= offset < Z.of_nat (length buffer) ->
  store buffer offset value = Some (<[Z.to_nat offset := value]> buffer).
Proof.
  intros Hoff. unfold store.
  destruct (Z.leb_spec 0 offset), (Z.ltb_spec offset (Z.of_nat (length buffer)));
    cbn; [reflexivity|lia..].
Qed.

(** C8: for a window of positive width, an index i of [0, width*height)
    splits into (i mod width, i / width), which lies in
    [0,width) x [0,height) and recomposes to i by px + py*width; every pair
    of the rectangle is reached by exactly the index px + py*width; and the
    pixel RenderPixel writes is the one at that recomposed offset. *)
Theorem pixel_index_bijection this :
  validFrame this ->
  (forall i,
      0 <= i < m_Width this * m_Height this ->
      pixel_px this i = Some (i mod m_Width this) /\
      pixel_py this i = Some (i / m_Width this) /\
      0 <= i mod m_Width this < m_Width this /\
      0 <= i / m_Width this < m_Height this /\
      pixel_offset this (i mod m_Width this) (i / m_Width this) = Some i) /\
  (forall px py,
      0 <= px < m_Width this -> 0 <= py < m_Height this ->
      0 <= px + py * m_Width this < m_Width this * m_Height this /\
      pixel_offset this px py = Some (px + py * m_Width this) /\
      pixel_px this (px + py * m_Width this) = Some px /\
      pixel_py this (px + py * m_Width this) = Some py) /\
  (forall i j,
      0 <= i < m_Width this * m_Height this ->
      0 <= j < m_Width this * m_Height this ->
      pixel_px this i = pixel_px this j -> pixel_py this i = pixel_py this j ->
      i = j) /\
  (forall i pScene fov aspectRatio camera lights materials this' calls,
      0 <= i < m_Width this * m_Height this ->
      RenderPixel this pScene i fov aspectRatio camera lights materials
        = Some (this', calls) ->
      exists value,
        m_pBufferPixels this' = <[Z.to_nat i := value]> (m_pBufferPixels this) /\
        m_pBufferPixels this' !! Z.to_nat i = Some value).
Proof.
  intros (Hw & Hh & Hfit & Hlen).
  assert (Hwmax : m_Width this <= INT_MAX) by nia.
  assert (Hdecompose : forall i,
             0 <= i < m_Width this * m_Height this ->
             0 <= i mod m_Width this < m_Width this /\
             0 <= i / m_Width this < m_Height this).
  { intros i Hi. split; [apply Z.mod_pos_bound; lia|].
    split; [apply Z.div_pos; lia|].
    apply Z.div_lt_upper_bound; lia. }
  split; [|split; [|split]].
  - intros i Hi.
    destruct (pixel_coordinates this i) as (Hpx & Hpy & Hoff); [lia..|].
    destruct (Hdecompose i Hi). auto.
  - intros px py Hpx Hpy.
    assert (Hrange : 0 <= px + py * m_Width this < m_Width this * m_Height this)
      by nia.
    destruct (pixel_coordinates this (px + py * m_Width this))
      as (Hpx' & Hpy' & Hoff); [lia..|].
    assert (Hm : (px + py * m_Width this) mod m_Width this = px)
      by (rewrite Z.mod_add by lia; apply Z.mod_small; lia).
    assert (Hd : (px + py * m_Width this) / m_Width this = py)
      by (rewrite Z.div_add by lia; rewrite Z.div_small by lia; lia).
    rewrite Hm in Hpx', Hoff. rewrite Hd in Hpy', Hoff. auto.
  - intros i j Hi Hj Hpx Hpy.
    destruct (pixel_coordinates this i) as (Hpxi & Hpyi & _); [lia..|].
    destruct (pixel_coordinates this j) as (Hpxj & Hpyj & _); [lia..|].
    rewrite Hpxi, Hpxj in Hpx. rewrite Hpyi, Hpyj in Hpy.
    injection Hpx as Hpx. injection Hpy as Hpy.
    rewrite (Z.div_mod i (m_Width this)), (Z.div_mod j (m_Width this)) by lia.
    congruence.
  - intros i pScene fov aspectRatio camera lights materials this' calls Hi Hrun.
    apply RenderPixel_inv in Hrun.
    destruct Hrun as (px & py & color & offset & r8 & g8 & b8 & buffer
                      & Hpx & Hpy & _ & Hoff & _ & _ & _ & Hstore & ->).
    destruct (pixel_coordinates this i) as (Hpx' & Hpy' & Hoff'); [lia..|].
    assert (px = i mod m_Width this) as -> by congruence.
    assert (py = i / m_Width this) as -> by congruence.
    assert (offset = i) as -> by congruence.
    rewrite store_Some in Hstore by lia. injection Hstore as <-.
    exists (SDL_MapRGB r8 g8 b8). split; [reflexivity|].
    cbn [withBuffer m_pBufferPixels].
    apply list_lookup_insert_eq. lia.
Qed.

(** *** Pixels whose view ray hits nothing *)

(** C7: when the closest-hit query for the view ray of a pixel returns a
    record with the hit flag off, the light loop is not entered, the color
    stays the zero color, MaxToOne leaves it zero, each channel converts to
    the byte 0, and the pixel stored at the index of the pixel is the
    mapping of (0,0,0). *)
Theorem miss_renders_black this pScene pixelIndex fov aspectRatio camera lights
    materials :
  validFrame this ->
  0 <= pixelIndex < m_Width this * m_Height this ->
  let viewRay := viewRayOf this (pixelIndex mod m_Width this)
                           (pixelIndex / m_Width this) fov aspectRatio camera in
  HitRecord.didHit (GetClosestHit pScene viewRay HitRecord_default) = false ->
  shadePixel this pScene viewRay lights materials
  = Some (ColorRGB.zero, [Call_GetClosestHit viewRay]) /\
  ColorRGB.MaxToOne ColorRGB.zero = ColorRGB.mk F32.zero F32.zero F32.zero /\
  F32.to_uint8 (F32.mul F32.zero (F32.of_int 255)) = Some 0 /\
  RenderPixel this pScene pixelIndex fov aspectRatio camera lights materials
  = Some (withBuffer this
            (<[Z.to_nat pixelIndex := SDL_MapRGB 0 0 0]> (m_pBufferPixels this)),
          [Call_GetClosestHit viewRay]) /\
  <[Z.to_nat pixelIndex := SDL_MapRGB 0 0 0]> (m_pBufferPixels this)
    !! Z.to_nat pixelIndex = Some (SDL_MapRGB 0 0 0).
Proof.
  intros (Hw & Hh & Hfit & Hlen) Hi viewRay Hmiss.
  assert (Hshade := shadePixel_miss this pScene viewRay lights materials Hmiss).
  split; [exact Hshade|].
  split; [reflexivity|]. split; [reflexivity|].
  split; [|apply list_lookup_insert_eq; lia].
  destruct (pixel_coordinates this pixelIndex) as (Hpx & Hpy & Hoff); [nia|lia|].
  unfold RenderPixel. rewrite Hpx, Hpy. cbn [defined]. rewrite !bind_ret_l.
  fold viewRay. rewrite Hshade, bind_Some_l, Hoff. cbn [defined].
  rewrite bind_ret_l.
  change (F32.to_uint8 (F32.mul _ (F32.of_int 255))) with (Some 0) at 1.
  cbn [defined]. rewrite bind_ret_l.
  change (F32.to_uint8 (F32.mul _ (F32.of_int 255))) with (Some 0) at 1.
  cbn [defined]. rewrite bind_ret_l.
  change (F32.to_uint8 (F32.mul _ (F32.of_int 255))) with (Some 0) at 1.
  cbn [defined]. rewrite bind_ret_l.
  rewrite store_Some by lia. cbn [defined]. rewrite bind_ret_l.
  reflexivity.
Qed.

(** *** Shadows disabled *)

Lemma lightIteration_total this pScene viewRay closestHit materials light st material :
  materials !! HitRecord.materialIndex closestHit = Some material ->
  exists st' calls,
    lightIteration this pScene viewRay closestHit materials light st
    = Some (st', calls).
Proof.
  intros Hmat. destruct (frontFacing closestHit light) eqn:Hfront.
  - destruct (DoesHit pScene
                (shadowRay (aimShadowRay closestHit
                   (GetDirectionToLight light (HitRecord.origin closestHit)) st))
              && m_ShadowsEnabled this) eqn:Hskip.
    + rewrite lightIteration_shadowed by assumption. eauto.
    + erewrite lightIteration_lit by eassumption. eauto.
  - rewrite lightIteration_culled by assumption. eauto.
Qed.

Lemma lightLoop_total this pScene viewRay closestHit materials lights material :
  materials !! HitRecord.materialIndex closestHit = Some material ->
  forall st, exists st' calls,
    lightLoop this pScene viewRay closestHit materials lights st
    = Some (st', calls).
Proof.
  intros Hmat. induction lights as [|light rest IH]; intros st.
  - cbn. unfold ret. eauto.
  - cbn [lightLoop].
    destruct (lightIteration_total this pScene viewRay closestHit materials
                light st material Hmat) as (mid & calls1 & ->).
    rewrite bind_Some_l.
    destruct (IH mid) as (st' & calls2 & ->). eauto.
Qed.

Lemma lightIteration_shadows_off this pScene answers1 answers2 viewRay closestHit
    materials light st :
  m_ShadowsEnabled this = false ->
  lightIteration this (withDoesHit pScene answers1) viewRay closestHit materials
                 light st
  = lightIteration this (withDoesHit pScene answers2) viewRay closestHit materials
                   light st.
Proof.
  intros Hoff. unfold lightIteration, bind, call.
  rewrite Hoff, !andb_false_r. reflexivity.
Qed.

Lemma lightLoop_shadows_off this pScene answers1 answers2 viewRay closestHit
    materials lights :
  m_ShadowsEnabled this = false ->
  forall st,
    lightLoop this (withDoesHit pScene answers1) viewRay closestHit materials
              lights st
    = lightLoop this (withDoesHit pScene answers2) viewRay closestHit materials
                lights st.
Proof.
  intros Hoff. induction lights as [|light rest IH]; intros st; [reflexivity|].
  cbn [lightLoop].
  rewrite (lightIteration_shadows_off this pScene answers1 answers2) by assumption.
  destruct (lightIteration _ _ _ _ _ _ _) as [[mid calls]|]; [|reflexivity].
  rewrite !bind_Some_l, IH. reflexivity.
Qed.

Lemma RenderPixel_shadows_off this pScene answers1 answers2 pixelIndex fov
    aspectRatio camera lights materials :
  m_ShadowsEnabled this = false ->
  RenderPixel this (withDoesHit pScene answers1) pixelIndex fov aspectRatio
              camera lights materials
  = RenderPixel this (withDoesHit pScene answers2) pixelIndex fov aspectRatio
                camera lights materials.
Proof.
  intros Hoff. unfold RenderPixel.
  destruct (defined (pixel_px this pixelIndex)) as [[px ?]|]; [|reflexivity].
  rewrite !bind_Some_l.
  destruct (defined (pixel_py this pixelIndex)) as [[py ?]|]; [|reflexivity].
  rewrite !bind_Some_l.
  replace (shadePixel this (withDoesHit pScene answers1)
             (viewRayOf this px py fov aspectRatio camera) lights materials)
    with (shadePixel this (withDoesHit pScene answers2)
             (viewRayOf this px py fov aspectRatio camera) lights materials);
    [reflexivity|].
  unfold shadePixel, call. rewrite !bind_Some_l.
  cbn [withDoesHit GetClosestHit].
  destruct (HitRecord.didHit _); [|reflexivity].
  now rewrite (lightLoop_shadows_off this pScene answers2 answers1).
Qed.

Lemma renderPixels_shadows_off pScene answers1 answers2 fov aspectRatio camera
    lights materials indices :
  forall this,
    m_ShadowsEnabled this = false ->
    renderPixels (withDoesHit pScene answers1) fov aspectRatio camera lights
                 materials indices this
    = renderPixels (withDoesHit pScene answers2) fov aspectRatio camera lights
                   materials indices this.
Proof.
  induction indices as [|pixelIndex rest IH]; intros this Hoff; [reflexivity|].
  cbn [renderPixels].
  rewrite (RenderPixel_shadows_off this pScene answers1 answers2) by assumption.
  destruct (RenderPixel _ _ _ _ _ _ _ _) as [[this' calls]|] eqn:Hpixel;
    [|reflexivity].
  rewrite !bind_Some_l, IH; [reflexivity|].
  apply RenderPixel_frame in Hpixel. rewrite Hpixel. exact Hoff.
Qed.

(** C10: with [m_ShadowsEnabled] off, two runs that differ in the answers
    of the any-hit query only produce the same pixel, the same log and the
    same frame under every execution strategy; the query is still made:
    once for every light that is not culled, with the shadow ray of that
    light. *)
Theorem disabled_shadows_hide_occlusion this pScene answers1 answers2 :
  m_ShadowsEnabled this = false ->
  (forall pixelIndex fov aspectRatio camera lights materials,
      RenderPixel this (withDoesHit pScene answers1) pixelIndex fov aspectRatio
                  camera lights materials
      = RenderPixel this (withDoesHit pScene answers2) pixelIndex fov
                    aspectRatio camera lights materials) /\
  (forall strategy env,
      option_map fst (Render strategy env this (withDoesHit pScene answers1))
      = option_map fst (Render strategy env this (withDoesHit pScene answers2))) /\
  (forall viewRay closestHit lights materials material,
      materials !! HitRecord.materialIndex closestHit = Some material ->
      exists st calls,
        lightLoop this (withDoesHit pScene answers1) viewRay closestHit
                  materials lights loopEntry = Some (st, calls) /\
        doesHitCalls calls
        = map (shadowRayTo closestHit)
              (List.filter (frontFacing closestHit) lights)).
Proof.
  intros Hoff. split; [|split].
  - intros. now apply RenderPixel_shadows_off.
  - intros strategy env. unfold Render.
    destruct (numPixelsOf this) as [numPixels|]; [|reflexivity].
    destruct (schedule strategy env numPixels) as [indices|]; [|reflexivity].
    cbn [withDoesHit GetCamera GetMaterials GetLights GetClosestHit DoesHit].
    pose proof (renderPixels_shadows_off
                  (mkScene (CalculateCameraToWorld (GetCamera pScene))
                           (GetMaterials pScene) (GetLights pScene)
                           (GetClosestHit pScene) (DoesHit pScene))
                  answers1 answers2) as Hsame.
    unfold withDoesHit in Hsame.
    cbn [GetCamera GetMaterials GetLights GetClosestHit DoesHit] in Hsame.
    rewrite Hsame by assumption.
    destruct (renderPixels _ _ _ _ _ _ _ _) as [[this' calls]|]; reflexivity.
  - intros viewRay closestHit lights materials material Hmat.
    destruct (lightLoop_total this (withDoesHit pScene answers1) viewRay
                closestHit materials lights material Hmat loopEntry)
      as (st & calls & Hloop).
    exists st, calls. split; [exact Hloop|].
    eapply lightLoop_doesHitCalls; [|exact Hloop]. reflexivity.
Qed.

(** *** Schedules *)

Lemma advance_Permutation tasks :
  forall n i tasks',
    advance n tasks = Some (i, tasks') ->
    Permutation (concat tasks) (i :: concat tasks').
Proof.
  induction tasks as [|task rest IH]; intros n i tasks' Hadv; [discriminate|].
  destruct task as [|j task]; cbn [advance] in Hadv.
  - destruct (advance n rest) as [[i' rest']|] eqn:Hrest; [|discriminate].
    injection Hadv as <- <-. cbn [concat app]. eapply IH. eassumption.
  - destruct n as [|n'].
    + injection Hadv as <- <-. reflexivity.
    + destruct (advance n' rest) as [[i' rest']|] eqn:Hrest; [|discriminate].
      injection Hadv as <- <-. cbn [concat].
      rewrite (IH _ _ _ Hrest). symmetry. apply Permutation_middle.
Qed.

Lemma advance_running tasks :
  forall n, (n < runningTasks tasks)%nat -> exists i tasks', advance n tasks = Some (i, tasks').
Proof.
  induction tasks as [|task rest IH]; intros n Hn; [cbn in Hn; lia|].
  destruct task as [|j task]; cbn [advance runningTasks] in *.
  - destruct (IH n Hn) as (i & rest' & ->). eauto.
  - destruct n as [|n']; [eauto|].
    destruct (IH n') as (i & rest' & ->); [lia|eauto].
Qed.

Lemma runningTasks_pos tasks :
  concat tasks <> [] -> (0 < runningTasks tasks)%nat.
Proof.
  induction tasks as [|task rest IH]; intros Hne; [now destruct Hne|].
  destruct task as [|j task]; cbn [runningTasks]; [apply IH, Hne|lia].
Qed.

(** Whatever the scheduler chooses, the joined tasks have made each of
    their calls exactly once. *)
Lemma interleave_Permutation steps :
  forall choices tasks,
    length (concat tasks) = steps ->
    Permutation (interleave choices steps tasks) (concat tasks).
Proof.
  induction steps as [|steps IH]; intros choices tasks Hlen.
  - apply nil_length_inv in Hlen. now rewrite Hlen.
  - cbn [interleave].
    assert (Hpos : (0 < runningTasks tasks)%nat).
    { apply runningTasks_pos. intros Hnil. now rewrite Hnil in Hlen. }
    destruct (advance_running tasks (hd O choices mod runningTasks tasks))
      as (i & tasks' & Hadv); [apply Nat.mod_upper_bound; lia|].
    rewrite Hadv. apply advance_Permutation in Hadv.
    rewrite Hadv. constructor. apply IH.
    apply Permutation_length in Hadv. cbn in Hadv. lia.
Qed.

Lemma joinAll_Permutation choices tasks :
  Permutation (joinAll choices tasks) (concat tasks).
Proof. now apply interleave_Permutation. Qed.

Lemma taskIndices_seqZ currPixelIndex taskSize :
  0 <= currPixelIndex -> 0 <= taskSize ->
  currPixelIndex + taskSize < UINT32_MOD ->
  taskIndices currPixelIndex taskSize = seqZ currPixelIndex taskSize.
Proof.
  intros Hc Ht Hfit. unfold taskIndices.
  rewrite to_uint32_small by lia. f_equal. lia.
Qed.

Ltac chunk_arith :=
  repeat match goal with
         | |- context [Z.ltb ?a ?b] => destruct (Z.ltb_spec a b)
         end;
  rewrite ?Nat2Z.inj_succ, ?Z.mul_succ_l in *; lia.

(** The state of the loop over the cores after [k] iterations, and the
    chunk launched by iteration [k]. *)
Lemma asyncTasks_lookup cores :
  forall numPixelsPerTask numUnassignedPixels currPixelIndex k,
    0 <= numPixelsPerTask -> 0 <= numUnassignedPixels < UINT32_MOD ->
    0 <= currPixelIndex ->
    currPixelIndex + Z.of_nat cores * numPixelsPerTask
      + Z.min (Z.of_nat cores) numUnassignedPixels < UINT32_MOD ->
    (k < cores)%nat ->
    asyncTasks cores numPixelsPerTask numUnassignedPixels currPixelIndex !! k
    = Some (seqZ (currPixelIndex + Z.of_nat k * numPixelsPerTask
                  + Z.min (Z.of_nat k) numUnassignedPixels)
                 (numPixelsPerTask
                  + (if Z.of_nat k <? numUnassignedPixels then 1 else 0))).
Proof.
  induction cores as [|cores IH]; intros q r curr k Hq Hr Hcurr Hfit Hk; [lia|].
  cbn [asyncTasks].
  assert (HM : 0 < UINT32_MOD) by (vm_compute; reflexivity).
  rewrite Nat2Z.inj_succ, Z.mul_succ_l in Hfit.
  assert (Hcq : 0 <= Z.of_nat cores * q) by nia.
  destruct (Z.ltb_spec 0 r) as [Hpos|Hzero].
  - rewrite (to_uint32_small (q + 1)) by lia.
    rewrite (to_uint32_small (r - 1)) by lia.
    rewrite (to_uint32_small (curr + (q + 1))) by lia.
    destruct k as [|k]; cbn [lookup list_lookup].
    + rewrite taskIndices_seqZ by lia. do 2 f_equal; chunk_arith.
    + rewrite IH by lia. do 2 f_equal; chunk_arith.
  - assert (r = 0) as -> by lia.
    rewrite (to_uint32_small (curr + q)) by lia.
    destruct k as [|k]; cbn [lookup list_lookup].
    + rewrite taskIndices_seqZ by lia. do 2 f_equal; chunk_arith.
    + rewrite IH by lia. do 2 f_equal; chunk_arith.
Qed.

(** The chunks, one after the other, are the index range. *)
Lemma asyncTasks_concat cores :
  forall numPixelsPerTask numUnassignedPixels currPixelIndex,
    0 <= numPixelsPerTask -> 0 <= numUnassignedPixels < UINT32_MOD ->
    0 <= currPixelIndex ->
    currPixelIndex + Z.of_nat cores * numPixelsPerTask
      + Z.min (Z.of_nat cores) numUnassignedPixels < UINT32_MOD ->
    concat (asyncTasks cores numPixelsPerTask numUnassignedPixels currPixelIndex)
    = seqZ currPixelIndex
           (Z.of_nat cores * numPixelsPerTask
            + Z.min (Z.of_nat cores) numUnassignedPixels).
Proof.
  induction cores as [|cores IH]; intros q r curr Hq Hr Hcurr Hfit.
  - cbn. rewrite seqZ_nil; [reflexivity|lia].
  - cbn [asyncTasks concat].
    assert (HM : 0 < UINT32_MOD) by (vm_compute; reflexivity).
    rewrite Nat2Z.inj_succ, Z.mul_succ_l in Hfit |- *.
    assert (Hcq : 0 <= Z.of_nat cores * q) by nia.
    destruct (Z.ltb_spec 0 r) as [Hpos|Hzero].
    + rewrite (to_uint32_small (q + 1)) by lia.
      rewrite (to_uint32_small (r - 1)) by lia.
      rewrite (to_uint32_small (curr + (q + 1))) by lia.
      rewrite taskIndices_seqZ by lia. rewrite IH by lia.
      rewrite <- seqZ_app by lia. f_equal. lia.
    + assert (r = 0) as -> by lia.
      rewrite (to_uint32_small (curr + q)) by lia.
      rewrite taskIndices_seqZ by lia. rewrite IH by lia.
      rewrite <- seqZ_app by lia. f_equal. lia.
Qed.

Lemma asyncPartition_cover numCores numPixels :
  0 < numCores -> 0 <= numPixels < UINT32_MOD ->
  exists tasks,
    asyncPartition numCores numPixels = Some tasks /\
    length tasks = Z.to_nat numCores /\
    concat tasks = seqZ 0 numPixels /\
    forall k, 0 <= k < numCores ->
      tasks !! Z.to_nat k
      = Some (seqZ (k * (numPixels / numCores)
                    + Z.min k (numPixels mod numCores))
                   (numPixels / numCores
                    + (if k <? numPixels mod numCores then 1 else 0))).
Proof.
  intros Hcores Hpixels. unfold asyncPartition.
  destruct (Z.eqb_spec numCores 0); [lia|].
  eexists. split; [reflexivity|].
  assert (Hq : 0 <= numPixels / numCores) by (apply Z.div_pos; lia).
  assert (Hr : 0 <= numPixels mod numCores < numCores)
    by (apply Z.mod_pos_bound; lia).
  assert (Hsplit : numPixels
                   = numCores * (numPixels / numCores) + numPixels mod numCores)
    by (apply Z.div_mod; lia).
  split; [|split].
  - generalize (numPixels / numCores), (numPixels mod numCores), 0.
    induction (Z.to_nat numCores) as [|cores IH]; intros q r curr;
      cbn [asyncTasks length]; [reflexivity|]. now rewrite IH.
  - rewrite asyncTasks_concat; rewrite ?Z2Nat.id by lia; try lia.
    f_equal; lia.
  - intros k Hk.
    rewrite asyncTasks_lookup; rewrite ?Z2Nat.id by lia; try lia.
    do 2 f_equal; lia.
Qed.

Lemma parallelForTasks_concat numPixels :
  0 <= numPixels <= UINT32_MOD ->
  concat (parallelForTasks numPixels) = seqZ 0 numPixels.
Proof.
  intros Hn. unfold parallelForTasks.
  assert (Hconcat : forall (f : Z -> Z) l,
             concat (map (fun i => [f i]) l) = map f l).
  { intros f l. induction l as [|i l IH]; cbn; [reflexivity|now rewrite IH]. }
  rewrite Hconcat.
  rewrite <- (map_id (seqZ 0 numPixels)) at 2.
  apply map_ext_in. intros i Hi%list_elem_of_In%elem_of_seqZ.
  unfold uint32_to_int, to_uint32.
  destruct (Z.leb_spec i INT_MAX).
  - apply Z.mod_small. lia.
  - replace (i - UINT32_MOD) with (i + (-1) * UINT32_MOD) by lia.
    rewrite Z.mod_add by (vm_compute; discriminate).
    apply Z.mod_small. lia.
Qed.

(** *** The writes of a frame *)

Lemma lightLoop_withBuffer this buffer pScene viewRay closestHit materials lights :
  forall st,
    lightLoop (withBuffer this buffer) pScene viewRay closestHit materials
              lights st
    = lightLoop this pScene viewRay closestHit materials lights st.
Proof.
  induction lights as [|light rest IH]; intros st; [reflexivity|].
  cbn [lightLoop].
  change (lightIteration (withBuffer this buffer) pScene viewRay closestHit
                         materials light st)
    with (lightIteration this pScene viewRay closestHit materials light st).
  destruct (lightIteration _ _ _ _ _ _ _) as [[mid calls]|]; [|reflexivity].
  now rewrite !bind_Some_l, IH.
Qed.

Lemma pixelWrite_withBuffer this buffer pScene fov aspectRatio camera lights
    materials pixelIndex :
  pixelWrite (withBuffer this buffer) pScene fov aspectRatio camera lights
             materials pixelIndex
  = pixelWrite this pScene fov aspectRatio camera lights materials pixelIndex.
Proof.
  unfold pixelWrite.
  change (pixel_px (withBuffer this buffer) pixelIndex)
    with (pixel_px this pixelIndex).
  change (pixel_py (withBuffer this buffer) pixelIndex)
    with (pixel_py this pixelIndex).
  destruct (pixel_px this pixelIndex) as [px|]; [|reflexivity].
  destruct (pixel_py this pixelIndex) as [py|]; [|reflexivity].
  change (viewRayOf (withBuffer this buffer) px py fov aspectRatio camera)
    with (viewRayOf this px py fov aspectRatio camera).
  change (pixel_offset (withBuffer this buffer) px py)
    with (pixel_offset this px py).
  replace (shadePixel (withBuffer this buffer) pScene
             (viewRayOf this px py fov aspectRatio camera) lights materials)
    with (shadePixel this pScene
             (viewRayOf this px py fov aspectRatio camera) lights materials);
    [reflexivity|].
  unfold shadePixel, call. rewrite !bind_Some_l.
  destruct (HitRecord.didHit _); [|reflexivity].
  now rewrite lightLoop_withBuffer.
Qed.

(** RenderPixel is the store of its write. *)
Lemma RenderPixel_pixelWrite this pScene pixelIndex fov aspectRatio camera
    lights materials :
  option_map fst (RenderPixel this pScene pixelIndex fov aspectRatio camera
                              lights materials)
  = match pixelWrite this pScene fov aspectRatio camera lights materials
                     pixelIndex with
    | Some (offset, value) =>
        option_map (withBuffer this) (store (m_pBufferPixels this) offset value)
    | None => None
    end.
Proof.
  unfold RenderPixel, pixelWrite.
  destruct (pixel_px this pixelIndex) as [px|]; [|reflexivity].
  cbn [defined]. rewrite bind_ret_l.
  destruct (pixel_py this pixelIndex) as [py|]; [|reflexivity].
  cbn [defined]. rewrite bind_ret_l.
  destruct (shadePixel _ _ _ _ _) as [[color calls]|]; [|reflexivity].
  rewrite bind_Some_l.
  destruct (pixel_offset this px py) as [offset|]; [|reflexivity].
  cbn [defined]. rewrite bind_ret_l.
  destruct (F32.to_uint8 (F32.mul (ColorRGB.r _) _)) as [r8|]; [|reflexivity].
  cbn [defined]. rewrite bind_ret_l.
  destruct (F32.to_uint8 (F32.mul (ColorRGB.g _) _)) as [g8|]; [|reflexivity].
  cbn [defined]. rewrite bind_ret_l.
  destruct (F32.to_uint8 (F32.mul (ColorRGB.b _) _)) as [b8|]; [|reflexivity].
  cbn [defined]. rewrite bind_ret_l.
  destruct (store _ _ _) as [buffer|]; reflexivity.
Qed.

Lemma withBuffer_withBuffer this buffer1 buffer2 :
  withBuffer (withBuffer this buffer1) buffer2 = withBuffer this buffer2.
Proof. reflexivity. Qed.

Lemma withBuffer_same this : withBuffer this (m_pBufferPixels this) = this.
Proof. now destruct this. Qed.

(** A frame is the sequence of the stores of its pixels. *)
Lemma renderPixels_applyWrites this pScene fov aspectRatio camera lights
    materials indices :
  forall buffer,
    option_map fst (renderPixels pScene fov aspectRatio camera lights materials
                                 indices (withBuffer this buffer))
    = option_map (withBuffer this)
        (applyWrites (map (pixelWrite this pScene fov aspectRatio camera lights
                                      materials) indices) buffer).
Proof.
  induction indices as [|pixelIndex rest IH]; intros buffer; [reflexivity|].
  cbn [renderPixels map applyWrites].
  pose proof (RenderPixel_pixelWrite (withBuffer this buffer) pScene pixelIndex
                fov aspectRatio camera lights materials) as Hpixel.
  rewrite pixelWrite_withBuffer in Hpixel.
  destruct (pixelWrite this _ _ _ _ _ _ pixelIndex) as [[offset value]|].
  - cbn [withBuffer m_pBufferPixels] in Hpixel.
    destruct (store buffer offset value) as [buffer'|].
    + destruct (RenderPixel _ _ _ _ _ _ _ _) as [[this' calls]|];
        [|discriminate].
      injection Hpixel as ->. rewrite bind_Some_l.
      change (withBuffer (withBuffer this buffer) buffer')
        with (withBuffer this buffer').
      rewrite <- IH.
      destruct (renderPixels _ _ _ _ _ _ _ _) as [[? ?]|]; reflexivity.
    + destruct (RenderPixel _ _ _ _ _ _ _ _) as [[this' calls]|];
        [discriminate|reflexivity].
  - destruct (RenderPixel _ _ _ _ _ _ _ _) as [[this' calls]|];
      [discriminate|reflexivity].
Qed.

Lemma store_length buffer offset value buffer' :
  store buffer offset value = Some buffer' -> length buffer' = length buffer.
Proof.
  unfold store. destruct (_ && _); [|discriminate].
  intros [= <-]. apply length_insert.
Qed.

Lemma store_None buffer offset value buffer' :
  store buffer offset value = None -> length buffer' = length buffer ->
  store buffer' offset value = None.
Proof.
  unfold store. intros Hnone Hlen. rewrite Hlen.
  now destruct (_ && _).
Qed.

(** Two stores at different offsets commute, also when one of them is
    undefined. *)
Lemma applyWrites_swap write1 write2 rest buffer :
  (forall o1 v1 o2 v2,
      write1 = Some (o1, v1) -> write2 = Some (o2, v2) -> o1 <> o2) ->
  applyWrites (write1 :: write2 :: rest) buffer
  = applyWrites (write2 :: write1 :: rest) buffer.
Proof.
  intros Hdistinct.
  destruct write1 as [[o1 v1]|], write2 as [[o2 v2]|]; cbn [applyWrites];
    try reflexivity.
  - specialize (Hdistinct o1 v1 o2 v2 eq_refl eq_refl).
    destruct (store buffer o1 v1) as [buffer1|] eqn:Hs1,
             (store buffer o2 v2) as [buffer2|] eqn:Hs2.
    + pose proof (store_length _ _ _ _ Hs1) as Hlen1.
      pose proof (store_length _ _ _ _ Hs2) as Hlen2.
      unfold store in *. rewrite Hlen1, Hlen2.
      destruct (_ && _) eqn:Hin1 in Hs1; [|discriminate].
      destruct (_ && _) eqn:Hin2 in Hs2; [|discriminate].
      rewrite Hin1, Hin2. injection Hs1 as <-. injection Hs2 as <-.
      rewrite list_insert_insert_ne; [reflexivity|].
      apply andb_prop in Hin1, Hin2. lia.
    + erewrite store_None; [reflexivity|eassumption|].
      eapply store_length; eassumption.
    + erewrite store_None; [reflexivity|eassumption|].
      eapply store_length; eassumption.
    + reflexivity.
  - now destruct (store buffer o1 v1).
  - now destruct (store buffer o2 v2).
Qed.

Lemma offsets_cons write rest :
  offsets (write :: rest)
  = match write with
    | Some (offset, _) => offset :: offsets rest
    | None => offsets rest
    end.
Proof. now destruct write as [[? ?]|]. Qed.

Lemma offsets_Permutation writes1 writes2 :
  Permutation writes1 writes2 -> Permutation (offsets writes1) (offsets writes2).
Proof.
  induction 1 as [|write l1 l2 _ IH|write1 write2 l|l1 l2 l3 _ IH1 _ IH2].
  - reflexivity.
  - rewrite !offsets_cons. destruct write as [[? ?]|]; [now constructor|exact IH].
  - rewrite !offsets_cons.
    destruct write1 as [[? ?]|], write2 as [[? ?]|]; try reflexivity.
    apply perm_swap.
  - now transitivity (offsets l2).
Qed.

(** The pixel array after a frame does not depend on the order of the
    stores when no two of them share an offset. *)
Lemma applyWrites_Permutation writes1 writes2 :
  Permutation writes1 writes2 ->
  NoDup (offsets writes1) ->
  forall buffer, applyWrites writes1 buffer = applyWrites writes2 buffer.
Proof.
  induction 1 as [|write l1 l2 Hperm IH|write1 write2 l|l1 l2 l3 H12 IH1 H23 IH2];
    intros Hnodup buffer.
  - reflexivity.
  - rewrite offsets_cons in Hnodup.
    destruct write as [[offset value]|]; [|reflexivity].
    apply NoDup_cons_1_2 in Hnodup. cbn [applyWrites].
    destruct (store buffer offset value); [now apply IH|reflexivity].
  - apply applyWrites_swap. intros o1 v1 o2 v2 -> ->.
    rewrite !offsets_cons in Hnodup.
    apply NoDup_cons_1_1 in Hnodup.
    intros ->. apply Hnodup, list_elem_of_here.
  - rewrite IH1 by assumption. apply IH2.
    apply offsets_Permutation in H12. now rewrite <- H12.
Qed.

(** *** Every pixel index has its own offset *)

Lemma uint32_to_int_congruent z :
  exists a, uint32_to_int z = z - a * UINT32_MOD.
Proof.
  unfold uint32_to_int. destruct (z <=? INT_MAX); [exists 0|exists 1]; lia.
Qed.

Lemma int_result_Some z z' : int_result z = Some z' -> z' = z /\ INT_MIN <= z <= INT_MAX.
Proof.
  unfold int_result.
  destruct (Z.leb_spec INT_MIN z), (Z.leb_spec z INT_MAX); cbn;
    intros [=]; lia.
Qed.

(** The offset of line 197 is congruent to the pixel index modulo 2^32,
    whatever the width. *)
Lemma pixel_offset_congruent this pixelIndex px py offset :
  pixel_px this pixelIndex = Some px ->
  pixel_py this pixelIndex = Some py ->
  pixel_offset this px py = Some offset ->
  (exists k, offset = pixelIndex + k * UINT32_MOD) /\
  INT_MIN <= offset <= INT_MAX.
Proof.
  unfold pixel_px, pixel_py, pixel_offset.
  destruct (Z.eqb_spec (to_uint32 (m_Width this)) 0) as [|Hnz]; [discriminate|].
  intros [= <-] [= <-].
  destruct (int_result _) as [row|] eqn:Hrow; [|discriminate].
  intros [-> Hrange]%int_result_Some.
  apply int_result_Some in Hrow as [-> _].
  split; [|exact Hrange].
  assert (HM : UINT32_MOD <> 0) by (vm_compute; discriminate).
  pose proof (Z.div_mod pixelIndex _ Hnz) as Hi.
  pose proof (Z.div_mod (m_Width this) _ HM) as Hw.
  fold (to_uint32 (m_Width this)) in Hw.
  destruct (uint32_to_int_congruent (pixelIndex mod to_uint32 (m_Width this)))
    as (a & ->).
  destruct (uint32_to_int_congruent (pixelIndex / to_uint32 (m_Width this)))
    as (b & ->).
  set (W := to_uint32 (m_Width this)) in *.
  set (Q := pixelIndex / W) in *. set (A := pixelIndex mod W) in *.
  set (c := m_Width this / UINT32_MOD) in *.
  exists (Q * c - b * m_Width this - a).
  rewrite Hi at 1. rewrite Hw at 1.
  replace W with (m_Width this - UINT32_MOD * c) by lia. ring.
Qed.

Lemma pixelWrite_offset this pScene fov aspectRatio camera lights materials
    pixelIndex offset value :
  pixelWrite this pScene fov aspectRatio camera lights materials pixelIndex
    = Some (offset, value) ->
  (exists k, offset = pixelIndex + k * UINT32_MOD) /\
  INT_MIN <= offset <= INT_MAX.
Proof.
  unfold pixelWrite.
  destruct (pixel_px this pixelIndex) as [px|] eqn:Hpx; [|discriminate].
  destruct (pixel_py this pixelIndex) as [py|] eqn:Hpy; [|discriminate].
  destruct (shadePixel _ _ _ _ _) as [[color calls]|]; [|discriminate].
  destruct (pixel_offset this px py) as [offset'|] eqn:Hoff; [|discriminate].
  destruct (F32.to_uint8 _); [|discriminate].
  destruct (F32.to_uint8 _); [|discriminate].
  destruct (F32.to_uint8 _); [|discriminate].
  intros [= <- _]. eapply pixel_offset_congruent; eassumption.
Qed.

Lemma pixelWrite_injective this pScene fov aspectRatio camera lights materials
    i j offset value1 value2 :
  0 <= i < UINT32_MOD -> 0 <= j < UINT32_MOD ->
  pixelWrite this pScene fov aspectRatio camera lights materials i
    = Some (offset, value1) ->
  pixelWrite this pScene fov aspectRatio camera lights materials j
    = Some (offset, value2) ->
  i = j.
Proof.
  intros Hi Hj [(k1 & Hk1) _]%pixelWrite_offset [(k2 & Hk2) _]%pixelWrite_offset.
  unfold UINT32_MOD in *. change (2 ^ 32) with 4294967296 in *. lia.
Qed.

Lemma offsets_elem offset writes :
  offset ∈ offsets writes -> exists value, In (Some (offset, value)) writes.
Proof.
  induction writes as [|write rest IH]; rewrite ?offsets_cons.
  - intros Hin. inversion Hin.
  - destruct write as [[offset' value']|].
    + intros [->|Hin]%elem_of_cons.
      * exists value'. now left.
      * destruct (IH Hin) as (value & Hvalue). exists value. now right.
    + intros Hin. destruct (IH Hin) as (value & Hvalue). exists value. now right.
Qed.

Lemma pixelWrite_offsets_NoDup this pScene fov aspectRatio camera lights
    materials indices :
  NoDup indices ->
  (forall i, In i indices -> 0 <= i < UINT32_MOD) ->
  NoDup (offsets (map (pixelWrite this pScene fov aspectRatio camera lights
                                  materials) indices)).
Proof.
  induction 1 as [|i rest Hnotin Hnodup IH]; intros Hrange.
  - constructor.
  - cbn [map]. rewrite offsets_cons.
    assert (IH' := IH (fun j Hj => Hrange j (or_intror Hj))).
    destruct (pixelWrite this _ _ _ _ _ _ i) as [[offset value]|] eqn:Hwrite;
      [|exact IH'].
    constructor; [|exact IH'].
    intros (value' & Hin)%offsets_elem.
    apply in_map_iff in Hin as (j & Hwrite' & Hj).
    assert (i = j) as <-.
    { eapply pixelWrite_injective; [| |exact Hwrite|exact Hwrite'].
      - apply Hrange. now left.
      - apply Hrange. now right. }
    apply Hnotin, list_elem_of_In, Hj.
Qed.

(** The frames of two schedules that call RenderPixel for the same
    indices, each once, are the same. *)
Lemma renderPixels_Permutation this pScene fov aspectRatio camera lights
    materials indices1 indices2 :
  Permutation indices1 indices2 ->
  NoDup indices1 ->
  (forall i, In i indices1 -> 0 <= i < UINT32_MOD) ->
  option_map fst (renderPixels pScene fov aspectRatio camera lights materials
                               indices1 this)
  = option_map fst (renderPixels pScene fov aspectRatio camera lights materials
                                 indices2 this).
Proof.
  intros Hperm Hnodup Hrange.
  pose proof (renderPixels_applyWrites this pScene fov aspectRatio camera lights
                materials indices1 (m_pBufferPixels this)) as Hrun1.
  pose proof (renderPixels_applyWrites this pScene fov aspectRatio camera lights
                materials indices2 (m_pBufferPixels this)) as Hrun2.
  rewrite withBuffer_same in Hrun1, Hrun2.
  rewrite Hrun1, Hrun2. f_equal.
  apply applyWrites_Permutation.
  - now apply Permutation_map.
  - now apply pixelWrite_offsets_NoDup.
Qed.

Lemma numPixelsOf_range this numPixels :
  numPixelsOf this = Some numPixels -> 0 <= numPixels < UINT32_MOD.
Proof.
  unfold numPixelsOf. destruct (int_result _); [|discriminate].
  intros [= <-]. apply Z.mod_pos_bound. vm_compute. reflexivity.
Qed.

Lemma numPixelsOf_valid this :
  validFrame this -> numPixelsOf this = Some (m_Width this * m_Height this).
Proof.
  intros (Hw & Hh & Hfit & _). unfold numPixelsOf.
  assert (Hm : INT_MIN <= 0) by (vm_compute; discriminate).
  assert (HM : INT_MAX < UINT32_MOD) by (vm_compute; reflexivity).
  rewrite int_result_small by nia. rewrite to_uint32_small by nia. reflexivity.
Qed.

(** *** The execution strategies *)

Lemma Render_schedule strategy env this pScene :
  Render strategy env this pScene
  = let camera := CalculateCameraToWorld (GetCamera pScene) in
    let pScene' :=
      mkScene camera (GetMaterials pScene) (GetLights pScene)
              (GetClosestHit pScene) (DoesHit pScene) in
    match numPixelsOf this with
    | None => None
    | Some numPixels =>
        match schedule strategy env numPixels with
        | None => None
        | Some indices =>
            option_map (fun this' => (this', pScene'))
              (option_map fst
                 (renderPixels pScene'
                    (tan (F32.div (F32.mul (Camera_fovAngle camera) TO_RADIANS)
                                  F32.two))
                    (F32.div (F32.of_int (m_Width this))
                             (F32.of_int (m_Height this)))
                    camera (GetLights pScene) (GetMaterials pScene)
                    indices this))
        end
    end.
Proof.
  unfold Render. cbn zeta.
  destruct (numPixelsOf this) as [numPixels|]; [|reflexivity].
  destruct (schedule strategy env numPixels) as [indices|]; [|reflexivity].
  cbn [GetMaterials GetLights].
  destruct (renderPixels _ _ _ _ _ _ _ _) as [[this' calls]|]; reflexivity.
Qed.

(** *** The light loop as a sum over the lights that are let through *)

Lemma lightIteration_idle this pScene viewRay closestHit materials light st :
  Ray.min (shadowRay st) = F32.c0_01 ->
  contributes this pScene closestHit light = false ->
  lightIteration this pScene viewRay closestHit materials light st
  = Some (aimShadowRay closestHit
            (GetDirectionToLight light (HitRecord.origin closestHit)) st,
          iterationCalls this pScene viewRay closestHit light).
Proof.
  intros Hmin Hidle. unfold iterationCalls. rewrite Hidle.
  unfold contributes in Hidle.
  destruct (frontFacing closestHit light) eqn:Hfront.
  - cbn [andb] in Hidle. apply negb_false_iff in Hidle.
    rewrite <- (aimShadowRay_shadowRay closestHit light st Hmin) in Hidle |- *.
    now apply lightIteration_shadowed.
  - now apply lightIteration_culled.
Qed.

Lemma lightIteration_active this pScene viewRay closestHit materials light st
    material :
  Ray.min (shadowRay st) = F32.c0_01 ->
  contributes this pScene closestHit light = true ->
  materials !! HitRecord.materialIndex closestHit = Some material ->
  lightIteration this pScene viewRay closestHit materials light st
  = Some (mkLoopState (shadowRayTo closestHit light)
            (directionTo closestHit light)
            (contribution this viewRay closestHit material light (finalColor st)),
          iterationCalls this pScene viewRay closestHit light).
Proof.
  intros Hmin Hactive Hmat. unfold iterationCalls. rewrite Hactive.
  unfold contributes in Hactive.
  apply andb_prop in Hactive as [Hfront Hlit%negb_true_iff]. rewrite Hfront.
  rewrite <- (aimShadowRay_shadowRay closestHit light st Hmin) in Hlit |- *.
  erewrite lightIteration_lit by eassumption. reflexivity.
Qed.

Lemma lightIteration_missing this pScene viewRay closestHit materials light st :
  Ray.min (shadowRay st) = F32.c0_01 ->
  contributes this pScene closestHit light = true ->
  materials !! HitRecord.materialIndex closestHit = None ->
  lightIteration this pScene viewRay closestHit materials light st = None.
Proof.
  intros Hmin Hactive Hmat. unfold contributes in Hactive.
  apply andb_prop in Hactive as [Hfront Hlit%negb_true_iff].
  rewrite <- (aimShadowRay_shadowRay closestHit light st Hmin) in Hlit.
  now apply lightIteration_undefined.
Qed.

Lemma lightLoop_fold this pScene viewRay closestHit materials material lights :
  materials !! HitRecord.materialIndex closestHit = Some material ->
  forall st,
    Ray.min (shadowRay st) = F32.c0_01 ->
    exists st',
      lightLoop this pScene viewRay closestHit materials lights st
      = Some (st', flat_map (iterationCalls this pScene viewRay closestHit)
                            lights) /\
      finalColor st'
      = fold_left (fun color light =>
                     contribution this viewRay closestHit material light color)
                  (List.filter (contributes this pScene closestHit) lights)
                  (finalColor st).
Proof.
  intros Hmat. induction lights as [|light rest IH]; intros st Hmin.
  - exists st. split; reflexivity.
  - cbn [lightLoop flat_map List.filter].
    destruct (contributes this pScene closestHit light) eqn:Hactive.
    + erewrite lightIteration_active by eassumption. rewrite bind_Some_l.
      destruct (IH (mkLoopState (shadowRayTo closestHit light)
                      (directionTo closestHit light)
                      (contribution this viewRay closestHit material light
                         (finalColor st))) eq_refl) as (st' & -> & Hcolor).
      exists st'. split; [reflexivity|exact Hcolor].
    + rewrite lightIteration_idle by assumption. rewrite bind_Some_l.
      destruct (IH (aimShadowRay closestHit
                      (GetDirectionToLight light (HitRecord.origin closestHit))
                      st) Hmin) as (st' & -> & Hcolor).
      exists st'. split; [reflexivity|exact Hcolor].
Qed.

Lemma lightLoop_idle this pScene viewRay closestHit materials lights :
  (forall light, In light lights ->
     contributes this pScene closestHit light = false) ->
  forall st,
    Ray.min (shadowRay st) = F32.c0_01 ->
    exists st',
      lightLoop this pScene viewRay closestHit materials lights st
      = Some (st', flat_map (iterationCalls this pScene viewRay closestHit)
                            lights) /\
      finalColor st' = finalColor st.
Proof.
  induction lights as [|light rest IH]; intros Hidle st Hmin.
  - exists st. split; reflexivity.
  - cbn [lightLoop flat_map].
    rewrite lightIteration_idle by (auto using in_eq). rewrite bind_Some_l.
    destruct (IH (fun l Hl => Hidle l (in_cons _ _ _ Hl))
                 (aimShadowRay closestHit
                    (GetDirectionToLight light (HitRecord.origin closestHit)) st)
                 Hmin) as (st' & -> & Hcolor).
    exists st'. split; [reflexivity|exact Hcolor].
Qed.

Lemma lightLoop_missing this pScene viewRay closestHit materials light lights :
  In light lights ->
  contributes this pScene closestHit light = true ->
  materials !! HitRecord.materialIndex closestHit = None ->
  forall st,
    Ray.min (shadowRay st) = F32.c0_01 ->
    lightLoop this pScene viewRay closestHit materials lights st = None.
Proof.
  intros Hin Hactive Hmat.
  induction lights as [|first rest IH]; intros st Hmin; [destruct Hin|].
  cbn [lightLoop].
  destruct (contributes this pScene closestHit first) eqn:Hfirst.
  - now rewrite lightIteration_missing.
  - rewrite lightIteration_idle by assumption. rewrite bind_Some_l.
    rewrite IH; [reflexivity| |exact Hmin].
    destruct Hin as [->|Hin]; [congruence|exact Hin].
Qed.

Lemma shadeCalls_idle this pScene viewRay closestHit lights :
  (forall light, In light lights ->
     contributes this pScene closestHit light = false) ->
  shadeCalls (flat_map (iterationCalls this pScene viewRay closestHit) lights)
  = [].
Proof.
  induction lights as [|light rest IH]; intros Hidle; [reflexivity|].
  cbn [flat_map]. rewrite shadeCalls_app, IH by (auto using in_cons).
  unfold iterationCalls. rewrite (Hidle light) by apply in_eq.
  now destruct (frontFacing closestHit light).
Qed.

(** A pixel whose color stays zero is stored as the mapping of (0,0,0). *)
Lemma RenderPixel_black this pScene pixelIndex fov aspectRatio camera lights
    materials calls :
  validFrame this ->
  0 <= pixelIndex < m_Width this * m_Height this ->
  shadePixel this pScene
    (viewRayOf this (pixelIndex mod m_Width this) (pixelIndex / m_Width this)
               fov aspectRatio camera)
    lights materials = Some (ColorRGB.zero, calls) ->
  RenderPixel this pScene pixelIndex fov aspectRatio camera lights materials
  = Some (withBuffer this
            (<[Z.to_nat pixelIndex := SDL_MapRGB 0 0 0]> (m_pBufferPixels this)),
          calls).
Proof.
  intros (Hw & Hh & Hfit & Hlen) Hi Hshade.
  destruct (pixel_coordinates this pixelIndex) as (Hpx & Hpy & Hoff); [nia|lia|].
  unfold RenderPixel. rewrite Hpx, Hpy. cbn [defined]. rewrite !bind_ret_l.
  rewrite Hshade, bind_Some_l, Hoff. cbn [defined].
  rewrite bind_ret_l.
  change (F32.to_uint8 (F32.mul _ (F32.of_int 255))) with (Some 0) at 1.
  cbn [defined]. rewrite bind_ret_l.
  change (F32.to_uint8 (F32.mul _ (F32.of_int 255))) with (Some 0) at 1.
  cbn [defined]. rewrite bind_ret_l.
  change (F32.to_uint8 (F32.mul _ (F32.of_int 255))) with (Some 0) at 1.
  cbn [defined]. rewrite bind_ret_l.
  rewrite store_Some by lia. cbn [defined]. rewrite bind_ret_l.
  unfold ret. cbn [app]. now rewrite app_nil_r.
Qed.

(** X1: when the material of the hit exists, the light loop returns; the
    color it ends with is the left fold, from the zero color, of the
    mode's accumulation over the lights that pass the culling and the
    shadow test, in list order; and its log is, light by light, the
    direction query, then the any-hit query unless the light is culled,
    then the radiance query and the Shade call when the light is let
    through. *)
Theorem lightLoop_sums_contributions this pScene viewRay closestHit materials
    lights material :
  materials !! HitRecord.materialIndex closestHit = Some material ->
  exists st,
    lightLoop this pScene viewRay closestHit materials lights loopEntry
    = Some (st, flat_map (iterationCalls this pScene viewRay closestHit) lights) /\
    finalColor st
    = fold_left (fun color light =>
                   contribution this viewRay closestHit material light color)
                (List.filter (contributes this pScene closestHit) lights)
                ColorRGB.zero.
Proof.
  intros Hmat.
  exact (lightLoop_fold this pScene viewRay closestHit materials material lights
           Hmat loopEntry eq_refl).
Qed.

(** X2: a pixel none of whose lights is let through (all culled or
    shadowed, or no light at all) is stored as the mapping of (0,0,0),
    whether its view ray hits or not; no material is looked up and no
    Shade call is made, so this holds for any materials vector, the empty
    one included. *)
Theorem unlit_pixel_is_black this pScene pixelIndex fov aspectRatio camera
    lights materials :
  validFrame this ->
  0 <= pixelIndex < m_Width this * m_Height this ->
  let viewRay := viewRayOf this (pixelIndex mod m_Width this)
                           (pixelIndex / m_Width this) fov aspectRatio camera in
  let closestHit := GetClosestHit pScene viewRay HitRecord_default in
  (forall light, In light lights ->
     contributes this pScene closestHit light = false) ->
  let calls :=
    Call_GetClosestHit viewRay
    :: (if HitRecord.didHit closestHit
        then flat_map (iterationCalls this pScene viewRay closestHit) lights
        else []) in
  RenderPixel this pScene pixelIndex fov aspectRatio camera lights materials
  = Some (withBuffer this
            (<[Z.to_nat pixelIndex := SDL_MapRGB 0 0 0]> (m_pBufferPixels this)),
          calls) /\
  shadeCalls calls = [].
Proof.
  intros Hvalid Hi viewRay closestHit Hidle calls. split.
  - apply RenderPixel_black; [assumption..|]. fold viewRay. subst calls.
    destruct (HitRecord.didHit closestHit) eqn:Hhit.
    + rewrite shadePixel_hit by assumption. fold closestHit.
      destruct (lightLoop_idle this pScene viewRay closestHit materials lights
                  Hidle loopEntry eq_refl) as (st & -> & ->).
      reflexivity.
    + now apply shadePixel_miss.
  - subst calls. cbn [shadeCalls].
    destruct (HitRecord.didHit closestHit); [|reflexivity].
    now apply shadeCalls_idle.
Qed.

(** X3: [materials[closestHit.materialIndex]] is not checked: when the
    view ray hits, one of the lights is let through and the material index
    of the hit is past the end of the materials vector, the call of
    RenderPixel is undefined. *)
Theorem contributing_light_needs_material this pScene pixelIndex fov
    aspectRatio camera lights materials light :
  validFrame this ->
  0 <= pixelIndex < m_Width this * m_Height this ->
  let viewRay := viewRayOf this (pixelIndex mod m_Width this)
                           (pixelIndex / m_Width this) fov aspectRatio camera in
  let closestHit := GetClosestHit pScene viewRay HitRecord_default in
  HitRecord.didHit closestHit = true ->
  In light lights ->
  contributes this pScene closestHit light = true ->
  (length materials <= HitRecord.materialIndex closestHit)%nat ->
  RenderPixel this pScene pixelIndex fov aspectRatio camera lights materials
  = None.
Proof.
  intros (Hw & Hh & Hfit & Hlen) Hi viewRay closestHit Hhit Hin Hactive Hpast.
  destruct (pixel_coordinates this pixelIndex) as (Hpx & Hpy & _); [nia|lia|].
  unfold RenderPixel. rewrite Hpx, Hpy. cbn [defined]. rewrite !bind_ret_l.
  fold viewRay. rewrite shadePixel_hit by assumption. fold closestHit.
  rewrite (lightLoop_missing this pScene viewRay closestHit materials light
             lights Hin Hactive); [reflexivity| |reflexivity].
  now apply lookup_ge_None.
Qed.

(** *** The ObservedArea mode *)

Lemma lightIteration_ObservedArea_grey this pScene viewRay closestHit materials
    light st st' calls :
  m_CurrentLightingMode this = ObservedArea ->
  isGrey (finalColor st) ->
  lightIteration this pScene viewRay closestHit materials light st
    = Some (st', calls) ->
  isGrey (finalColor st').
Proof.
  intros Hmode [Hrg Hgb].
  destruct (frontFacing closestHit light) eqn:Hfront.
  - destruct (DoesHit pScene
                (shadowRay (aimShadowRay closestHit
                   (GetDirectionToLight light (HitRecord.origin closestHit)) st))
              && m_ShadowsEnabled this) eqn:Hskip.
    + rewrite lightIteration_shadowed by assumption.
      intros [= <- _]. now split.
    + destruct (materials !! HitRecord.materialIndex closestHit) eqn:Hmat.
      * erewrite lightIteration_lit by eassumption. rewrite Hmode.
        intros [= <- _].
        unfold isGrey, accumulate, ColorRGB.add, ColorRGB.scale.
        cbn [ColorRGB.r ColorRGB.g ColorRGB.b finalColor].
        rewrite Hrg, Hgb. now split.
      * rewrite lightIteration_undefined by assumption. discriminate.
  - rewrite lightIteration_culled by assumption. intros [= <- _]. now split.
Qed.

Lemma lightLoop_ObservedArea_grey this pScene viewRay closestHit materials lights :
  m_CurrentLightingMode this = ObservedArea ->
  forall st st' calls,
    isGrey (finalColor st) ->
    lightLoop this pScene viewRay closestHit materials lights st
      = Some (st', calls) ->
    isGrey (finalColor st').
Proof.
  intros Hmode. induction lights as [|light rest IH]; intros st st' calls Hgrey.
  - now intros [= <- _].
  - cbn [lightLoop]. intros Hrun. apply bind_Some in Hrun.
    destruct Hrun as (mid & calls1 & calls2 & Hiter & Hrest & _).
    eapply IH; [|exact Hrest].
    eapply lightIteration_ObservedArea_grey; eassumption.
Qed.

Lemma MaxToOne_grey color : isGrey color -> isGrey (ColorRGB.MaxToOne color).
Proof.
  intros [Hrg Hgb]. unfold ColorRGB.MaxToOne.
  destruct (F32.ltb _ _); [|now split].
  unfold isGrey. cbn [ColorRGB.r ColorRGB.g ColorRGB.b].
  rewrite Hrg, Hgb. now split.
Qed.

Lemma to_uint8_range f z : F32.to_uint8 f = Some z -> 0 <= z <= 255.
Proof.
  unfold F32.to_uint8. destruct (F32.trunc f) as [t|]; [|discriminate].
  destruct (Z.leb_spec 0 t), (Z.leb_spec t 255); cbn; intros [=]; lia.
Qed.

(** X4: in the ObservedArea mode the three channels of the accumulated
    color stay equal through the light loop, and the pixel a call of
    RenderPixel stores is the mapping of three equal bytes: the mode
    renders in grey levels. *)
Theorem ObservedArea_renders_grey this pScene pixelIndex fov aspectRatio camera
    lights materials this' calls :
  m_CurrentLightingMode this = ObservedArea ->
  validFrame this ->
  0 <= pixelIndex < m_Width this * m_Height this ->
  RenderPixel this pScene pixelIndex fov aspectRatio camera lights materials
    = Some (this', calls) ->
  (exists color,
      shadePixel this pScene
        (viewRayOf this (pixelIndex mod m_Width this)
                   (pixelIndex / m_Width this) fov aspectRatio camera)
        lights materials = Some (color, calls) /\
      isGrey color) /\
  exists level,
    0 <= level <= 255 /\
    m_pBufferPixels this'
    = <[Z.to_nat pixelIndex := SDL_MapRGB level level level]>
        (m_pBufferPixels this).
Proof.
  intros Hmode (Hw & Hh & Hfit & Hlen) Hi Hrun.
  apply RenderPixel_inv in Hrun.
  destruct Hrun as (px & py & color & offset & r8 & g8 & b8 & buffer
                    & Hpx & Hpy & Hshade & Hoff & Hr & Hg & Hb & Hstore & ->).
  destruct (pixel_coordinates this pixelIndex) as (Hpx' & Hpy' & Hoff');
    [nia|lia|].
  assert (px = pixelIndex mod m_Width this) as -> by congruence.
  assert (py = pixelIndex / m_Width this) as -> by congruence.
  assert (offset = pixelIndex) as -> by congruence.
  assert (Hgrey : isGrey color).
  { destruct (HitRecord.didHit
                (GetClosestHit pScene
                   (viewRayOf this (pixelIndex mod m_Width this)
                      (pixelIndex / m_Width this) fov aspectRatio camera)
                   HitRecord_default)) eqn:Hhit.
    - rewrite shadePixel_hit in Hshade by assumption.
      destruct (lightLoop _ _ _ _ _ _ _) as [[st calls']|] eqn:Hloop;
        [|discriminate].
      injection Hshade as <- _.
      eapply lightLoop_ObservedArea_grey; [exact Hmode| |exact Hloop].
      now split.
    - rewrite shadePixel_miss in Hshade by assumption.
      injection Hshade as <- _. now split. }
  split; [exists color; split; assumption|].
  destruct (MaxToOne_grey color Hgrey) as [Hrg Hgb].
  rewrite <- Hrg in Hg. rewrite <- Hgb, <- Hrg in Hb.
  assert (g8 = r8) as -> by congruence.
  assert (b8 = r8) as -> by congruence.
  exists r8. split; [eapply to_uint8_range; eassumption|].
  rewrite store_Some in Hstore by lia. now injection Hstore as <-.
Qed.

(** *** Modes that do not look at the material *)

Lemma lightIteration_materials this pScene viewRay closestHit materials1
    materials2 light st :
  m_CurrentLightingMode this = ObservedArea
  \/ m_CurrentLightingMode this = Radiance ->
  length materials1 = length materials2 ->
  lightIteration this pScene viewRay closestHit materials1 light st
  = lightIteration this pScene viewRay closestHit materials2 light st.
Proof.
  intros Hmode Hlen.
  destruct (frontFacing closestHit light) eqn:Hfront.
  - destruct (DoesHit pScene
                (shadowRay (aimShadowRay closestHit
                   (GetDirectionToLight light (HitRecord.origin closestHit)) st))
              && m_ShadowsEnabled this) eqn:Hskip.
    + now rewrite !lightIteration_shadowed.
    + destruct (materials1 !! HitRecord.materialIndex closestHit)
        as [material1|] eqn:Hmat1.
      * destruct (lookup_lt_is_Some_2 materials2
                    (HitRecord.materialIndex closestHit)) as (material2 & Hmat2).
        { rewrite <- Hlen. eapply lookup_lt_Some. eassumption. }
        erewrite (lightIteration_lit _ _ _ _ materials1) by eassumption.
        erewrite (lightIteration_lit _ _ _ _ materials2) by eassumption.
        destruct Hmode as [-> | ->]; reflexivity.
      * assert (Hmat2 : materials2 !! HitRecord.materialIndex closestHit = None).
        { apply lookup_ge_None. rewrite <- Hlen. now apply lookup_ge_None. }
        now rewrite !lightIteration_undefined.
  - now rewrite !lightIteration_culled.
Qed.

Lemma lightLoop_materials this pScene viewRay closestHit materials1 materials2
    lights :
  m_CurrentLightingMode this = ObservedArea
  \/ m_CurrentLightingMode this = Radiance ->
  length materials1 = length materials2 ->
  forall st,
    lightLoop this pScene viewRay closestHit materials1 lights st
    = lightLoop this pScene viewRay closestHit materials2 lights st.
Proof.
  intros Hmode Hlen. induction lights as [|light rest IH]; intros st;
    [reflexivity|].
  cbn [lightLoop].
  rewrite (lightIteration_materials this pScene viewRay closestHit materials1
             materials2) by assumption.
  destruct (lightIteration _ _ _ _ _ _ _) as [[mid calls]|]; [|reflexivity].
  now rewrite !bind_Some_l, IH.
Qed.

(** X5: in the ObservedArea and the Radiance mode the pixel and the log of
    RenderPixel are the same for any two materials vectors of the same
    length: what the materials' Shade returns is computed and dropped (the
    vector is still indexed, so its length matters). *)
Theorem ObservedArea_and_Radiance_ignore_materials this pScene pixelIndex fov
    aspectRatio camera lights materials1 materials2 :
  m_CurrentLightingMode this = ObservedArea
  \/ m_CurrentLightingMode this = Radiance ->
  length materials1 = length materials2 ->
  RenderPixel this pScene pixelIndex fov aspectRatio camera lights materials1
  = RenderPixel this pScene pixelIndex fov aspectRatio camera lights materials2.
Proof.
  intros Hmode Hlen. unfold RenderPixel.
  destruct (defined (pixel_px this pixelIndex)) as [[px ?]|]; [|reflexivity].
  rewrite !bind_Some_l.
  destruct (defined (pixel_py this pixelIndex)) as [[py ?]|]; [|reflexivity].
  rewrite !bind_Some_l.
  replace (shadePixel this pScene (viewRayOf this px py fov aspectRatio camera)
             lights materials1)
    with (shadePixel this pScene (viewRayOf this px py fov aspectRatio camera)
             lights materials2); [reflexivity|].
  unfold shadePixel, call. rewrite !bind_Some_l.
  destruct (HitRecord.didHit _); [|reflexivity].
  now rewrite (lightLoop_materials this pScene _ _ materials2 materials1).
Qed.

(** *** What the shadow test reads *)

Lemma lightIteration_answers this pScene answers1 answers2 viewRay closestHit
    materials light st :
  Ray.min (shadowRay st) = F32.c0_01 ->
  (frontFacing closestHit light = true ->
   answers1 (shadowRayTo closestHit light)
   = answers2 (shadowRayTo closestHit light)) ->
  lightIteration this (withDoesHit pScene answers1) viewRay closestHit materials
                 light st
  = lightIteration this (withDoesHit pScene answers2) viewRay closestHit
                   materials light st.
Proof.
  intros Hmin Hagree. unfold lightIteration, bind, call.
  rewrite aimShadowRay_shadowDir.
  destruct (F32.ltb _ _) eqn:Hdot; [reflexivity|].
  cbn [withDoesHit DoesHit].
  rewrite (aimShadowRay_shadowRay closestHit light st Hmin).
  rewrite Hagree; [reflexivity|].
  unfold frontFacing. now rewrite Hdot.
Qed.

Lemma lightLoop_answers this pScene answers1 answers2 viewRay closestHit
    materials lights :
  (forall light, In light lights -> frontFacing closestHit light = true ->
     answers1 (shadowRayTo closestHit light)
     = answers2 (shadowRayTo closestHit light)) ->
  forall st,
    Ray.min (shadowRay st) = F32.c0_01 ->
    lightLoop this (withDoesHit pScene answers1) viewRay closestHit materials
              lights st
    = lightLoop this (withDoesHit pScene answers2) viewRay closestHit materials
                lights st.
Proof.
  induction lights as [|light rest IH]; intros Hagree st Hmin; [reflexivity|].
  cbn [lightLoop].
  rewrite (lightIteration_answers this pScene answers1 answers2)
    by (auto using in_eq).
  destruct (lightIteration _ _ _ _ _ _ _) as [[mid calls]|] eqn:Hiter;
    [|reflexivity].
  rewrite !bind_Some_l, IH; [reflexivity|auto using in_cons|].
  apply lightIteration_min in Hiter. congruence.
Qed.

(** X6: whatever the shadow setting, the pixel depends on the any-hit
    query through its answers for the shadow rays of the lights that are
    not culled, and through nothing else: two scenes whose queries agree
    on these rays give the same pixel and the same log. *)
Theorem shadow_test_reads_its_shadow_rays this pScene answers1 answers2
    pixelIndex fov aspectRatio camera lights materials :
  validFrame this ->
  0 <= pixelIndex < m_Width this * m_Height this ->
  let viewRay := viewRayOf this (pixelIndex mod m_Width this)
                           (pixelIndex / m_Width this) fov aspectRatio camera in
  let closestHit := GetClosestHit pScene viewRay HitRecord_default in
  (forall light, In light lights -> frontFacing closestHit light = true ->
     answers1 (shadowRayTo closestHit light)
     = answers2 (shadowRayTo closestHit light)) ->
  RenderPixel this (withDoesHit pScene answers1) pixelIndex fov aspectRatio
              camera lights materials
  = RenderPixel this (withDoesHit pScene answers2) pixelIndex fov aspectRatio
                camera lights materials.
Proof.
  intros (Hw & Hh & Hfit & Hlen) Hi viewRay closestHit Hagree.
  destruct (pixel_coordinates this pixelIndex) as (Hpx & Hpy & _); [nia|lia|].
  unfold RenderPixel. rewrite Hpx, Hpy. cbn [defined]. rewrite !bind_ret_l.
  fold viewRay.
  replace (shadePixel this (withDoesHit pScene answers1) viewRay lights materials)
    with (shadePixel this (withDoesHit pScene answers2) viewRay lights materials);
    [reflexivity|].
  unfold shadePixel, call. rewrite !bind_Some_l.
  cbn [withDoesHit GetClosestHit]. fold closestHit.
  destruct (HitRecord.didHit closestHit); [|reflexivity].
  rewrite (lightLoop_answers this pScene answers2 answers1); [reflexivity| |reflexivity].
  intros light Hin Hfront. symmetry. now apply Hagree.
Qed.

(** *** Indices outside the surface *)

Lemma pixelWrite_offset_exact this pScene fov aspectRatio camera lights
    materials pixelIndex offset value :
  0 < m_Width this <= INT_MAX ->
  0 <= pixelIndex <= INT_MAX ->
  pixelWrite this pScene fov aspectRatio camera lights materials pixelIndex
    = Some (offset, value) ->
  offset = pixelIndex.
Proof.
  intros Hw Hi. unfold pixelWrite.
  destruct (pixel_coordinates this pixelIndex Hw Hi) as (-> & -> & ->).
  destruct (shadePixel _ _ _ _ _) as [[color calls]|]; [|discriminate].
  destruct (F32.to_uint8 _); [|discriminate].
  destruct (F32.to_uint8 _); [|discriminate].
  destruct (F32.to_uint8 _); [|discriminate].
  now intros [= <- _].
Qed.

(** X7: the pixel index is not checked against the surface: for a window
    of positive width, a call of RenderPixel with an index at or past the
    end of the pixel array is undefined; it does not clamp the index and
    does not skip the store. *)
Theorem RenderPixel_past_the_surface this pScene pixelIndex fov aspectRatio
    camera lights materials :
  0 < m_Width this <= INT_MAX ->
  Z.of_nat (length (m_pBufferPixels this)) <= pixelIndex <= INT_MAX ->
  RenderPixel this pScene pixelIndex fov aspectRatio camera lights materials
  = None.
Proof.
  intros Hw Hi.
  pose proof (RenderPixel_pixelWrite this pScene pixelIndex fov aspectRatio
                camera lights materials) as Hpixel.
  destruct (pixelWrite this pScene fov aspectRatio camera lights materials
                       pixelIndex) as [[offset value]|] eqn:Hwrite.
  - apply pixelWrite_offset_exact in Hwrite as ->; [|lia..].
    unfold store in Hpixel.
    destruct (Z.ltb_spec pixelIndex (Z.of_nat (length (m_pBufferPixels this))));
      [lia|].
    rewrite andb_false_r in Hpixel.
    now destruct (RenderPixel _ _ _ _ _ _ _ _).
  - now destruct (RenderPixel _ _ _ _ _ _ _ _).
Qed.

(** *** What a frame leaves in the pixel array *)

Lemma store_inv buffer offset value buffer' :
  store buffer offset value = Some buffer' ->
  0 <= offset < Z.of_nat (length buffer) /\
  buffer' = <[Z.to_nat offset := value]> buffer.
Proof.
  unfold store.
  destruct (Z.leb_spec 0 offset), (Z.ltb_spec offset (Z.of_nat (length buffer)));
    cbn; intros [=]; auto with lia.
Qed.

Lemma applyWrites_inv writes :
  forall buffer buffer',
    applyWrites writes buffer = Some buffer' ->
    length buffer' = length buffer /\
    forall write, In write writes ->
      exists offset value,
        write = Some (offset, value) /\
        0 <= offset < Z.of_nat (length buffer).
Proof.
  induction writes as [|write rest IH]; intros buffer buffer' Hrun.
  - injection Hrun as <-. split; [reflexivity|intros ? []].
  - destruct write as [[offset value]|]; [|discriminate].
    cbn [applyWrites] in Hrun.
    destruct (store buffer offset value) as [mid|] eqn:Hstore; [|discriminate].
    apply store_inv in Hstore as [Hrange ->].
    apply IH in Hrun as [Hlen Hrest]. rewrite length_insert in Hlen, Hrest.
    split; [exact Hlen|].
    intros write [<-|Hin]; [eauto|auto].
Qed.

Lemma applyWrites_untouched writes :
  forall buffer buffer' k,
    applyWrites writes buffer = Some buffer' ->
    (forall offset value, In (Some (offset, value)) writes ->
       Z.to_nat offset <> k) ->
    buffer' !! k = buffer !! k.
Proof.
  induction writes as [|write rest IH]; intros buffer buffer' k Hrun Hother.
  - now injection Hrun as <-.
  - destruct write as [[offset value]|]; [|discriminate].
    cbn [applyWrites] in Hrun.
    destruct (store buffer offset value) as [mid|] eqn:Hstore; [|discriminate].
    apply store_inv in Hstore as [Hrange ->].
    rewrite (IH _ _ k Hrun) by (intros o v Hin; apply (Hother o v); now right).
    apply list_lookup_insert_ne. apply (Hother offset value). now left.
Qed.

Lemma applyWrites_lookup writes :
  NoDup (offsets writes) ->
  forall buffer buffer' offset value,
    applyWrites writes buffer = Some buffer' ->
    In (Some (offset, value)) writes ->
    buffer' !! Z.to_nat offset = Some value.
Proof.
  induction writes as [|write rest IH];
    intros Hnodup buffer buffer' offset value Hrun Hin; [destruct Hin|].
  destruct write as [[offset0 value0]|]; [|discriminate].
  rewrite offsets_cons in Hnodup.
  pose proof (NoDup_cons_1_1 _ _ Hnodup) as Hfresh.
  apply NoDup_cons_1_2 in Hnodup.
  cbn [applyWrites] in Hrun.
  destruct (store buffer offset0 value0) as [mid|] eqn:Hstore; [|discriminate].
  apply store_inv in Hstore as [Hrange ->].
  destruct Hin as [[= <- <-]|Hin].
  - rewrite (applyWrites_untouched _ _ _ (Z.to_nat offset0) Hrun).
    + apply list_lookup_insert_eq. lia.
    + intros o v Hin Heq.
      destruct (proj2 (applyWrites_inv _ _ _ Hrun) _ Hin)
        as (o' & v' & [= <- <-] & Ho).
      assert (o = offset0) as -> by lia.
      apply Hfresh. clear -Hin.
      induction rest as [|write rest IH]; [destruct Hin|].
      rewrite offsets_cons. destruct Hin as [->|Hin].
      * apply list_elem_of_here.
      * destruct write as [[? ?]|]; [apply list_elem_of_further|]; auto.
  - eapply IH; eassumption.
Qed.

Lemma applyWrites_defined writes :
  forall buffer buffer' other,
    applyWrites writes buffer = Some buffer' ->
    length other = length buffer ->
    exists other', applyWrites writes other = Some other'.
Proof.
  induction writes as [|write rest IH]; intros buffer buffer' other Hrun Hlen.
  - cbn. eauto.
  - destruct write as [[offset value]|]; [|discriminate].
    cbn [applyWrites] in *.
    destruct (store buffer offset value) as [mid|] eqn:Hstore; [|discriminate].
    apply store_inv in Hstore as [Hrange ->].
    rewrite store_Some by lia.
    eapply IH; [exact Hrun|]. now rewrite !length_insert.
Qed.

(** The order in which a strategy calls RenderPixel is an arrangement of
    the index range. *)
Lemma schedule_Permutation strategy env numPixels indices :
  0 < hardware_concurrency env ->
  0 <= numPixels < UINT32_MOD ->
  schedule strategy env numPixels = Some indices ->
  Permutation indices (seqZ 0 numPixels).
Proof.
  intros Hcores Hrange. destruct strategy; cbn [schedule].
  - destruct (asyncPartition_cover (hardware_concurrency env) numPixels)
      as (tasks & -> & _ & Hconcat & _); [lia..|].
    intros [= <-]. rewrite <- Hconcat. apply joinAll_Permutation.
  - intros [= <-]. etransitivity; [apply joinAll_Permutation|].
    now rewrite parallelForTasks_concat by lia.
  - now intros [= <-].
Qed.

Lemma Render_framePixels strategy env this pScene :
  Render strategy env this pScene
  = match numPixelsOf this with
    | None => None
    | Some numPixels =>
        match schedule strategy env numPixels with
        | None => None
        | Some indices =>
            option_map (fun buffer => (withBuffer this buffer, frameScene pScene))
              (applyWrites (map (framePixel this pScene) indices)
                           (m_pBufferPixels this))
        end
    end.
Proof.
  rewrite Render_schedule. cbn zeta.
  destruct (numPixelsOf this) as [numPixels|]; [|reflexivity].
  destruct (schedule strategy env numPixels) as [indices|]; [|reflexivity].
  pose proof (renderPixels_applyWrites this (frameScene pScene)
                (frameFov pScene) (frameAspectRatio this)
                (CalculateCameraToWorld (GetCamera pScene))
                (GetLights pScene) (GetMaterials pScene) indices
                (m_pBufferPixels this)) as Hrun.
  rewrite withBuffer_same in Hrun.
  unfold frameScene, frameFov, frameAspectRatio in Hrun.
  rewrite Hrun.
  now destruct (applyWrites _ _).
Qed.

Lemma framePixel_withBuffer this buffer pScene pixelIndex :
  framePixel (withBuffer this buffer) pScene pixelIndex
  = framePixel this pScene pixelIndex.
Proof. apply pixelWrite_withBuffer. Qed.

(** X8: a frame of a valid window, under any of the three strategies and
    any scheduler, stores at every index of the surface the pixel
    RenderPixel computes for that index, and changes nothing else of the
    renderer; what the pixel array held before has no influence on the
    result; and rendering once more a scene whose camera update changes
    nothing reproduces the frame. *)
Theorem Render_fills_the_surface strategy env this pScene this' pScene' :
  validFrame this ->
  0 < hardware_concurrency env ->
  Render strategy env this pScene = Some (this', pScene') ->
  pScene' = frameScene pScene /\
  this' = withBuffer this (m_pBufferPixels this') /\
  validFrame this' /\
  (forall i, 0 <= i < m_Width this * m_Height this ->
     exists value,
       framePixel this pScene i = Some (i, value) /\
       m_pBufferPixels this' !! Z.to_nat i = Some value) /\
  (forall buffer,
      length buffer = length (m_pBufferPixels this) ->
      Render strategy env (withBuffer this buffer) pScene
      = Some (this', pScene')) /\
  (CalculateCameraToWorld (GetCamera pScene') = GetCamera pScene' ->
   Render strategy env this' pScene' = Some (this', pScene')).
Proof.
  intros Hvalid Hcores Hrun.
  pose proof Hvalid as (Hw & Hh & Hfit & Hlen).
  assert (HM : INT_MAX < UINT32_MOD) by (vm_compute; reflexivity).
  assert (Hother : forall buffer,
             length buffer = length (m_pBufferPixels this) ->
             Render strategy env (withBuffer this buffer) pScene
             = Some (this', pScene') /\
             pScene' = frameScene pScene /\
             this' = withBuffer this (m_pBufferPixels this') /\
             length (m_pBufferPixels this') = length (m_pBufferPixels this) /\
             forall i, 0 <= i < m_Width this * m_Height this ->
               exists value,
                 framePixel this pScene i = Some (i, value) /\
                 m_pBufferPixels this' !! Z.to_nat i = Some value).
  { intros other Hlength.
    rewrite Render_framePixels in Hrun |- *.
    change (numPixelsOf (withBuffer this other)) with (numPixelsOf this).
    rewrite (numPixelsOf_valid this Hvalid) in Hrun |- *.
    destruct (schedule strategy env (m_Width this * m_Height this))
      as [indices|] eqn:Hschedule; [|discriminate].
    apply schedule_Permutation in Hschedule; [|assumption|nia].
    destruct (applyWrites _ _) as [buffer'|] eqn:Hwrites; [|discriminate].
    injection Hrun as <- <-. cbn [withBuffer m_pBufferPixels].
    assert (Hnodup : NoDup (offsets (map (framePixel this pScene) indices))).
    { apply pixelWrite_offsets_NoDup.
      - rewrite Hschedule. apply NoDup_seqZ.
      - intros i Hi. apply list_elem_of_In in Hi. rewrite Hschedule in Hi.
        apply elem_of_seqZ in Hi. nia. }
    destruct (applyWrites_inv _ _ _ Hwrites) as [Hlen' Hdefined].
    assert (Hpixels : forall i, 0 <= i < m_Width this * m_Height this ->
               exists value,
                 framePixel this pScene i = Some (i, value) /\
                 In (Some (i, value)) (map (framePixel this pScene) indices)).
    { intros i Hi.
      assert (Hin : In i indices).
      { apply list_elem_of_In. rewrite Hschedule. apply elem_of_seqZ. lia. }
      destruct (Hdefined _ (in_map (framePixel this pScene) _ _ Hin))
        as (offset & value & Hwrite & _).
      pose proof Hwrite as Hexact.
      apply pixelWrite_offset_exact in Hexact as ->; [|nia..].
      exists value. split; [exact Hwrite|].
      rewrite <- Hwrite. now apply in_map. }
    assert (Hlookup : forall i, 0 <= i < m_Width this * m_Height this ->
               exists value,
                 framePixel this pScene i = Some (i, value) /\
                 buffer' !! Z.to_nat i = Some value).
    { intros i Hi. destruct (Hpixels i Hi) as (value & Hwrite & Hin).
      exists value. split; [exact Hwrite|].
      eapply applyWrites_lookup; eassumption. }
    split; [|auto].
    replace (map (framePixel (withBuffer this other) pScene) indices)
      with (map (framePixel this pScene) indices)
      by (apply map_ext; intros; now rewrite framePixel_withBuffer).
    destruct (applyWrites_defined _ _ _ other Hwrites Hlength)
      as (other' & Hwrites').
    rewrite Hwrites'. cbn [option_map].
    change (withBuffer (withBuffer this other) other')
      with (withBuffer this other').
    assert (other' = buffer') as ->; [|reflexivity].
    destruct (applyWrites_inv _ _ _ Hwrites') as [Hlen'' _].
    apply list_eq. intros k.
    destruct (Nat.lt_ge_cases k (length buffer')) as [Hk|Hk].
    - destruct (Hpixels (Z.of_nat k)) as (value & _ & Hin); [lia|].
      rewrite <- (Nat2Z.id k).
      rewrite (applyWrites_lookup _ Hnodup _ _ _ _ Hwrites Hin).
      now rewrite (applyWrites_lookup _ Hnodup _ _ _ _ Hwrites' Hin).
    - rewrite !lookup_ge_None_2 by lia. reflexivity. }
  destruct (Hother (m_pBufferPixels this) eq_refl)
    as (_ & Hscene & Hframe & Hlength & Hpixels).
  split; [exact Hscene|]. split; [exact Hframe|].
  split; [rewrite Hframe; unfold validFrame; cbn [withBuffer m_Width m_Height
            m_pBufferPixels]; rewrite Hlength; auto|].
  split; [exact Hpixels|].
  split; [intros buffer Hbuffer; now apply Hother|].
  intros Hfixed.
  destruct (Hother (m_pBufferPixels this') Hlength) as (Hagain & _).
  rewrite <- Hframe in Hagain. rewrite <- Hagain.
  rewrite !Render_framePixels.
  destruct (numPixelsOf this') as [numPixels|]; [|reflexivity].
  destruct (schedule strategy env numPixels) as [indices|]; [|reflexivity].
  assert (Hsame : frameScene pScene' = frameScene pScene).
  { unfold frameScene at 1. rewrite Hfixed. rewrite Hscene. reflexivity. }
  replace (map (framePixel this' pScene') indices)
    with (map (framePixel this' pScene) indices).
  - now rewrite Hsame.
  - apply map_ext. intros i. unfold framePixel, frameFov.
    rewrite Hsame, Hfixed. rewrite Hscene. reflexivity.
Qed.

(** *** The machine and the window *)

Lemma Render_strategies strategy1 strategy2 env1 env2 this pScene :
  (forall numPixels, 0 <= numPixels < UINT32_MOD ->
     exists indices1 indices2,
       schedule strategy1 env1 numPixels = Some indices1 /\
       schedule strategy2 env2 numPixels = Some indices2 /\
       Permutation indices1 (seqZ 0 numPixels) /\
       Permutation indices2 (seqZ 0 numPixels)) ->
  Render strategy1 env1 this pScene = Render strategy2 env2 this pScene.
Proof.
  intros Hschedules. rewrite !Render_schedule. cbn zeta.
  destruct (numPixelsOf this) as [numPixels|] eqn:Hpixels; [|reflexivity].
  apply numPixelsOf_range in Hpixels.
  destruct (Hschedules numPixels Hpixels)
    as (indices1 & indices2 & -> & -> & Hperm1 & Hperm2).
  f_equal. apply renderPixels_Permutation.
  - now rewrite Hperm1, Hperm2.
  - rewrite Hperm1. apply NoDup_seqZ.
  - intros i Hi. apply list_elem_of_In in Hi. rewrite Hperm1 in Hi.
    apply elem_of_seqZ in Hi. lia.
Qed.

Lemma schedule_defined strategy env numPixels :
  0 < hardware_concurrency env ->
  0 <= numPixels < UINT32_MOD ->
  exists indices,
    schedule strategy env numPixels = Some indices /\
    Permutation indices (seqZ 0 numPixels).
Proof.
  intros Hcores Hrange.
  assert (exists indices, schedule strategy env numPixels = Some indices)
    as (indices & Hschedule).
  { destruct strategy; cbn [schedule]; eauto.
    destruct (asyncPartition_cover (hardware_concurrency env) numPixels)
      as (tasks & -> & _); [lia..|]. eauto. }
  exists indices. split; [exact Hschedule|].
  eapply schedule_Permutation; eassumption.
Qed.

(** X9: the frame does not depend on the machine: for any two strategies,
    any two counts of hardware threads that are not zero and any two
    schedulers, Render returns the same renderer and scene. *)
Theorem frame_independent_of_the_machine strategy1 strategy2 env1 env2 this
    pScene :
  0 < hardware_concurrency env1 ->
  0 < hardware_concurrency env2 ->
  Render strategy1 env1 this pScene = Render strategy2 env2 this pScene.
Proof.
  intros Hcores1 Hcores2. apply Render_strategies. intros numPixels Hrange.
  destruct (schedule_defined strategy1 env1 numPixels Hcores1 Hrange)
    as (indices1 & Hs1 & Hperm1).
  destruct (schedule_defined strategy2 env2 numPixels Hcores2 Hrange)
    as (indices2 & Hs2 & Hperm2).
  exists indices1, indices2. auto.
Qed.

(** X10: when [hardware_concurrency()] returns 0 the task-partitioned
    strategy divides by zero at line 60 and the frame is undefined for
    every window; the data-parallel and the sequential strategy do not
    read the number of threads and still agree. *)
Theorem no_hardware_threads env this pScene :
  hardware_concurrency env = 0 ->
  Render ASYNC env this pScene = None /\
  Render PARALLEL_FOR env this pScene = Render NoThreading env this pScene.
Proof.
  intros Hzero. split.
  - rewrite Render_schedule. cbn zeta.
    destruct (numPixelsOf this); [|reflexivity].
    cbn [schedule]. unfold asyncPartition. now rewrite Hzero.
  - apply Render_strategies. intros numPixels Hrange.
    exists (joinAll (scheduler env) (parallelForTasks numPixels)),
           (seqZ 0 numPixels).
    split; [reflexivity|]. split; [reflexivity|]. split; [|reflexivity].
    etransitivity; [apply joinAll_Permutation|].
    now rewrite parallelForTasks_concat by lia.
Qed.

(** X11: a window without pixels (width or height zero) makes Render call
    RenderPixel not once, under each strategy: the renderer is returned as
    it was, and only the camera of the scene is updated. With a width of
    zero any call of RenderPixel would divide by zero. *)
Theorem empty_window_renders_nothing strategy env this pScene :
  m_Width this * m_Height this = 0 ->
  0 < hardware_concurrency env ->
  schedule strategy env 0 = Some [] /\
  Render strategy env this pScene = Some (this, frameScene pScene) /\
  (m_Width this = 0 ->
   forall pixelIndex fov aspectRatio camera lights materials,
     RenderPixel this pScene pixelIndex fov aspectRatio camera lights materials
     = None).
Proof.
  intros Hempty Hcores.
  assert (Hschedule : schedule strategy env 0 = Some []).
  { destruct (schedule_defined strategy env 0 Hcores) as (indices & -> & Hperm);
      [vm_compute; split; [discriminate|reflexivity]|].
    apply Permutation_nil_r in Hperm. now rewrite Hperm. }
  split; [exact Hschedule|]. split.
  - assert (Hpixels : numPixelsOf this = Some 0)
      by (unfold numPixelsOf; now rewrite Hempty).
    rewrite Render_schedule. cbn zeta. rewrite Hpixels, Hschedule.
    reflexivity.
  - intros Hwidth *. unfold RenderPixel, pixel_px. rewrite Hwidth. reflexivity.
Qed.

(** X12: the body of [parallel_for] takes the index as [int] and passes
    it on as [uint32_t] (lines 98-99): every index below 2^32 comes back
    unchanged, also those above INT_MAX, which are negative in between;
    the tasks of the data-parallel strategy are the singletons of the
    index range. *)
Theorem parallel_for_index_round_trip numPixels :
  0 <= numPixels <= UINT32_MOD ->
  (forall i, 0 <= i < UINT32_MOD ->
     to_uint32 (uint32_to_int i) = i /\
     INT_MIN <= uint32_to_int i <= INT_MAX /\
     (INT_MAX < i -> uint32_to_int i < 0)) /\
  parallelForTasks numPixels = map (fun i => [i]) (seqZ 0 numPixels).
Proof.
  intros Hn.
  assert (Hround : forall i, 0 <= i < UINT32_MOD ->
             to_uint32 (uint32_to_int i) = i /\
             INT_MIN <= uint32_to_int i <= INT_MAX /\
             (INT_MAX < i -> uint32_to_int i < 0)).
  { intros i Hi. unfold uint32_to_int, to_uint32.
    assert (HM : UINT32_MOD = 2 * INT_MAX + 2) by reflexivity.
    assert (Hm : INT_MIN = - INT_MAX - 1) by reflexivity.
    assert (Hpos : 0 < INT_MAX) by reflexivity.
    destruct (Z.leb_spec i INT_MAX).
    - split; [apply Z.mod_small; lia|lia].
    - split; [|lia].
      replace (i - UINT32_MOD) with (i + (-1) * UINT32_MOD) by lia.
      rewrite Z.mod_add by lia. apply Z.mod_small. lia. }
  split; [exact Hround|].
  unfold parallelForTasks. apply map_ext_in.
  intros i Hi%list_elem_of_In%elem_of_seqZ.
  f_equal. apply Hround. lia.
Qed.

(** X13: SaveBufferToImage hands the renderer's pixel array to
    [SDL_SaveBMP] under the fixed file name "RayTracing_Buffer.bmp" and
    returns the [int] result converted to [bool] (line 208): it returns
    [false] exactly when [SDL_SaveBMP] returns 0 and [true] for every other
    code, the negative ones included; the renderer is left as it is. *)
Theorem SaveBufferToImage_returns_the_code
    (SDL_SaveBMP : list Z -> string -> Z) this :
  let code := SDL_SaveBMP (m_pBufferPixels this) "RayTracing_Buffer.bmp" in
  let run := SaveBufferToImage SDL_SaveBMP this in
  (fst run = false <-> code = 0) /\
  (fst run = true <-> code <> 0) /\
  snd run = this.
Proof.
  cbn [SaveBufferToImage fst snd]. unfold int_to_bool.
  destruct (Z.eqb_spec (SDL_SaveBMP (m_pBufferPixels this)
                                    "RayTracing_Buffer.bmp") 0) as [->|Hne];
    cbn [negb]; repeat split; intros; try congruence; try discriminate.
Qed.

(** *** The queries a pixel costs *)

Lemma lightLoop_log this pScene viewRay closestHit materials lights :
  forall st st' calls,
    Ray.min (shadowRay st) = F32.c0_01 ->
    lightLoop this pScene viewRay closestHit materials lights st
      = Some (st', calls) ->
    calls = flat_map (iterationCalls this pScene viewRay closestHit) lights.
Proof.
  induction lights as [|light rest IH]; intros st st' calls Hmin Hrun.
  - now injection Hrun as _ <-.
  - cbn [lightLoop] in Hrun. apply bind_Some in Hrun.
    destruct Hrun as (mid & calls1 & calls2 & Hiter & Hrest & ->).
    cbn [flat_map]. f_equal.
    + destruct (contributes this pScene closestHit light) eqn:Hactive.
      * destruct (materials !! HitRecord.materialIndex closestHit) eqn:Hmat.
        -- erewrite lightIteration_active in Hiter by eassumption.
           now injection Hiter as _ <-.
        -- rewrite lightIteration_missing in Hiter by assumption. discriminate.
      * rewrite lightIteration_idle in Hiter by assumption.
        now injection Hiter as _ <-.
    + eapply IH; [|exact Hrest].
      apply lightIteration_min in Hiter. congruence.
Qed.

Lemma iterationCalls_counts this pScene viewRay closestHit lights :
  (length (shadeCalls
             (flat_map (iterationCalls this pScene viewRay closestHit) lights))
   <= length (doesHitCalls
                (flat_map (iterationCalls this pScene viewRay closestHit) lights))
   <= length lights)%nat /\
  (length (flat_map (iterationCalls this pScene viewRay closestHit) lights)
   <= 4 * length lights)%nat.
Proof.
  induction lights as [|light rest IH]; [cbn; lia|].
  cbn [flat_map]. rewrite shadeCalls_app, doesHitCalls_app, !length_app.
  assert ((length (shadeCalls (iterationCalls this pScene viewRay closestHit
                                 light))
           <= length (doesHitCalls (iterationCalls this pScene viewRay
                                      closestHit light)) <= 1)%nat /\
          (length (iterationCalls this pScene viewRay closestHit light)
           <= 4)%nat) as [Hone Hfour].
  { unfold iterationCalls.
    destruct (frontFacing closestHit light),
             (contributes this pScene closestHit light); cbn; lia. }
  cbn [length]. lia.
Qed.

(** X14: a call of RenderPixel that returns has made one closest-hit query
    and, when the view ray hit, for each light in order: one direction
    query, one any-hit query unless the light is culled, and one radiance
    query and one Shade call when the light is let through; so there are
    never more Shade calls than any-hit queries, nor more any-hit queries
    than lights. *)
Theorem RenderPixel_queries this pScene pixelIndex fov aspectRatio camera
    lights materials this' calls :
  validFrame this ->
  0 <= pixelIndex < m_Width this * m_Height this ->
  RenderPixel this pScene pixelIndex fov aspectRatio camera lights materials
    = Some (this', calls) ->
  let viewRay := viewRayOf this (pixelIndex mod m_Width this)
                           (pixelIndex / m_Width this) fov aspectRatio camera in
  let closestHit := GetClosestHit pScene viewRay HitRecord_default in
  calls
  = Call_GetClosestHit viewRay
    :: (if HitRecord.didHit closestHit
        then flat_map (iterationCalls this pScene viewRay closestHit) lights
        else []) /\
  (length (shadeCalls calls) <= length (doesHitCalls calls) <= length lights)%nat /\
  (length calls <= 1 + 4 * length lights)%nat.
Proof.
  intros (Hw & Hh & Hfit & Hlen) Hi Hrun viewRay closestHit.
  apply RenderPixel_inv in Hrun.
  destruct Hrun as (px & py & color & offset & r8 & g8 & b8 & buffer
                    & Hpx & Hpy & Hshade & _).
  destruct (pixel_coordinates this pixelIndex) as (Hpx' & Hpy' & _); [nia|lia|].
  assert (px = pixelIndex mod m_Width this) as -> by congruence.
  assert (py = pixelIndex / m_Width this) as -> by congruence.
  fold viewRay in Hshade.
  assert (Hcalls : calls
                   = Call_GetClosestHit viewRay
                     :: (if HitRecord.didHit closestHit
                         then flat_map (iterationCalls this pScene viewRay
                                          closestHit) lights
                         else [])).
  { destruct (HitRecord.didHit closestHit) eqn:Hhit.
    - rewrite shadePixel_hit in Hshade by assumption. fold closestHit in Hshade.
      destruct (lightLoop _ _ _ _ _ _ _) as [[st calls']|] eqn:Hloop;
        [|discriminate].
      injection Hshade as _ <-. f_equal.
      eapply lightLoop_log; [|exact Hloop]. reflexivity.
    - rewrite shadePixel_miss in Hshade by assumption.
      now injection Hshade as _ <-. }
  split; [exact Hcalls|]. rewrite Hcalls.
  cbn [shadeCalls doesHitCalls length].
  destruct (HitRecord.didHit closestHit); [|cbn; lia].
  pose proof (iterationCalls_counts this pScene viewRay closestHit lights). lia.
Qed.

(** *** The shadow setting where nothing is blocked *)

Lemma lightIteration_unblocked this pScene viewRay closestHit materials light st :
  Ray.min (shadowRay st) = F32.c0_01 ->
  (frontFacing closestHit light = true ->
   DoesHit pScene (shadowRayTo closestHit light) = false) ->
  lightIteration (withShadows this true) pScene viewRay closestHit materials
                 light st
  = lightIteration (withShadows this false) pScene viewRay closestHit materials
                   light st.
Proof.
  intros Hmin Hfree. unfold lightIteration, bind, call.
  rewrite aimShadowRay_shadowDir.
  destruct (F32.ltb _ _) eqn:Hdot; [reflexivity|].
  rewrite (aimShadowRay_shadowRay closestHit light st Hmin).
  rewrite Hfree by (unfold frontFacing; now rewrite Hdot).
  reflexivity.
Qed.

Lemma lightLoop_unblocked this pScene viewRay closestHit materials lights :
  (forall light, In light lights -> frontFacing closestHit light = true ->
     DoesHit pScene (shadowRayTo closestHit light) = false) ->
  forall st,
    Ray.min (shadowRay st) = F32.c0_01 ->
    lightLoop (withShadows this true) pScene viewRay closestHit materials
              lights st
    = lightLoop (withShadows this false) pScene viewRay closestHit materials
                lights st.
Proof.
  induction lights as [|light rest IH]; intros Hfree st Hmin; [reflexivity|].
  cbn [lightLoop].
  rewrite (lightIteration_unblocked this) by (auto using in_eq).
  destruct (lightIteration _ _ _ _ _ _ _) as [[mid calls]|] eqn:Hiter;
    [|reflexivity].
  rewrite !bind_Some_l, IH; [reflexivity|auto using in_cons|].
  apply lightIteration_min in Hiter. congruence.
Qed.

(** X15: where the any-hit query reports no shadow ray of a light that is
    not culled as blocked, the setting of [m_ShadowsEnabled] makes no
    difference: the color of the pixel before tone mapping and the log are
    the same with shadows enabled and disabled. *)
Theorem shadow_setting_without_occluders this pScene viewRay lights materials :
  let closestHit := GetClosestHit pScene viewRay HitRecord_default in
  (forall light, In light lights -> frontFacing closestHit light = true ->
     DoesHit pScene (shadowRayTo closestHit light) = false) ->
  shadePixel (withShadows this true) pScene viewRay lights materials
  = shadePixel (withShadows this false) pScene viewRay lights materials.
Proof.
  intros closestHit Hfree. unfold shadePixel, call. rewrite !bind_Some_l.
  fold closestHit. destruct (HitRecord.didHit closestHit); [|reflexivity].
  now rewrite (lightLoop_unblocked this pScene viewRay closestHit materials
                 lights Hfree loopEntry eq_refl).
Qed.

(** *** A frame as the calls of RenderPixel *)

Lemma bind_assoc {A B C : Type} (m : M A) (f : A -> M B) (g : B -> M C) :
  bind (bind m f) g = bind m (fun a => bind (f a) g).
Proof.
  unfold bind. destruct m as [[a calls1]|]; [|reflexivity].
  destruct (f a) as [[b calls2]|]; [|reflexivity].
  destruct (g b) as [[c calls3]|]; [|reflexivity].
  now rewrite app_assoc.
Qed.

Lemma bind_ret_r {A : Type} (m : M A) : bind m ret = m.
Proof.
  unfold bind, ret. destruct m as [[a calls]|]; [|reflexivity].
  now rewrite app_nil_r.
Qed.

(** The loop over the indices, unrolled from the left: each index adds one
    call of RenderPixel on the renderer the calls before it left. *)
Lemma renderPixels_fold pScene fov aspectRatio camera lights materials indices :
  forall frame : M Renderer,
    fold_left (fun frame pixelIndex =>
                 bind frame (fun this' =>
                   RenderPixel this' pScene pixelIndex fov aspectRatio camera
                               lights materials))
              indices frame
    = bind frame (renderPixels pScene fov aspectRatio camera lights materials
                               indices).
Proof.
  induction indices as [|pixelIndex rest IH]; intros frame; cbn [fold_left].
  - symmetry. apply (bind_ret_r frame).
  - rewrite IH, bind_assoc. reflexivity.
Qed.

Lemma closestHitCalls_app (calls1 calls2 : list (Call Light)) :
  closestHitCalls (calls1 ++ calls2)
  = closestHitCalls calls1 ++ closestHitCalls calls2.
Proof.
  induction calls1 as [|[] rest IH]; cbn [closestHitCalls app]; [reflexivity|..];
    now rewrite IH.
Qed.

Lemma closestHitCalls_loop this pScene viewRay closestHit lights :
  closestHitCalls (flat_map (iterationCalls this pScene viewRay closestHit) lights)
  = [].
Proof.
  induction lights as [|light rest IH]; [reflexivity|].
  cbn [flat_map]. rewrite closestHitCalls_app, IH.
  unfold iterationCalls.
  destruct (frontFacing closestHit light),
           (contributes this pScene closestHit light); reflexivity.
Qed.

(** A call of RenderPixel asks for the closest hit once, along the view ray
    of its pixel. *)
Lemma RenderPixel_closestHitCalls this pScene pixelIndex fov aspectRatio camera
    lights materials this' calls :
  0 < m_Width this <= INT_MAX ->
  0 <= pixelIndex <= INT_MAX ->
  RenderPixel this pScene pixelIndex fov aspectRatio camera lights materials
    = Some (this', calls) ->
  closestHitCalls calls
  = [viewRayOf this (pixelIndex mod m_Width this) (pixelIndex / m_Width this)
               fov aspectRatio camera].
Proof.
  intros Hw Hi Hrun.
  apply RenderPixel_inv in Hrun.
  destruct Hrun as (px & py & color & offset & r8 & g8 & b8 & buffer
                    & Hpx & Hpy & Hshade & _).
  destruct (pixel_coordinates this pixelIndex Hw Hi) as (Hpx' & Hpy' & _).
  assert (px = pixelIndex mod m_Width this) as -> by congruence.
  assert (py = pixelIndex / m_Width this) as -> by congruence.
  set (viewRay := viewRayOf this _ _ fov aspectRatio camera) in *.
  destruct (HitRecord.didHit (GetClosestHit pScene viewRay HitRecord_default))
    eqn:Hhit.
  - rewrite shadePixel_hit in Hshade by assumption.
    destruct (lightLoop _ _ _ _ _ _ _) as [[st calls']|] eqn:Hloop;
      [|discriminate].
    injection Hshade as _ <-. cbn [closestHitCalls]. f_equal.
    apply lightLoop_log in Hloop; [|reflexivity].
    rewrite Hloop. apply closestHitCalls_loop.
  - rewrite shadePixel_miss in Hshade by assumption.
    now injection Hshade as _ <-.
Qed.

Lemma renderPixels_closestHitCalls this pScene fov aspectRatio camera lights
    materials indices :
  0 < m_Width this <= INT_MAX ->
  (forall i, In i indices -> 0 <= i <= INT_MAX) ->
  forall buffer this' calls,
    renderPixels pScene fov aspectRatio camera lights materials indices
                 (withBuffer this buffer) = Some (this', calls) ->
    closestHitCalls calls
    = map (fun i => viewRayOf this (i mod m_Width this) (i / m_Width this)
                              fov aspectRatio camera) indices.
Proof.
  intros Hw. induction indices as [|pixelIndex rest IH];
    intros Hrange buffer this' calls Hrun.
  - now injection Hrun as _ <-.
  - cbn [renderPixels] in Hrun. apply bind_Some in Hrun.
    destruct Hrun as (mid & calls1 & calls2 & Hpixel & Hrest & ->).
    rewrite closestHitCalls_app. cbn [map].
    pose proof (RenderPixel_frame _ _ _ _ _ _ _ _ _ _ Hpixel) as Hmid.
    apply RenderPixel_closestHitCalls in Hpixel;
      [|exact Hw|apply Hrange; now left].
    rewrite Hpixel. cbn [app]. f_equal.
    rewrite Hmid in Hrest.
    change (withBuffer (withBuffer this buffer) (m_pBufferPixels mid))
      with (withBuffer this (m_pBufferPixels mid)) in Hrest.
    eapply IH; [|exact Hrest].
    intros i Hin. apply Hrange. now right.
Qed.

(** After the calls for an arrangement of the index range of a valid
    window, every slot of the pixel array holds the pixel that the call of
    RenderPixel for its index stores. *)
Lemma renderPixels_stored this pScene fov aspectRatio camera lights materials
    indices this' calls :
  validFrame this ->
  Permutation indices (seqZ 0 (m_Width this * m_Height this)) ->
  renderPixels pScene fov aspectRatio camera lights materials indices this
    = Some (this', calls) ->
  forall i, 0 <= i < m_Width this * m_Height this ->
    exists value log,
      RenderPixel this pScene i fov aspectRatio camera lights materials
      = Some (withBuffer this (<[Z.to_nat i := value]> (m_pBufferPixels this)),
              log) /\
      m_pBufferPixels this' !! Z.to_nat i = Some value.
Proof.
  intros Hvalid Hperm Hrun i Hi.
  pose proof Hvalid as (Hw & Hh & Hfit & Hlen).
  pose proof (renderPixels_applyWrites this pScene fov aspectRatio camera lights
                materials indices (m_pBufferPixels this)) as Hwrites.
  rewrite withBuffer_same, Hrun in Hwrites. cbn [option_map fst] in Hwrites.
  destruct (applyWrites _ _) as [buffer'|] eqn:Happly; [|discriminate].
  injection Hwrites as ->. cbn [withBuffer m_pBufferPixels].
  assert (Hnodup : NoDup (offsets (map (pixelWrite this pScene fov aspectRatio
                                          camera lights materials) indices))).
  { apply pixelWrite_offsets_NoDup.
    - rewrite Hperm. apply NoDup_seqZ.
    - intros j Hj. apply list_elem_of_In in Hj. rewrite Hperm in Hj.
      apply elem_of_seqZ in Hj.
      assert (HM : INT_MAX < UINT32_MOD) by (vm_compute; reflexivity). nia. }
  assert (Hin : In i indices).
  { apply list_elem_of_In. rewrite Hperm. apply elem_of_seqZ. lia. }
  destruct (proj2 (applyWrites_inv _ _ _ Happly) _
              (in_map (pixelWrite this pScene fov aspectRatio camera lights
                                  materials) _ _ Hin))
    as (offset & value & Hwrite & _).
  pose proof Hwrite as Hexact.
  apply pixelWrite_offset_exact in Hexact as ->; [|nia..].
  pose proof (RenderPixel_pixelWrite this pScene i fov aspectRatio camera lights
                materials) as Hpixel.
  rewrite Hwrite, store_Some in Hpixel by lia. cbn [option_map] in Hpixel.
  destruct (RenderPixel this pScene i fov aspectRatio camera lights materials)
    as [[this1 log]|]; [|discriminate].
  injection Hpixel as ->.
  exists value, log. split; [reflexivity|].
  eapply applyWrites_lookup; [exact Hnodup|exact Happly|].
  rewrite <- Hwrite. now apply in_map.
Qed.

(** C2: when the machine reports at least one hardware thread, the loop of
    the task-partitioned strategy cuts the index range [0, numPixels) into
    numCores contiguous chunks of numPixels/numCores indices, the first
    numPixels mod numCores of them one index longer, which cover the range
    exactly once; under every scheduler the order in which the
    task-partitioned and the data-parallel strategy take the indices is an
    arrangement of the range the sequential loop walks; and the three
    strategies leave the same renderer and pixel array. Under each
    strategy Render is one call of RenderPixel for each index of that
    order, each on the renderer the calls before it left, with the scene,
    the field of view and the aspect ratio of the frame; a frame of a valid
    window that returns has asked for the closest hit once per index of the
    order, along the view ray of that index, and holds at every index of
    the range the pixel that the call of RenderPixel for this index
    stores. *)
Theorem execution_strategies_agree env this pScene :
  0 < hardware_concurrency env < UINT32_MOD ->
  (forall numPixels,
      numPixelsOf this = Some numPixels ->
      exists tasks asyncIndices parallelIndices,
        asyncPartition (hardware_concurrency env) numPixels = Some tasks /\
        length tasks = Z.to_nat (hardware_concurrency env) /\
        (forall k, 0 <= k < hardware_concurrency env ->
           tasks !! Z.to_nat k
           = Some (seqZ (k * (numPixels / hardware_concurrency env)
                         + Z.min k (numPixels mod hardware_concurrency env))
                        (numPixels / hardware_concurrency env
                         + (if k <? numPixels mod hardware_concurrency env
                            then 1 else 0)))) /\
        concat tasks = seqZ 0 numPixels /\
        schedule ASYNC env numPixels = Some asyncIndices /\
        Permutation asyncIndices (seqZ 0 numPixels) /\
        schedule PARALLEL_FOR env numPixels = Some parallelIndices /\
        Permutation parallelIndices (seqZ 0 numPixels) /\
        schedule NoThreading env numPixels = Some (seqZ 0 numPixels)) /\
  (validFrame this ->
   numPixelsOf this = Some (m_Width this * m_Height this)) /\
  Render ASYNC env this pScene = Render NoThreading env this pScene /\
  Render PARALLEL_FOR env this pScene = Render NoThreading env this pScene /\
  (forall strategy,
      Render strategy env this pScene
      = match numPixelsOf this with
        | None => None
        | Some numPixels =>
            match schedule strategy env numPixels with
            | None => None
            | Some indices =>
                match fold_left
                        (fun frame pixelIndex =>
                           bind frame (fun this' =>
                             RenderPixel this' (frameScene pScene) pixelIndex
                                         (frameFov pScene) (frameAspectRatio this)
                                         (CalculateCameraToWorld (GetCamera pScene))
                                         (GetLights pScene) (GetMaterials pScene)))
                        indices (ret this) with
                | Some (this', _) => Some (this', frameScene pScene)
                | None => None
                end
            end
        end) /\
  (forall strategy this' pScene',
      validFrame this ->
      Render strategy env this pScene = Some (this', pScene') ->
      exists indices calls,
        schedule strategy env (m_Width this * m_Height this) = Some indices /\
        Permutation indices (seqZ 0 (m_Width this * m_Height this)) /\
        renderPixels (frameScene pScene) (frameFov pScene)
                     (frameAspectRatio this)
                     (CalculateCameraToWorld (GetCamera pScene))
                     (GetLights pScene) (GetMaterials pScene) indices this
        = Some (this', calls) /\
        closestHitCalls calls
        = map (fun i => viewRayOf this (i mod m_Width this) (i / m_Width this)
                                  (frameFov pScene) (frameAspectRatio this)
                                  (CalculateCameraToWorld (GetCamera pScene)))
              indices /\
        forall i, 0 <= i < m_Width this * m_Height this ->
          exists value log,
            RenderPixel this (frameScene pScene) i (frameFov pScene)
                        (frameAspectRatio this)
                        (CalculateCameraToWorld (GetCamera pScene))
                        (GetLights pScene) (GetMaterials pScene)
            = Some (withBuffer this
                      (<[Z.to_nat i := value]> (m_pBufferPixels this)), log) /\
            m_pBufferPixels this' !! Z.to_nat i = Some value).
Proof.
  intros Hcores.
  assert (Hschedules : forall numPixels,
             0 <= numPixels < UINT32_MOD ->
             exists tasks asyncIndices parallelIndices,
               asyncPartition (hardware_concurrency env) numPixels = Some tasks /\
               length tasks = Z.to_nat (hardware_concurrency env) /\
               (forall k, 0 <= k < hardware_concurrency env ->
                  tasks !! Z.to_nat k
                  = Some (seqZ (k * (numPixels / hardware_concurrency env)
                                + Z.min k (numPixels mod hardware_concurrency env))
                               (numPixels / hardware_concurrency env
                                + (if k <? numPixels mod hardware_concurrency env
                                   then 1 else 0)))) /\
               concat tasks = seqZ 0 numPixels /\
               schedule ASYNC env numPixels = Some asyncIndices /\
               Permutation asyncIndices (seqZ 0 numPixels) /\
               schedule PARALLEL_FOR env numPixels = Some parallelIndices /\
               Permutation parallelIndices (seqZ 0 numPixels) /\
               schedule NoThreading env numPixels = Some (seqZ 0 numPixels)).
  { intros numPixels Hrange.
    destruct (asyncPartition_cover (hardware_concurrency env) numPixels)
      as (tasks & Hpartition & Hlength & Hconcat & Hchunks); [lia..|].
    exists tasks, (joinAll (scheduler env) tasks),
           (joinAll (scheduler env) (parallelForTasks numPixels)).
    split; [exact Hpartition|]. split; [exact Hlength|].
    split; [exact Hchunks|]. split; [exact Hconcat|].
    split; [cbn [schedule]; now rewrite Hpartition|].
    split; [rewrite <- Hconcat; apply joinAll_Permutation|].
    split; [reflexivity|].
    split; [|reflexivity].
    etransitivity; [apply joinAll_Permutation|].
    now rewrite parallelForTasks_concat by lia. }
  split; [|split; [exact (numPixelsOf_valid this)|]].
  { intros numPixels Hpixels. apply Hschedules.
    eapply numPixelsOf_range. eassumption. }
  assert (Hsame : Render ASYNC env this pScene = Render NoThreading env this pScene
                  /\ Render PARALLEL_FOR env this pScene
                     = Render NoThreading env this pScene).
  { rewrite !Render_schedule. cbn zeta.
    destruct (numPixelsOf this) as [numPixels|] eqn:Hpixels; [|split; reflexivity].
    apply numPixelsOf_range in Hpixels.
    destruct (Hschedules numPixels Hpixels)
      as (tasks & asyncIndices & parallelIndices & _ & _ & _ & _
          & Hs_async & Hasync & Hs_parallel & Hparallel & Hs_none).
    rewrite Hs_async, Hs_parallel, Hs_none.
    assert (Hrange : forall i, In i (seqZ 0 numPixels) -> 0 <= i < UINT32_MOD).
    { intros i Hi%list_elem_of_In%elem_of_seqZ. lia. }
    split; f_equal; symmetry;
      (apply renderPixels_Permutation;
       [now symmetry|apply NoDup_seqZ|exact Hrange]). }
  split; [exact (proj1 Hsame)|]. split; [exact (proj2 Hsame)|].
  split.
  - intros strategy. rewrite Render_schedule. cbn zeta.
    destruct (numPixelsOf this) as [numPixels|]; [|reflexivity].
    destruct (schedule strategy env numPixels) as [indices|]; [|reflexivity].
    rewrite renderPixels_fold, bind_ret_l.
    unfold frameScene, frameFov, frameAspectRatio.
    destruct (renderPixels _ _ _ _ _ _ _ _) as [[this' calls]|]; reflexivity.
  - intros strategy this' pScene' Hvalid Hrun.
    pose proof Hvalid as (Hw & Hh & Hfit & Hlen).
    rewrite Render_schedule in Hrun. cbn zeta in Hrun.
    rewrite (numPixelsOf_valid this Hvalid) in Hrun.
    destruct (schedule strategy env (m_Width this * m_Height this))
      as [indices|] eqn:Hschedule; [|discriminate].
    fold (frameScene pScene) (frameFov pScene) (frameAspectRatio this) in Hrun.
    destruct (renderPixels _ _ _ _ _ _ _ _) as [[this1 calls]|] eqn:Hframe;
      [|discriminate].
    injection Hrun as <- _.
    assert (HM : INT_MAX < UINT32_MOD) by (vm_compute; reflexivity).
    assert (Hperm : Permutation indices (seqZ 0 (m_Width this * m_Height this))).
    { eapply schedule_Permutation; [|nia|exact Hschedule]. lia. }
    exists indices, calls.
    split; [reflexivity|]. split; [exact Hperm|]. split; [exact Hframe|].
    split.
    + rewrite <- (withBuffer_same this) in Hframe at 2.
      eapply renderPixels_closestHitCalls; [nia| |exact Hframe].
      intros i Hi. apply list_elem_of_In in Hi. rewrite Hperm in Hi.
      apply elem_of_seqZ in Hi. lia.
    + eapply renderPixels_stored; eassumption.
Qed.

End Properties.

(** ** The theorems at work on the sample scene *)

#[local] Existing Instance Sample.math.
#[local] Existing Instance Sample.camera.
#[local] Existing Instance Sample.lightUtils.
#[local] Existing Instance Sample.sdl.

(** Four steps from BRDF come back to BRDF; one step from Combined is
    ObservedArea. *)
Lemma CycleLightingMode_cycle_witness :
  CycleLightingMode (CycleLightingMode (CycleLightingMode (CycleLightingMode
    (Sample.renderer BRDF true)))) = Sample.renderer BRDF true /\
  m_CurrentLightingMode (CycleLightingMode (Sample.renderer Combined true))
  = ObservedArea.
Proof.
  pose proof (CycleLightingMode_cycle (Sample.renderer BRDF true)) as Hcycle.
  split.
  - exact (proj1 (proj2 Hcycle)).
  - exact (proj1 Hcycle Combined).
Defined.

(** Index 5 of the 4 by 2 window is the pixel (1, 1). *)
Lemma pixel_index_bijection_witness :
  validFrame (Sample.renderer Combined true) /\
  0 <= 5 < 4 * 2 /\
  pixel_px (Sample.renderer Combined true) 5 = Some 1 /\
  pixel_py (Sample.renderer Combined true) 5 = Some 1 /\
  pixel_offset (Sample.renderer Combined true) 1 1 = Some 5.
Proof.
  assert (Hvalid : validFrame (Sample.renderer Combined true))
    by (vm_compute; intuition (reflexivity || discriminate)).
  assert (Hin : 0 <= 5 < 4 * 2) by lia.
  split; [exact Hvalid|]. split; [exact Hin|].
  destruct (proj1 (pixel_index_bijection (Sample.renderer Combined true) Hvalid)
              5 Hin) as (Hpx & Hpy & _ & _ & Hoff).
  split; [exact Hpx|]. split; [exact Hpy|exact Hoff].
Defined.

(** The floor point seen through pixel (1, 1) and the lamp: the Shade call
    of the iteration carries the direction of the view ray itself. *)
Lemma Shade_direction_arguments_witness :
  let this := Sample.renderer Combined true in
  let pScene := Sample.scene [Sample.floor] [Sample.lamp] in
  let viewRay := Sample.pixelRay 1 1 in
  let closestHit := Sample.hitOf [Sample.floor] 1 1 in
  frontFacing closestHit Sample.lamp = true /\
  DoesHit pScene (shadowRayTo closestHit Sample.lamp) && m_ShadowsEnabled this
    = false /\
  [Sample.matte Sample.grey] !! HitRecord.materialIndex closestHit
    = Some (Sample.matte Sample.grey) /\
  exists st' calls,
    lightIteration this pScene viewRay closestHit [Sample.matte Sample.grey]
                   Sample.lamp loopEntry = Some (st', calls) /\
    shadeCalls calls
    = [(Normalized (directionTo closestHit Sample.lamp),
        Normalized (Ray.direction viewRay))].
Proof.
  intros this pScene viewRay closestHit.
  assert (Hfront : frontFacing closestHit Sample.lamp = true)
    by (vm_compute; reflexivity).
  assert (Hlit : DoesHit pScene (shadowRayTo closestHit Sample.lamp)
                 && m_ShadowsEnabled this = false)
    by (vm_compute; reflexivity).
  assert (Hmat : [Sample.matte Sample.grey] !! HitRecord.materialIndex closestHit
                 = Some (Sample.matte Sample.grey))
    by (vm_compute; reflexivity).
  split; [exact Hfront|]. split; [exact Hlit|]. split; [exact Hmat|].
  destruct (proj1 (Shade_direction_arguments this pScene viewRay closestHit
                     [Sample.matte Sample.grey] Sample.lamp loopEntry
                     (Sample.matte Sample.grey) Hfront Hlit Hmat))
    as (st' & calls & Hrun & Hcalls & _).
  exists st', calls. split; [exact Hrun|exact Hcalls].
Defined.

(** C1 as stated fails there: the light passes both tests, and the view
    argument of the Shade call is not the normalised negated direction of
    the view ray. *)
Lemma Shade_negated_view_counterexample :
  let this := Sample.renderer Combined true in
  let pScene := Sample.scene [Sample.floor] [Sample.lamp] in
  let viewRay := Sample.pixelRay 1 1 in
  let closestHit := Sample.hitOf [Sample.floor] 1 1 in
  HitRecord.didHit closestHit = true /\
  frontFacing closestHit Sample.lamp = true /\
  DoesHit pScene (shadowRayTo closestHit Sample.lamp) && m_ShadowsEnabled this
    = false /\
  ~ (exists st' calls,
        lightIteration this pScene viewRay closestHit [Sample.matte Sample.grey]
                       Sample.lamp loopEntry = Some (st', calls) /\
        shadeCalls calls
        = [(Normalized (directionTo closestHit Sample.lamp),
            Normalized (Sample.neg (Ray.direction viewRay)))]).
Proof.
  intros this pScene viewRay closestHit.
  split; [vm_compute; reflexivity|].
  split; [vm_compute; reflexivity|].
  split; [vm_compute; reflexivity|].
  apply (lightIteration_shade_view this pScene viewRay closestHit
           [Sample.matte Sample.grey] Sample.lamp loopEntry
           (Sample.matte Sample.grey)).
  - vm_compute. reflexivity.
  - vm_compute. reflexivity.
  - vm_compute. reflexivity.
  - vm_compute. discriminate.
Qed.

(** A frame of the sample scene on a machine with three hardware
    threads: the chunks, the order a scheduler makes of them, the frame,
    and the call of RenderPixel behind pixel 5. *)
Lemma execution_strategies_agree_witness :
  let env := mkEnv 3 [5; 1; 2; 7; 2]%nat in
  let this := Sample.renderer Combined true in
  let pScene := Sample.scene [Sample.floor; Sample.ceiling]
                             [Sample.lamp; Sample.sun] in
  let this' := withBuffer this Sample.frameBuffer in
  0 < hardware_concurrency env < UINT32_MOD /\
  numPixelsOf this = Some 8 /\
  asyncPartition 3 8 = Some [[0; 1; 2]; [3; 4; 5]; [6; 7]] /\
  schedule ASYNC env 8 = Some [6; 3; 7; 4; 0; 1; 2; 5] /\
  Render ASYNC env this pScene = Render NoThreading env this pScene /\
  Render PARALLEL_FOR env this pScene = Render NoThreading env this pScene /\
  validFrame this /\
  Render ASYNC env this pScene = Some (this', frameScene pScene) /\
  exists value log,
    RenderPixel this (frameScene pScene) 5 (frameFov pScene)
                (frameAspectRatio this)
                (CalculateCameraToWorld (GetCamera pScene))
                (GetLights pScene) (GetMaterials pScene)
    = Some (withBuffer this (<[Z.to_nat 5 := value]> (m_pBufferPixels this)),
            log) /\
    m_pBufferPixels this' !! Z.to_nat 5 = Some value.
Proof.
  intros env this pScene this'.
  assert (Hcores : 0 < hardware_concurrency env < UINT32_MOD)
    by (vm_compute; split; reflexivity).
  assert (Hvalid : validFrame this)
    by (vm_compute; intuition (reflexivity || discriminate)).
  assert (Hschedule : schedule ASYNC env 8 = Some [6; 3; 7; 4; 0; 1; 2; 5])
    by (vm_compute; reflexivity).
  assert (Hwrites : applyWrites
                      (map (framePixel this pScene) [6; 3; 7; 4; 0; 1; 2; 5])
                      (m_pBufferPixels this)
                    = Some Sample.frameBuffer)
    by (vm_compute; reflexivity).
  assert (Hrun : Render ASYNC env this pScene
                 = Some (this', frameScene pScene)).
  { rewrite Render_framePixels.
    change (numPixelsOf this) with (Some 8). cbn match.
    rewrite Hschedule, Hwrites. reflexivity. }
  pose proof (execution_strategies_agree env this pScene Hcores)
    as (_ & _ & Hasync & Hparallel & _ & Hframe).
  split; [exact Hcores|].
  split; [reflexivity|].
  split; [vm_compute; reflexivity|].
  split; [exact Hschedule|].
  split; [exact Hasync|]. split; [exact Hparallel|].
  split; [exact Hvalid|]. split; [exact Hrun|].
  destruct (Hframe ASYNC this' (frameScene pScene) Hvalid Hrun)
    as (indices & calls & _ & _ & _ & _ & Hpixels).
  apply Hpixels. vm_compute. split; [discriminate|reflexivity].
Defined.

(** The ceiling point seen through pixel (1, 0) faces away from the sun. *)
Lemma backface_light_contributes_nothing_witness :
  let this := Sample.renderer Combined true in
  let pScene := Sample.scene [Sample.floor; Sample.ceiling]
                             [Sample.lamp; Sample.sun] in
  let viewRay := Sample.pixelRay 1 0 in
  let closestHit := Sample.hitOf [Sample.floor; Sample.ceiling] 1 0 in
  F32.ltb (Dot (HitRecord.normal closestHit) (directionTo closestHit Sample.sun))
          (F32.of_int 0) = true /\
  forall mode shadows,
    colorAfter (lightLoop (withShadows (withMode this mode) shadows) pScene
                          viewRay closestHit [Sample.matte Sample.grey]
                          ([Sample.lamp] ++ Sample.sun :: []) loopEntry)
    = colorAfter (lightLoop (withShadows (withMode this mode) shadows) pScene
                            viewRay closestHit [Sample.matte Sample.grey]
                            ([Sample.lamp] ++ []) loopEntry).
Proof.
  intros this pScene viewRay closestHit.
  assert (Hneg : F32.ltb (Dot (HitRecord.normal closestHit)
                              (directionTo closestHit Sample.sun))
                         (F32.of_int 0) = true)
    by (vm_compute; reflexivity).
  split; [exact Hneg|].
  intros mode shadows.
  exact (proj2 (backface_light_contributes_nothing this pScene viewRay closestHit
                  [Sample.matte Sample.grey] Sample.sun Hneg mode shadows)
               [Sample.lamp] [] loopEntry).
Defined.

(** C3 with the direction to the light as GetDirectionToLight returns it
    fails at the grazing light: the products of the normal with that
    direction round to a negative sum, -2^-23, while the normalized
    direction has the components s and -s and the dot product tested at
    line 162 is zero. The light is not skipped: the iteration goes on to
    the shadow test, and in the Radiance mode the light changes the
    color. *)
Lemma backface_raw_direction_counterexample :
  let this := Sample.renderer Radiance true in
  let pScene := Sample.scene [] [Sample.grazingLight] in
  let viewRay := Sample.pixelRay 1 1 in
  let closestHit := Sample.grazingHit in
  let light := Sample.grazingLight in
  let materials := [Sample.matte Sample.grey] in
  F32.ltb (Dot (HitRecord.normal closestHit)
               (GetDirectionToLight light (HitRecord.origin closestHit)))
          (F32.of_int 0) = true /\
  Dot (HitRecord.normal closestHit)
      (GetDirectionToLight light (HitRecord.origin closestHit))
  = S754_finite true 8388608 (-46) /\
  Dot (HitRecord.normal closestHit) (directionTo closestHit light)
  = S754_zero false /\
  ~ (exists st',
        lightIteration this pScene viewRay closestHit materials light loopEntry
        = Some (st', [Call_GetDirectionToLight light
                        (HitRecord.origin closestHit)]) /\
        finalColor st' = finalColor loopEntry) /\
  colorAfter (lightLoop this pScene viewRay closestHit materials
                        ([] ++ light :: []) loopEntry)
  <> colorAfter (lightLoop this pScene viewRay closestHit materials
                           ([] ++ []) loopEntry).
Proof.
  intros this pScene viewRay closestHit light materials.
  split; [vm_compute; reflexivity|].
  split; [vm_compute; reflexivity|].
  split; [vm_compute; reflexivity|].
  split.
  - apply (lightIteration_not_skipped this pScene viewRay closestHit materials
             light loopEntry (Sample.matte Sample.grey)).
    + vm_compute. reflexivity.
    + vm_compute. reflexivity.
    + vm_compute. reflexivity.
  - vm_compute. discriminate.
Qed.

(** The floor point seen through pixel (1, 1): the ceiling lies between it
    and the sun. *)
Lemma shadow_test_gates_contribution_witness :
  let this := Sample.renderer Radiance true in
  let pScene := Sample.scene [Sample.floor; Sample.ceiling]
                             [Sample.lamp; Sample.sun] in
  let viewRay := Sample.pixelRay 1 1 in
  let closestHit := Sample.hitOf [Sample.floor; Sample.ceiling] 1 1 in
  let aimed := aimShadowRay closestHit
                 (GetDirectionToLight Sample.sun (HitRecord.origin closestHit))
                 loopEntry in
  frontFacing closestHit Sample.sun = true /\
  DoesHit pScene (shadowRay aimed) = true /\
  [Sample.matte Sample.grey] !! HitRecord.materialIndex closestHit
    = Some (Sample.matte Sample.grey) /\
  lightIteration (withShadows this true) pScene viewRay closestHit
                 [Sample.matte Sample.grey] Sample.sun loopEntry
  = Some (aimed,
          [Call_GetDirectionToLight Sample.sun (HitRecord.origin closestHit);
           Call_DoesHit (shadowRay aimed)]) /\
  colorAfter (lightIteration (withShadows this false) pScene viewRay closestHit
                             [Sample.matte Sample.grey] Sample.sun loopEntry)
  = Some (ColorRGB.add ColorRGB.zero
            (GetRadiance Sample.sun (HitRecord.origin closestHit))).
Proof.
  intros this pScene viewRay closestHit aimed.
  assert (Hfront : frontFacing closestHit Sample.sun = true)
    by (vm_compute; reflexivity).
  assert (Hocc : DoesHit pScene (shadowRay aimed) = true)
    by (vm_compute; reflexivity).
  assert (Hmat : [Sample.matte Sample.grey] !! HitRecord.materialIndex closestHit
                 = Some (Sample.matte Sample.grey))
    by (vm_compute; reflexivity).
  split; [exact Hfront|]. split; [exact Hocc|]. split; [exact Hmat|].
  destruct (shadow_test_gates_contribution this pScene viewRay closestHit
              [Sample.matte Sample.grey] Sample.sun loopEntry
              (Sample.matte Sample.grey) Hfront Hocc Hmat)
    as (Hon & _ & calls & Hoff & _).
  split; [exact Hon|]. rewrite Hoff. reflexivity.
Defined.

(** The same floor point lit by the lamp in the Combined mode. *)
Lemma Combined_adds_E_BRDF_cosTheta_witness :
  let this := Sample.renderer Combined true in
  let pScene := Sample.scene [Sample.floor; Sample.ceiling]
                             [Sample.lamp; Sample.sun] in
  let viewRay := Sample.pixelRay 1 1 in
  let closestHit := Sample.hitOf [Sample.floor; Sample.ceiling] 1 1 in
  let E := GetRadiance Sample.lamp (HitRecord.origin closestHit) in
  let cosTheta := Dot (HitRecord.normal closestHit)
                      (directionTo closestHit Sample.lamp) in
  m_CurrentLightingMode this = Combined /\
  frontFacing closestHit Sample.lamp = true /\
  DoesHit pScene
    (shadowRay (aimShadowRay closestHit
                  (GetDirectionToLight Sample.lamp (HitRecord.origin closestHit))
                  loopEntry))
    && m_ShadowsEnabled this = false /\
  [Sample.matte Sample.grey] !! HitRecord.materialIndex closestHit
    = Some (Sample.matte Sample.grey) /\
  colorAfter (lightIteration this pScene viewRay closestHit
                             [Sample.matte Sample.grey] Sample.lamp loopEntry)
  = Some (ColorRGB.add ColorRGB.zero
            (ColorRGB.scale (ColorRGB.mul E Sample.grey) cosTheta)).
Proof.
  intros this pScene viewRay closestHit E cosTheta.
  assert (Hmode : m_CurrentLightingMode this = Combined) by reflexivity.
  assert (Hfront : frontFacing closestHit Sample.lamp = true)
    by (vm_compute; reflexivity).
  assert (Hlit : DoesHit pScene
                   (shadowRay (aimShadowRay closestHit
                      (GetDirectionToLight Sample.lamp
                         (HitRecord.origin closestHit)) loopEntry))
                 && m_ShadowsEnabled this = false)
    by (vm_compute; reflexivity).
  assert (Hmat : [Sample.matte Sample.grey] !! HitRecord.materialIndex closestHit
                 = Some (Sample.matte Sample.grey))
    by (vm_compute; reflexivity).
  split; [exact Hmode|]. split; [exact Hfront|]. split; [exact Hlit|].
  split; [exact Hmat|].
  destruct (Combined_adds_E_BRDF_cosTheta this pScene viewRay closestHit
              [Sample.matte Sample.grey] Sample.lamp loopEntry
              (Sample.matte Sample.grey) Hmode Hfront Hlit Hmat)
    as (st' & calls & Hrun & Hcolor & _).
  rewrite Hrun. cbn [colorAfter]. rewrite Hcolor. reflexivity.
Defined.

(** The shadow ray toward the sun, built in the iteration that follows the
    one of the lamp. *)
Lemma shadow_ray_construction_witness :
  let this := Sample.renderer Combined true in
  let pScene := Sample.scene [Sample.floor; Sample.ceiling]
                             [Sample.lamp; Sample.sun] in
  let viewRay := Sample.pixelRay 1 1 in
  let closestHit := Sample.hitOf [Sample.floor; Sample.ceiling] 1 1 in
  let toLight := GetDirectionToLight Sample.sun (HitRecord.origin closestHit) in
  let ray := shadowRay (aimShadowRay closestHit toLight Sample.afterLamp) in
  lightLoop this pScene viewRay closestHit [Sample.matte Sample.grey]
            [Sample.lamp] loopEntry
  = Some (Sample.afterLamp, Sample.lampCalls) /\
  Ray.min ray = F32.c0_01 /\
  Ray.max ray = fst (Normalize toLight) /\
  Ray.direction ray = snd (Normalize toLight) /\
  Ray.origin ray
  = Vector3_add (HitRecord.origin closestHit)
                (Vector3_scale (Ray.min ray) (Ray.direction ray)).
Proof.
  intros this pScene viewRay closestHit toLight ray.
  assert (Hreach : lightLoop this pScene viewRay closestHit
                             [Sample.matte Sample.grey] [Sample.lamp] loopEntry
                   = Some (Sample.afterLamp, Sample.lampCalls))
    by (vm_compute; reflexivity).
  split; [exact Hreach|].
  destruct (shadow_ray_construction this pScene viewRay closestHit
              [Sample.matte Sample.grey] [Sample.lamp] Sample.sun
              Sample.afterLamp Sample.lampCalls Hreach)
    as (Hmin & _ & Hmax & Hdir & Horigin & _).
  split; [exact Hmin|]. split; [exact Hmax|]. split; [exact Hdir|exact Horigin].
Defined.

(** The view ray through pixel (1, 0) points away from the floor. *)
Lemma miss_renders_black_witness :
  let this := Sample.renderer Combined true in
  let pScene := Sample.scene [Sample.floor] [Sample.lamp] in
  validFrame this /\
  0 <= 1 < m_Width this * m_Height this /\
  HitRecord.didHit
    (GetClosestHit pScene
       (viewRayOf this (1 mod m_Width this) (1 / m_Width this) F32.one F32.two
                  (GetCamera pScene))
       HitRecord_default) = false /\
  option_map (fun result => m_pBufferPixels (fst result))
    (RenderPixel this pScene 1 F32.one F32.two (GetCamera pScene)
                 [Sample.lamp] [Sample.matte Sample.grey])
  = Some [0; 255 * 2 ^ 24; 0; 0; 0; 0; 0; 0].
Proof.
  intros this pScene.
  assert (Hvalid : validFrame this)
    by (vm_compute; intuition (reflexivity || discriminate)).
  assert (Hin : 0 <= 1 < m_Width this * m_Height this)
    by (vm_compute; split; [discriminate|reflexivity]).
  assert (Hmiss : HitRecord.didHit
                    (GetClosestHit pScene
                       (viewRayOf this (1 mod m_Width this) (1 / m_Width this)
                          F32.one F32.two (GetCamera pScene))
                       HitRecord_default) = false)
    by (vm_compute; reflexivity).
  split; [exact Hvalid|]. split; [exact Hin|]. split; [exact Hmiss|].
  destruct (miss_renders_black this pScene 1 F32.one F32.two (GetCamera pScene)
              [Sample.lamp] [Sample.matte Sample.grey] Hvalid Hin Hmiss)
    as (_ & _ & _ & Hrun & _).
  rewrite Hrun. reflexivity.
Defined.

(** The sample frame with shadows off, with every shadow ray reported
    blocked and with none. *)
Lemma disabled_shadows_hide_occlusion_witness :
  let this := Sample.renderer Combined false in
  let pScene := Sample.scene [Sample.floor; Sample.ceiling]
                             [Sample.lamp; Sample.sun] in
  m_ShadowsEnabled this = false /\
  RenderPixel this (withDoesHit pScene (fun _ => true)) 5 F32.one F32.two
              (GetCamera pScene) [Sample.lamp; Sample.sun]
              [Sample.matte Sample.grey]
  = RenderPixel this (withDoesHit pScene (fun _ => false)) 5 F32.one F32.two
                (GetCamera pScene) [Sample.lamp; Sample.sun]
                [Sample.matte Sample.grey].
Proof.
  intros this pScene.
  assert (Hoff : m_ShadowsEnabled this = false) by reflexivity.
  split; [exact Hoff|].
  exact (proj1 (disabled_shadows_hide_occlusion this pScene (fun _ => true)
                  (fun _ => false) Hoff)
               5 F32.one F32.two (GetCamera pScene) [Sample.lamp; Sample.sun]
               [Sample.matte Sample.grey]).
Defined.

(** The sample frame, rendered pixel after pixel: with shadows the floor
    is lit by the lamp alone, without them the sun shines through the
    ceiling; the ceiling faces away from the sun in both. *)
Example sample_frame_shadows_on :
  option_map (fun result => m_pBufferPixels (fst result))
    (Render NoThreading (mkEnv 3 [])
            (Sample.renderer Combined true)
            (Sample.scene [Sample.floor; Sample.ceiling]
                          [Sample.lamp; Sample.sun]))
  = Some [4279045389; 4284637794; 4284637794; 4279045389;
          4279045389; 4284637794; 4284637794; 4279045389].
Proof. vm_compute. reflexivity. Qed.

Example sample_frame_shadows_off :
  option_map (fun result => m_pBufferPixels (fst result))
    (Render NoThreading (mkEnv 3 [])
            (Sample.renderer Combined false)
            (Sample.scene [Sample.floor; Sample.ceiling]
                          [Sample.lamp; Sample.sun]))
  = Some [4279045389; 4284637794; 4284637794; 4279045389;
          4287137928; 4294967295; 4294967295; 4287137928].
Proof. vm_compute. reflexivity. Qed.

(** ** More of the renderer on the sample scene *)

(** The floor point seen through pixel (1, 1), with the lamp let through
    and the sun shadowed by the ceiling. *)
Lemma lightLoop_sums_contributions_witness :
  let this := Sample.renderer Combined true in
  let pScene := Sample.scene [Sample.floor; Sample.ceiling]
                             [Sample.lamp; Sample.sun] in
  let viewRay := Sample.pixelRay 1 1 in
  let closestHit := Sample.hitOf [Sample.floor; Sample.ceiling] 1 1 in
  [Sample.matte Sample.grey] !! HitRecord.materialIndex closestHit
    = Some (Sample.matte Sample.grey) /\
  List.filter (contributes this pScene closestHit) [Sample.lamp; Sample.sun]
    = [Sample.lamp] /\
  exists st,
    lightLoop this pScene viewRay closestHit [Sample.matte Sample.grey]
              [Sample.lamp; Sample.sun] loopEntry
    = Some (st, flat_map (iterationCalls this pScene viewRay closestHit)
                         [Sample.lamp; Sample.sun]) /\
    finalColor st
    = fold_left (fun color light =>
                   contribution this viewRay closestHit
                                (Sample.matte Sample.grey) light color)
                (List.filter (contributes this pScene closestHit)
                             [Sample.lamp; Sample.sun])
                ColorRGB.zero.
Proof.
  intros this pScene viewRay closestHit.
  assert (Hmat : [Sample.matte Sample.grey] !! HitRecord.materialIndex closestHit
                 = Some (Sample.matte Sample.grey))
    by (vm_compute; reflexivity).
  split; [exact Hmat|].
  split; [vm_compute; reflexivity|].
  exact (lightLoop_sums_contributions this pScene viewRay closestHit
           [Sample.matte Sample.grey] [Sample.lamp; Sample.sun]
           (Sample.matte Sample.grey) Hmat).
Defined.

(** The same floor point with the sun alone and no material at all. *)
Lemma unlit_pixel_is_black_witness :
  let this := Sample.renderer Combined true in
  let pScene := Sample.scene [Sample.floor; Sample.ceiling] [Sample.sun] in
  let viewRay := viewRayOf this (5 mod m_Width this) (5 / m_Width this)
                           F32.one F32.two (GetCamera pScene) in
  let closestHit := GetClosestHit pScene viewRay HitRecord_default in
  validFrame this /\
  0 <= 5 < m_Width this * m_Height this /\
  HitRecord.didHit closestHit = true /\
  contributes this pScene closestHit Sample.sun = false /\
  option_map (fun result => m_pBufferPixels (fst result))
    (RenderPixel this pScene 5 F32.one F32.two (GetCamera pScene)
                 [Sample.sun] [])
  = Some [0; 0; 0; 0; 0; 255 * 2 ^ 24; 0; 0].
Proof.
  intros this pScene viewRay closestHit.
  assert (Hvalid : validFrame this)
    by (vm_compute; intuition (reflexivity || discriminate)).
  assert (Hin : 0 <= 5 < m_Width this * m_Height this)
    by (vm_compute; split; [discriminate|reflexivity]).
  assert (Hidle : contributes this pScene closestHit Sample.sun = false)
    by (vm_compute; reflexivity).
  split; [exact Hvalid|]. split; [exact Hin|].
  split; [vm_compute; reflexivity|]. split; [exact Hidle|].
  assert (Hall : forall light, In light [Sample.sun] ->
                   contributes this pScene closestHit light = false)
    by (intros light [<-|[]]; exact Hidle).
  destruct (unlit_pixel_is_black this pScene 5 F32.one F32.two
              (GetCamera pScene) [Sample.sun] [] Hvalid Hin Hall)
    as (Hrun & _).
  rewrite Hrun. reflexivity.
Defined.

(** The floor point lit by the lamp, with an empty materials vector. *)
Lemma contributing_light_needs_material_witness :
  let this := Sample.renderer Combined true in
  let pScene := Sample.scene [Sample.floor] [Sample.lamp] in
  let viewRay := viewRayOf this (5 mod m_Width this) (5 / m_Width this)
                           F32.one F32.two (GetCamera pScene) in
  let closestHit := GetClosestHit pScene viewRay HitRecord_default in
  validFrame this /\
  0 <= 5 < m_Width this * m_Height this /\
  HitRecord.didHit closestHit = true /\
  In Sample.lamp [Sample.lamp] /\
  contributes this pScene closestHit Sample.lamp = true /\
  (length (@nil Material) <= HitRecord.materialIndex closestHit)%nat /\
  RenderPixel this pScene 5 F32.one F32.two (GetCamera pScene) [Sample.lamp] []
  = None.
Proof.
  intros this pScene viewRay closestHit.
  assert (Hvalid : validFrame this)
    by (vm_compute; intuition (reflexivity || discriminate)).
  assert (Hin : 0 <= 5 < m_Width this * m_Height this)
    by (vm_compute; split; [discriminate|reflexivity]).
  assert (Hhit : HitRecord.didHit closestHit = true) by (vm_compute; reflexivity).
  assert (Hlight : In Sample.lamp [Sample.lamp]) by (left; reflexivity).
  assert (Hactive : contributes this pScene closestHit Sample.lamp = true)
    by (vm_compute; reflexivity).
  assert (Hpast : (length (@nil Material)
                   <= HitRecord.materialIndex closestHit)%nat)
    by (cbn [length]; lia).
  split; [exact Hvalid|]. split; [exact Hin|]. split; [exact Hhit|].
  split; [exact Hlight|]. split; [exact Hactive|]. split; [exact Hpast|].
  exact (contributing_light_needs_material this pScene 5 F32.one F32.two
           (GetCamera pScene) [Sample.lamp] [] Sample.lamp Hvalid Hin Hhit
           Hlight Hactive Hpast).
Defined.

(** Pixel 5 of the sample scene in the ObservedArea mode. *)
Lemma ObservedArea_renders_grey_witness :
  let this := Sample.renderer ObservedArea true in
  let pScene := Sample.scene [Sample.floor; Sample.ceiling]
                             [Sample.lamp; Sample.sun] in
  m_CurrentLightingMode this = ObservedArea /\
  validFrame this /\
  0 <= 5 < m_Width this * m_Height this /\
  RenderPixel this pScene 5 F32.one F32.two (GetCamera pScene)
              [Sample.lamp; Sample.sun] [Sample.matte Sample.grey]
  = Some (Sample.observedRenderer, Sample.observedCalls) /\
  exists level,
    0 <= level <= 255 /\
    m_pBufferPixels Sample.observedRenderer
    = <[Z.to_nat 5 := SDL_MapRGB level level level]> (m_pBufferPixels this).
Proof.
  intros this pScene.
  assert (Hmode : m_CurrentLightingMode this = ObservedArea) by reflexivity.
  assert (Hvalid : validFrame this)
    by (vm_compute; intuition (reflexivity || discriminate)).
  assert (Hin : 0 <= 5 < m_Width this * m_Height this)
    by (vm_compute; split; [discriminate|reflexivity]).
  assert (Hrun : RenderPixel this pScene 5 F32.one F32.two (GetCamera pScene)
                             [Sample.lamp; Sample.sun] [Sample.matte Sample.grey]
                 = Some (Sample.observedRenderer, Sample.observedCalls))
    by (vm_compute; reflexivity).
  split; [exact Hmode|]. split; [exact Hvalid|]. split; [exact Hin|].
  split; [exact Hrun|].
  exact (proj2 (ObservedArea_renders_grey this pScene 5 F32.one F32.two
                  (GetCamera pScene) [Sample.lamp; Sample.sun]
                  [Sample.matte Sample.grey] Sample.observedRenderer
                  Sample.observedCalls Hmode Hvalid Hin Hrun)).
Defined.

(** The Radiance mode with a grey and with a white material. *)
Lemma ObservedArea_and_Radiance_ignore_materials_witness :
  let this := Sample.renderer Radiance true in
  let pScene := Sample.scene [Sample.floor; Sample.ceiling]
                             [Sample.lamp; Sample.sun] in
  (m_CurrentLightingMode this = ObservedArea
   \/ m_CurrentLightingMode this = Radiance) /\
  length [Sample.matte Sample.grey] = length [Sample.matte Sample.white] /\
  RenderPixel this pScene 5 F32.one F32.two (GetCamera pScene)
              [Sample.lamp; Sample.sun] [Sample.matte Sample.grey]
  = RenderPixel this pScene 5 F32.one F32.two (GetCamera pScene)
                [Sample.lamp; Sample.sun] [Sample.matte Sample.white].
Proof.
  intros this pScene.
  assert (Hmode : m_CurrentLightingMode this = ObservedArea
                  \/ m_CurrentLightingMode this = Radiance)
    by (right; reflexivity).
  assert (Hlen : length [Sample.matte Sample.grey]
                 = length [Sample.matte Sample.white]) by reflexivity.
  split; [exact Hmode|]. split; [exact Hlen|].
  exact (ObservedArea_and_Radiance_ignore_materials this pScene 5 F32.one
           F32.two (GetCamera pScene) [Sample.lamp; Sample.sun]
           [Sample.matte Sample.grey] [Sample.matte Sample.white] Hmode Hlen).
Defined.

(** The scene's own any-hit query and one that reports every ray blocked
    agree on the shadow ray from the floor to the sun. *)
Lemma shadow_test_reads_its_shadow_rays_witness :
  let this := Sample.renderer Combined true in
  let pScene := Sample.scene [Sample.floor; Sample.ceiling] [Sample.sun] in
  let viewRay := viewRayOf this (5 mod m_Width this) (5 / m_Width this)
                           F32.one F32.two (GetCamera pScene) in
  let closestHit := GetClosestHit pScene viewRay HitRecord_default in
  validFrame this /\
  0 <= 5 < m_Width this * m_Height this /\
  DoesHit pScene (shadowRayTo closestHit Sample.sun) = true /\
  RenderPixel this (withDoesHit pScene (DoesHit pScene)) 5 F32.one F32.two
              (GetCamera pScene) [Sample.sun] [Sample.matte Sample.grey]
  = RenderPixel this (withDoesHit pScene (fun _ => true)) 5 F32.one F32.two
                (GetCamera pScene) [Sample.sun] [Sample.matte Sample.grey].
Proof.
  intros this pScene viewRay closestHit.
  assert (Hvalid : validFrame this)
    by (vm_compute; intuition (reflexivity || discriminate)).
  assert (Hin : 0 <= 5 < m_Width this * m_Height this)
    by (vm_compute; split; [discriminate|reflexivity]).
  assert (Hblocked : DoesHit pScene (shadowRayTo closestHit Sample.sun) = true)
    by (vm_compute; reflexivity).
  split; [exact Hvalid|]. split; [exact Hin|]. split; [exact Hblocked|].
  assert (Hagree : forall light, In light [Sample.sun] ->
                     frontFacing closestHit light = true ->
                     DoesHit pScene (shadowRayTo closestHit light)
                     = (fun _ : Ray => true) (shadowRayTo closestHit light))
    by (intros light [<-|[]] _; exact Hblocked).
  exact (shadow_test_reads_its_shadow_rays this pScene (DoesHit pScene)
           (fun _ => true) 5 F32.one F32.two (GetCamera pScene) [Sample.sun]
           [Sample.matte Sample.grey] Hvalid Hin Hagree).
Defined.

(** Index 8 is one past the last pixel of the 4 by 2 window. *)
Lemma RenderPixel_past_the_surface_witness :
  let this := Sample.renderer Combined true in
  let pScene := Sample.scene [Sample.floor] [Sample.lamp] in
  0 < m_Width this <= INT_MAX /\
  Z.of_nat (length (m_pBufferPixels this)) <= 8 <= INT_MAX /\
  RenderPixel this pScene 8 F32.one F32.two (GetCamera pScene) [Sample.lamp]
              [Sample.matte Sample.grey] = None.
Proof.
  intros this pScene.
  assert (Hw : 0 < m_Width this <= INT_MAX)
    by (vm_compute; split; [reflexivity|discriminate]).
  assert (Hpast : Z.of_nat (length (m_pBufferPixels this)) <= 8 <= INT_MAX)
    by (vm_compute; split; discriminate).
  split; [exact Hw|]. split; [exact Hpast|].
  exact (RenderPixel_past_the_surface this pScene 8 F32.one F32.two
           (GetCamera pScene) [Sample.lamp] [Sample.matte Sample.grey] Hw Hpast).
Defined.

(** The sample frame under the data-parallel strategy: pixel 5, a surface
    that held other pixels before, and the frame rendered again. *)
Lemma Render_fills_the_surface_witness :
  let env := mkEnv 3 [5; 1; 2; 7; 2]%nat in
  let this := Sample.renderer Combined true in
  let pScene := Sample.scene [Sample.floor; Sample.ceiling]
                             [Sample.lamp; Sample.sun] in
  let this' := withBuffer this Sample.frameBuffer in
  validFrame this /\
  0 < hardware_concurrency env /\
  Render PARALLEL_FOR env this pScene = Some (this', frameScene pScene) /\
  (exists value,
      framePixel this pScene 5 = Some (5, value) /\
      m_pBufferPixels this' !! Z.to_nat 5 = Some value) /\
  Render PARALLEL_FOR env (withBuffer this (replicate 8 255)) pScene
  = Some (this', frameScene pScene) /\
  Render PARALLEL_FOR env this' (frameScene pScene)
  = Some (this', frameScene pScene).
Proof.
  intros env this pScene this'.
  assert (Hvalid : validFrame this)
    by (vm_compute; intuition (reflexivity || discriminate)).
  assert (Hcores : 0 < hardware_concurrency env) by reflexivity.
  assert (Hwrites : applyWrites
                      (map (framePixel this pScene) [5; 1; 3; 4; 6; 0; 2; 7])
                      (m_pBufferPixels this)
                    = Some Sample.frameBuffer)
    by (vm_compute; reflexivity).
  assert (Hschedule : schedule PARALLEL_FOR env 8 = Some [5; 1; 3; 4; 6; 0; 2; 7])
    by (vm_compute; reflexivity).
  assert (Hrun : Render PARALLEL_FOR env this pScene
                 = Some (this', frameScene pScene)).
  { rewrite Render_framePixels.
    change (numPixelsOf this) with (Some 8). cbn match.
    rewrite Hschedule, Hwrites. reflexivity. }
  split; [exact Hvalid|]. split; [exact Hcores|]. split; [exact Hrun|].
  destruct (Render_fills_the_surface PARALLEL_FOR env this pScene this'
              (frameScene pScene) Hvalid Hcores Hrun)
    as (_ & _ & _ & Hpixels & Hother & Hagain).
  split; [apply Hpixels; vm_compute; split; [discriminate|reflexivity]|].
  split; [apply Hother; reflexivity|].
  apply Hagain. reflexivity.
Defined.

(** Three threads and one scheduler against eight threads and another. *)
Lemma frame_independent_of_the_machine_witness :
  let env1 := mkEnv 3 [5; 1; 2; 7; 2]%nat in
  let env2 := mkEnv 8 [0; 4; 4; 1]%nat in
  let this := Sample.renderer Combined true in
  let pScene := Sample.scene [Sample.floor; Sample.ceiling]
                             [Sample.lamp; Sample.sun] in
  0 < hardware_concurrency env1 /\
  0 < hardware_concurrency env2 /\
  Render ASYNC env1 this pScene = Render PARALLEL_FOR env2 this pScene.
Proof.
  intros env1 env2 this pScene.
  assert (Hcores1 : 0 < hardware_concurrency env1) by reflexivity.
  assert (Hcores2 : 0 < hardware_concurrency env2) by reflexivity.
  split; [exact Hcores1|]. split; [exact Hcores2|].
  exact (frame_independent_of_the_machine ASYNC PARALLEL_FOR env1 env2 this
           pScene Hcores1 Hcores2).
Defined.

(** A machine that reports no hardware thread. *)
Lemma no_hardware_threads_witness :
  let env := mkEnv 0 [] in
  let this := Sample.renderer Combined true in
  let pScene := Sample.scene [Sample.floor] [Sample.lamp] in
  hardware_concurrency env = 0 /\
  Render ASYNC env this pScene = None /\
  Render PARALLEL_FOR env this pScene = Render NoThreading env this pScene.
Proof.
  intros env this pScene.
  assert (Hzero : hardware_concurrency env = 0) by reflexivity.
  split; [exact Hzero|].
  exact (no_hardware_threads env this pScene Hzero).
Defined.

(** A window of width zero. *)
Lemma empty_window_renders_nothing_witness :
  let env := mkEnv 3 [] in
  let this := mkRenderer 0 2 [] Combined true in
  let pScene := Sample.scene [Sample.floor] [Sample.lamp] in
  m_Width this * m_Height this = 0 /\
  0 < hardware_concurrency env /\
  Render ASYNC env this pScene = Some (this, frameScene pScene) /\
  RenderPixel this pScene 0 F32.one F32.two (GetCamera pScene) [Sample.lamp]
              [Sample.matte Sample.grey] = None.
Proof.
  intros env this pScene.
  assert (Hempty : m_Width this * m_Height this = 0) by reflexivity.
  assert (Hcores : 0 < hardware_concurrency env) by reflexivity.
  split; [exact Hempty|]. split; [exact Hcores|].
  destruct (empty_window_renders_nothing ASYNC env this pScene Hempty Hcores)
    as (_ & Hrun & Hpixel).
  split; [exact Hrun|].
  apply Hpixel. reflexivity.
Defined.

(** The eight indices of the sample window, and the index 2^32 - 1. *)
Lemma parallel_for_index_round_trip_witness :
  0 <= 8 <= UINT32_MOD /\
  0 <= UINT32_MOD - 1 < UINT32_MOD /\
  uint32_to_int (UINT32_MOD - 1) = -1 /\
  to_uint32 (uint32_to_int (UINT32_MOD - 1)) = UINT32_MOD - 1 /\
  parallelForTasks 8 = map (fun i => [i]) (seqZ 0 8).
Proof.
  assert (Hn : 0 <= 8 <= UINT32_MOD) by (vm_compute; split; discriminate).
  assert (Hi : 0 <= UINT32_MOD - 1 < UINT32_MOD)
    by (vm_compute; split; [discriminate|reflexivity]).
  split; [exact Hn|]. split; [exact Hi|]. split; [reflexivity|].
  destruct (parallel_for_index_round_trip 8 Hn) as [Hround Htasks].
  split; [exact (proj1 (Hround _ Hi))|exact Htasks].
Defined.

(** [SDL_SaveBMP] reporting the error code -1, and reporting success. *)
Lemma SaveBufferToImage_returns_the_code_witness :
  fst (SaveBufferToImage (fun _ _ => -1) (Sample.renderer Combined true))
  = true /\
  fst (SaveBufferToImage (fun _ _ => 0) (Sample.renderer Combined true))
  = false.
Proof.
  split.
  - apply (proj1 (proj2 (SaveBufferToImage_returns_the_code
                           (fun _ _ => -1) (Sample.renderer Combined true)))).
    discriminate.
  - apply (proj1 (SaveBufferToImage_returns_the_code
                    (fun _ _ => 0) (Sample.renderer Combined true))).
    reflexivity.
Defined.

(** The log of the ObservedArea call for pixel 5. *)
Lemma RenderPixel_queries_witness :
  let this := Sample.renderer ObservedArea true in
  let pScene := Sample.scene [Sample.floor; Sample.ceiling]
                             [Sample.lamp; Sample.sun] in
  validFrame this /\
  0 <= 5 < m_Width this * m_Height this /\
  RenderPixel this pScene 5 F32.one F32.two (GetCamera pScene)
              [Sample.lamp; Sample.sun] [Sample.matte Sample.grey]
  = Some (Sample.observedRenderer, Sample.observedCalls) /\
  (length (shadeCalls Sample.observedCalls)
   <= length (doesHitCalls Sample.observedCalls) <= 2)%nat /\
  length Sample.observedCalls = 7%nat.
Proof.
  intros this pScene.
  assert (Hvalid : validFrame this)
    by (vm_compute; intuition (reflexivity || discriminate)).
  assert (Hin : 0 <= 5 < m_Width this * m_Height this)
    by (vm_compute; split; [discriminate|reflexivity]).
  assert (Hrun : RenderPixel this pScene 5 F32.one F32.two (GetCamera pScene)
                             [Sample.lamp; Sample.sun] [Sample.matte Sample.grey]
                 = Some (Sample.observedRenderer, Sample.observedCalls))
    by (vm_compute; reflexivity).
  split; [exact Hvalid|]. split; [exact Hin|]. split; [exact Hrun|].
  split; [|reflexivity].
  exact (proj1 (proj2 (RenderPixel_queries this pScene 5 F32.one F32.two
                         (GetCamera pScene) [Sample.lamp; Sample.sun]
                         [Sample.matte Sample.grey] Sample.observedRenderer
                         Sample.observedCalls Hvalid Hin Hrun))).
Defined.

(** The floor alone: nothing stands between it and the lamp. *)
Lemma shadow_setting_without_occluders_witness :
  let this := Sample.renderer Combined true in
  let pScene := Sample.scene [Sample.floor] [Sample.lamp] in
  let viewRay := Sample.pixelRay 1 1 in
  let closestHit := GetClosestHit pScene viewRay HitRecord_default in
  DoesHit pScene (shadowRayTo closestHit Sample.lamp) = false /\
  shadePixel (withShadows this true) pScene viewRay [Sample.lamp]
             [Sample.matte Sample.grey]
  = shadePixel (withShadows this false) pScene viewRay [Sample.lamp]
               [Sample.matte Sample.grey].
Proof.
  intros this pScene viewRay closestHit.
  assert (Hfree : DoesHit pScene (shadowRayTo closestHit Sample.lamp) = false)
    by (vm_compute; reflexivity).
  split; [exact Hfree|].
  apply (shadow_setting_without_occluders this pScene viewRay [Sample.lamp]
           [Sample.matte Sample.grey]).
  intros light [<-|[]] _. exact Hfree.
Defined.
